(** * transform_to_clean_csv.py: a shallow embedding and its properties

    The script turns a scraped product catalogue into a clean one.  Rows whose
    product identifier (ASIN) occurs in a curated reference sheet reuse the
    curated fields; the other rows get a description and labels from a text
    generation service, with a keyword fallback.

    Modelling conventions.
    - A Python [str] is a [list ascii]: a sequence of code points below 256.
      On that range [str.lower], [str.strip], [\s] and [\d] are the tables
      written out below.
    - [dict]s are stdpp [gmap]s; the rows of [csv.reader] are lists of strings
      and the rows of [csv.DictReader] are maps from column name to string
      (a column that is absent or [None] reads as the empty string in [_get]).
    - A Python exception is a [Raise] result.
    - The generation service, the process environment and [json.loads] are
      not part of the script: they are parameters of the model. *)

From Stdlib Require Import ZArith Ascii String List Lia.
From stdpp Require Import base option gmap strings list.

Set Warnings "-abstract-large-number,-register-all".

Open Scope Z_scope.
Open Scope list_scope.
Open Scope nat_scope.

(** ** Python strings *)

Abbreviation pystr := (list ascii).

Definition lit (s : string) : pystr := list_ascii_of_string s.
Coercion lit : string >-> list.

Definition nl : ascii := "010"%char.
Definition dquote : ascii := "034"%char.
Definition backslash : ascii := "092"%char.

(** [str.isspace] on one code point, which is also the class [\s] of [re]
    for [str] patterns: 9-13, 28-32, 133 and 160. *)
Definition is_space (c : ascii) : bool :=
  let n := nat_of_ascii c in
  ((9 <=? n) && (n <=? 13)) || ((28 <=? n) && (n <=? 32))
  || (n =? 133) || (n =? 160).

(** The class [\d] below 256: the ASCII digits only. *)
Definition is_digit (c : ascii) : bool :=
  let n := nat_of_ascii c in (48 <=? n) && (n <=? 57).

(** [str.lower] on one code point: A-Z and the Latin-1 capitals (192-222
    but for the multiplication sign 215) move up by 32. *)
Definition lower_char (c : ascii) : ascii :=
  let n := nat_of_ascii c in
  if ((65 <=? n) && (n <=? 90))
     || ((192 <=? n) && (n <=? 222) && negb (n =? 215))
  then ascii_of_nat (n + 32) else c.

Definition lower (s : pystr) : pystr := map lower_char s.

(** [s.lstrip()], [s.rstrip()] and [s.strip()]. *)
Fixpoint lstrip (s : pystr) : pystr :=
  match s with
  | c :: s' => if is_space c then lstrip s' else s
  | [] => []
  end.

Definition rstrip (s : pystr) : pystr := rev (lstrip (rev s)).

Definition strip (s : pystr) : pystr := rstrip (lstrip s).

(** [s.replace(old, new)] for a one-character [old]. *)
Definition replace_char (old : ascii) (new : pystr) (s : pystr) : pystr :=
  flat_map (fun c => if Ascii.eqb c old then new else [c]) s.

(** [s.startswith(p)]. *)
Fixpoint startswith (p s : pystr) : bool :=
  match p, s with
  | [], _ => true
  | a :: p', b :: s' => Ascii.eqb a b && startswith p' s'
  | _ :: _, [] => false
  end.

(** [needle in hay] on strings. *)
Fixpoint contains (needle hay : pystr) : bool :=
  startswith needle hay
  || match hay with
     | [] => false
     | _ :: hay' => contains needle hay'
     end.

(** [sep.join(parts)]. *)
Fixpoint join (sep : pystr) (parts : list pystr) : pystr :=
  match parts with
  | [] => []
  | [p] => p
  | p :: rest => p ++ sep ++ join sep rest
  end.

(** Truthiness of a string: [bool(s)]. *)
Definition nonempty (s : pystr) : bool :=
  match s with [] => false | _ :: _ => true end.

(** ** Exceptions *)

Inductive exn : Type :=
| StopIteration
| KeyError
| IndexError
| AttributeError
| OverflowError.

Inductive result (A : Type) : Type :=
| Ok (a : A)
| Raise (e : exn).
Arguments Ok {A} a.
Arguments Raise {A} e.

(** Sequencing: an exception ends the computation ([x ← r; k] below). *)
#[global] Instance result_bind : MBind result := fun A B k r =>
  match r with
  | Ok a => k a
  | Raise e => Raise e
  end.

(** ** Identifier extraction *)

(** The class [[A-Z0-9]]. *)
Definition is_asin_char (c : ascii) : bool :=
  let n := nat_of_ascii c in
  ((65 <=? n) && (n <=? 90)) || ((48 <=? n) && (n <=? 57)).

(** A greedy bounded repetition [cls{_,n}] at the head of [s]: the longest
    prefix of at most [n] characters of the class. *)
Fixpoint take_class (cls : ascii -> bool) (n : nat) (s : pystr) : pystr :=
  match n, s with
  | S n', c :: s' => if cls c then c :: take_class cls n' s' else []
  | _, _ => []
  end.

(** [/dp/([A-Z0-9]{9,10})] matched at the head of [s]: group 1. *)
Definition asin_at (s : pystr) : option pystr :=
  if startswith "/dp/" s then
    let code := take_class is_asin_char 10 (drop 4 s) in
    if 9 <=? length code then Some code else None
  else None.

(** [re.search(r"/dp/([A-Z0-9]{9,10})", s)]: the leftmost match. *)
Fixpoint search_asin (s : pystr) : option pystr :=
  match asin_at s with
  | Some code => Some code
  | None =>
      match s with
      | [] => None
      | _ :: s' => search_asin s'
      end
  end.

Definition _extract_asin (url : option pystr) : pystr :=
  match search_asin (default [] url) with
  | Some code => code
  | None => []
  end.

(** ** Integers and floats as the price normaliser uses them *)

Definition digit_char (d : Z) : ascii := ascii_of_nat (48 + Z.to_nat d).

Definition digit_value (c : ascii) : Z := (Z.of_nat (nat_of_ascii c) - 48)%Z.

(** [int(s)] for a string of ASCII digits. *)
Definition digits_value (s : pystr) : Z :=
  fold_left (fun acc c => (10 * acc + digit_value c)%Z) s 0%Z.

(** The decimal digits of [n >= 0], most significant first, in front of
    [acc]; [fuel] bounds the number of digits. *)
Fixpoint digits_from (fuel : nat) (n : Z) (acc : pystr) : pystr :=
  match fuel with
  | O => acc
  | S fuel' =>
      let acc' := digit_char (n mod 10) :: acc in
      if (n <? 10)%Z then acc' else digits_from fuel' (n / 10) acc'
  end.

(** [str(n)] for an [int]. *)
Definition str_of_int (n : Z) : pystr :=
  let digits (k : Z) := digits_from (S (Z.to_nat (Z.log2 k))) k [] in
  if (n <? 0)%Z then "-"%char :: digits (- n)%Z else digits n.

(** A binary64 value that is not negative and not a NaN: [Finite m e] stands
    for [m * 2^e], with [0 <= m <= 2^53] and [-1074 <= e <= 971]. *)
Inductive float : Type :=
| Finite (m e : Z)
| Infinity.

(** [a / b] rounded to the nearest integer, ties to the even one
    ([0 <= a], [0 < b]). *)
Definition round_half_even (a b : Z) : Z :=
  let q := (a / b)%Z in
  match (2 * (a mod b) ?= b)%Z with
  | Lt => q
  | Gt => (q + 1)%Z
  | Eq => if Z.even q then q else (q + 1)%Z
  end.

(** [floor(log2(a / b))] for [0 < b <= a]. *)
Definition log2_ratio (a b : Z) : Z :=
  let l := (Z.log2 a - Z.log2 b)%Z in
  if (b * 2 ^ l <=? a)%Z then l else (l - 1)%Z.

(** The binary64 nearest to [a / b] (ties to even), as [float(s)] gives it
    for a decimal numeral [s] of value [a / b]. Every binary64 is a multiple
    of [2^-1074]: with [x = a / b * 2^1074], the result is [x] rounded to a
    multiple of [2^t], where [t] leaves 53 significant bits
    ([t = floor(log2 x) - 52], and [0] for a smaller [x]); it is infinite
    from [2^1024] on. *)
Definition float_of_ratio (a b : Z) : float :=
  if (a =? 0)%Z then Finite 0 0 else
  let x := (a * 2 ^ 1074)%Z in
  let t := Z.max (log2_ratio x b - 52)%Z 0%Z in
  let m := round_half_even x (b * 2 ^ t)%Z in
  if (2045 <? t)%Z || ((t =? 2045)%Z && (m =? 2 ^ 53)%Z) then Infinity
  else Finite m (t - 1074)%Z.

(** [int(x)]: truncation; [int(float("inf"))] raises [OverflowError]. *)
Definition int_of_float (x : float) : result Z :=
  match x with
  | Finite m e => Ok (if (0 <=? e)%Z then m * 2 ^ e else m / 2 ^ (- e))%Z
  | Infinity => Raise OverflowError
  end.

(** [x == n] for a float [x] and an int [n]: exact comparison. *)
Definition float_eq_int (x : float) (n : Z) : bool :=
  match x with
  | Finite m e => if (0 <=? e)%Z then (m * 2 ^ e =? n)%Z
                  else (m =? n * 2 ^ (- e))%Z
  | Infinity => false
  end.

(** [f"{x:.2f}"]: the exact value rounded to two decimals, ties to even. *)
Definition format_2f (x : float) : pystr :=
  match x with
  | Finite m e =>
      let h := if (0 <=? e)%Z then (100 * m * 2 ^ e)%Z
               else round_half_even (100 * m)%Z (2 ^ (- e))%Z in
      str_of_int (h / 100)%Z ++ "."%char
        :: digit_char (h mod 100 / 10)%Z :: digit_char (h mod 10)%Z :: []
  | Infinity => lit "inf"
  end.

(** ** Price normalisation *)

(** The longest prefix of characters of a class, and the rest. *)
Fixpoint span (cls : ascii -> bool) (s : pystr) : pystr * pystr :=
  match s with
  | c :: s' =>
      if cls c then let '(p, r) := span cls s' in (c :: p, r) else ([], s)
  | [] => ([], [])
  end.

(** [re.match(r"^\$?\s*(\d+(?:\.\d+)?)\s*$", raw)]: the integer digits and
    the fraction digits of group 1. No other split of [raw] matches, so the
    greedy reading is the only one. *)
Definition match_price (raw : pystr) : option (pystr * option pystr) :=
  let s1 := if startswith "$" raw then drop 1 raw else raw in
  let '(ip, r1) := span is_digit (lstrip s1) in
  if nonempty ip then
    if startswith "." r1 then
      let '(fp, r3) := span is_digit (drop 1 r1) in
      if nonempty fp && negb (nonempty (lstrip r3)) then Some (ip, Some fp)
      else None
    else if nonempty (lstrip r1) then None else Some (ip, None)
  else None.

(** [float(m.group(1))]. *)
Definition float_of_group (g : pystr * option pystr) : float :=
  match g with
  | (ip, None) => float_of_ratio (digits_value ip) 1
  | (ip, Some fp) =>
      float_of_ratio (digits_value (ip ++ fp)) (10 ^ Z.of_nat (length fp))%Z
  end.

Definition normalize_price (raw : option pystr) : result pystr :=
  let raw := strip (default [] raw) in
  if negb (nonempty raw) then Ok []
  else
    match match_price raw with
    | Some g =>
        let num := float_of_group g in
        n ← int_of_float num;
        if float_eq_int num n then Ok (str_of_int n) else Ok (format_2f num)
    | None => Ok raw
    end.

(** ** The reference sheet *)

Record ref_entry : Type := {
  ref_description : pystr;
  ref_labels : pystr;
  ref_image_links : pystr;
  ref_price : pystr;
}.

(** [{h: i for i, h in enumerate(header)}] added to [idx], counting from
    [i]: a column name that occurs twice keeps its last index. *)
Fixpoint header_index (i : nat) (header : list pystr) (idx : gmap pystr nat)
  : gmap pystr nat :=
  match header with
  | [] => idx
  | h :: rest => header_index (S i) rest (<[h := i]> idx)
  end.

(** [row[idx[column]]]. *)
Definition column (idx : gmap pystr nat) (row : list pystr) (name : pystr)
  : result pystr :=
  match idx !! name with
  | None => Raise KeyError
  | Some i =>
      match row !! i with
      | None => Raise IndexError
      | Some v => Ok v
      end
  end.

(** The body of the loop of [load_reference_by_asin] on one row. *)
Definition load_reference_row (idx : gmap pystr nat)
    (ref : gmap pystr ref_entry) (row : list pystr)
  : result (gmap pystr ref_entry) :=
  if length row <? 7 then Ok ref
  else
    link ← column idx row "product_link";
    let product_link := strip link in
    let asin := _extract_asin (Some product_link) in
    if negb (nonempty asin) then Ok ref
    else
      d ← column idx row "description";
      l ← column idx row "labels";
      im ← column idx row "image_links";
      p ← column idx row "price";
      Ok (<[asin := {| ref_description := d;
                       ref_labels := strip l;
                       ref_image_links := strip im;
                       ref_price := strip p |}]> ref).

Fixpoint load_reference_rows (idx : gmap pystr nat)
    (ref : gmap pystr ref_entry) (rows : list (list pystr))
  : result (gmap pystr ref_entry) :=
  match rows with
  | [] => Ok ref
  | row :: rest =>
      ref' ← load_reference_row idx ref row;
      load_reference_rows idx ref' rest
  end.

(** [load_reference_by_asin()], on the rows [csv.reader] yields for the
    reference file. *)
Definition load_reference_by_asin (reader : list (list pystr))
  : result (gmap pystr ref_entry) :=
  match reader with
  | [] => Raise StopIteration
  | header :: rows => load_reference_rows (header_index 0 header ∅) ∅ rows
  end.

(** ** Raw rows and the text sent to the service *)

Definition _get (row : gmap pystr pystr) (key : pystr) : pystr :=
  strip (default [] (row !! key)).

(** Every maximal run of the character [c]: a run of at least [least] is
    replaced by [keep] copies, a shorter one stays. [run] counts the copies
    of [c] read and not yet written. *)
Fixpoint collapse_runs (c : ascii) (least keep : nat) (run : nat) (s : pystr)
  : pystr :=
  let flush := replicate (if least <=? run then keep else run) c in
  match s with
  | [] => flush
  | x :: s' =>
      if Ascii.eqb x c then collapse_runs c least keep (S run) s'
      else flush ++ x :: collapse_runs c least keep 0 s'
  end.

Definition raw_text_for_llm (row : gmap pystr pystr) : pystr :=
  let parts := [_get row "productDescription";
                _get row "additionalInfo";
                _get row "aboutProduct"] in
  let blob := join [nl; nl] (filter (fun p => nonempty p = true) parts) in
  let blob := collapse_runs nl 3 2 0 blob in
  let blob := collapse_runs " "%char 2 1 0 blob in
  let text := strip (take 12000 blob) in
  if nonempty text then text else _get row "title".

(** ** Labels *)

Definition ALLOWED_LABELS : list pystr :=
  [lit "Whiteheads"; lit "Blackheads"; lit "Cystic acne";
   lit "Hormonal breakouts"; lit "Acne scarring"; lit "Textured skin";
   lit "Large pores"; lit "Hyperpigmentation";
   lit "Post-inflammatory hyperpigmentation"; lit "Melasma";
   lit "Uneven skin tone"; lit "Wrinkles"; lit "Fine lines"; lit "Oily skin";
   lit "Dry skin"; lit "Combination skin"; lit "Normal skin"].

Definition LABELS_STR : pystr := join ", " ALLOWED_LABELS.

(** The local [norm] of [_fallback_labels]. *)
Definition norm (s : pystr) : pystr := replace_char "-"%char " " (lower s).

Definition _fallback_labels (title raw_text : pystr) : pystr :=
  let text := norm (title ++ " " ++ raw_text) in
  let matched := filter (fun l => contains (norm l) text = true) ALLOWED_LABELS in
  match matched with
  | [] => []
  | _ :: _ => lower (join "," matched)
  end.

(** ** The generation service *)

(** What [json.loads] builds. Of a number only its truth value is kept for a
    float; a [dict] is the list of its items. *)
Inductive json : Type :=
| JNull
| JBool (b : bool)
| JInt (n : Z)
| JFloat (nonzero : bool)
| JString (s : pystr)
| JArray (items : list json)
| JObject (items : list (pystr * json)).

(** [bool(v)]. *)
Definition truthy (v : json) : bool :=
  match v with
  | JNull => false
  | JBool b => b
  | JInt n => negb (n =? 0)%Z
  | JFloat nonzero => nonzero
  | JString s => nonempty s
  | JArray items => match items with [] => false | _ => true end
  | JObject items => match items with [] => false | _ => true end
  end.

(** [data.get(key)]: only a [dict] has the method. *)
Definition json_get (data : json) (key : pystr) : result (option json) :=
  match data with
  | JObject items =>
      Ok (snd <$> find (fun kv => bool_decide (fst kv = key)) items)
  | _ => Raise AttributeError
  end.

(** [(v or d)] for an optional value [v] and a string [d]. *)
Definition or_str (v : option json) (d : pystr) : json :=
  match v with
  | Some j => if truthy j then j else JString d
  | None => JString d
  end.

(** The receiver of a [str] method: anything else has no such attribute. *)
Definition as_str (v : json) : result pystr :=
  match v with
  | JString s => Ok s
  | _ => Raise AttributeError
  end.

(** [s.replace("\\n", "\n")]: backslash, n becomes a newline. *)
Fixpoint unescape_newlines (s : pystr) : pystr :=
  match s with
  | [] => []
  | c :: rest =>
      match rest with
      | d :: rest' =>
          if Ascii.eqb c backslash && Ascii.eqb d "n"%char
          then nl :: unescape_newlines rest'
          else c :: unescape_newlines rest
      | [] => [c]
      end
  end.

(** [re.sub(r"^```(?:json)?\s*", "", text)]. *)
Definition strip_fence_open (text : pystr) : pystr :=
  if startswith "```" text then
    let rest := drop 3 text in
    lstrip (if startswith "json" rest then drop 4 rest else rest)
  else text.

(** [\s*```\s*$] matches the whole of [s]. *)
Definition fence_close_at (s : pystr) : bool :=
  let s := lstrip s in
  startswith "```" s && negb (nonempty (lstrip (drop 3 s))).

(** [re.sub(r"\s*```\s*$", "", text)]: the text up to the leftmost place
    from which the pattern matches to the end. *)
Fixpoint strip_fence_close (text : pystr) : pystr :=
  if fence_close_at text then []
  else
    match text with
    | [] => []
    | c :: rest => c :: strip_fence_close rest
    end.

Definition quoted (s : pystr) : pystr := dquote :: s ++ [dquote].

Definition system_prompt : pystr :=
  lit "You are a skincare copywriter. Given a product title and raw scraped product info from Amazon, you produce:"
  ++ nl :: lit "1. A polished, helpful product description (for a skincare app) with clear sections: a short intro sentence, then "
  ++ quoted "Key Benefits:" ++ lit " or " ++ quoted "Key Features:"
  ++ lit " with bullet points, then " ++ quoted "How to Use:"
  ++ lit " with brief steps, then " ++ quoted "Customer Feedback:"
  ++ lit " or " ++ quoted "What customers say:"
  ++ lit " with one short paragraph. Use newlines between sections. Write in a neutral, informative tone. Do not invent specific stats or reviews; generalize from the raw text."
  ++ nl :: lit "2. A comma-separated list of skin-concern labels chosen ONLY from this exact list (use these strings verbatim, any casing): "
  ++ LABELS_STR
  ++ lit ". Pick only the labels that clearly apply to the product (2-5 labels typically). Output nothing else for labels.".

Definition user_prompt (title raw_text : pystr) : pystr :=
  lit "Product title:" ++ nl :: title
  ++ nl :: nl :: lit "Raw product info (scraped):" ++ nl :: take 10000 raw_text
  ++ nl :: nl :: lit "Respond with a JSON object only, no markdown, with two keys: "
  ++ quoted "description" ++ lit " (string, use " ++ backslash :: lit "n for newlines) and "
  ++ quoted "labels" ++ lit " (string, comma-separated from the allowed list only).".

(** What the run does to the outside world, in order. *)
Inductive event : Type :=
| EvRequest (system user : pystr)
| EvPrint (line : pystr).

(** The outcome of [client.messages.create]: an exception with its message,
    or a response with the texts of its content blocks. *)
Inductive api_outcome : Type :=
| ApiError (message : pystr)
| ApiResponse (content : list pystr).

(** The world the script runs in. The service may answer differently each
    time: its outcome is a function of the events so far and the request. *)
Record env : Type := {
  api_key : option pystr;
  anthropic_installed : bool;
  messages_create : list event -> pystr -> pystr -> api_outcome;
  OUTPUT_CSV : pystr;
}.

(** A computation that reads and extends the list of events so far (the
    latest last) and returns a value or raises. *)
Definition io (A : Type) : Type := list event -> list event * result A.

#[global] Instance io_ret : MRet io := fun A a tr => (tr, Ok a).

#[global] Instance io_bind : MBind io := fun A B k m tr =>
  match m tr with
  | (tr', Ok a) => k a tr'
  | (tr', Raise e) => (tr', Raise e)
  end.

Definition lift {A} (r : result A) : io A := fun tr => (tr, r).

Definition print (line : pystr) : io unit :=
  fun tr => (tr ++ [EvPrint line], Ok tt).

Definition request (w : env) (system user : pystr) : io api_outcome :=
  fun tr => (tr ++ [EvRequest system user], Ok (messages_create w tr system user)).

(** The text given to [json.loads] for a response: that of the first content
    block, or the empty string, without its code fence. *)
Definition response_text (content : list pystr) : pystr :=
  let text := match content with
              | block :: _ => block
              | [] => []
              end in
  let text := strip_fence_open text in
  let text := strip_fence_close text in
  strip text.

(** [a or b] on strings. *)
Definition str_or (a b : pystr) : pystr := if nonempty a then a else b.

Section Model.

(** [json.loads]: [None] stands for [json.JSONDecodeError]. *)
Variable json_loads : pystr -> option json.

Definition generate_description_and_labels (w : env) (title raw_text : pystr)
  : io (pystr * pystr) :=
  if negb (nonempty (default [] (api_key w))) then
    let desc := if nonempty raw_text
                then title ++ nl :: nl :: take 1500 raw_text
                else title in
    mret (desc, _fallback_labels title raw_text)
  else if negb (anthropic_installed w) then
    mret (title ++ nl :: nl :: str_or (take 1500 raw_text) [],
          _fallback_labels title raw_text)
  else
    let system := system_prompt in
    let user := user_prompt title raw_text in
    response ← request w system user;
    match response with
    | ApiError message =>
        _ ← print (lit "    API error: " ++ message);
        mret (title ++ nl :: nl :: str_or (take 1500 raw_text) [],
              _fallback_labels title raw_text)
    | ApiResponse content =>
        let text := response_text content in
        match json_loads text with
        | None =>
            mret (title ++ nl :: nl :: str_or (take 1500 raw_text) [],
                  _fallback_labels title raw_text)
        | Some data =>
            d ← lift (json_get data "description");
            d ← lift (as_str (or_str d title));
            let desc := unescape_newlines d in
            l ← lift (json_get data "labels");
            l ← lift (as_str (or_str l []));
            let labels := strip l in
            mret (desc, labels)
        end
    end.

(** ** Row assembly *)

Record out_row : Type := {
  name : pystr;
  description : pystr;
  labels : pystr;
  image_links : pystr;
  product_link : pystr;
  price : pystr;
}.

(** [f"[{i}/{total}] {title[:60]}..."]. *)
Definition progress_line (i total : nat) (title : pystr) : pystr :=
  lit "[" ++ str_of_int (Z.of_nat i) ++ lit "/" ++ str_of_int (Z.of_nat total)
  ++ lit "] " ++ take 60 title ++ lit "...".

(** The body of the loop of [main] on the [i]-th of [total] raw rows. *)
Definition process_row (w : env) (ref_by_asin : gmap pystr ref_entry)
    (i total : nat) (row : gmap pystr pystr) : io out_row :=
  let title := _get row "title" in
  let url := _get row "url" in
  let asin := _extract_asin (Some url) in
  _ ← print (progress_line i total title);
  match ref_by_asin !! asin with
  | Some r =>
      mret {| name := title;
              description := ref_description r;
              labels := lower (ref_labels r);
              image_links := ref_image_links r;
              product_link := url;
              price := ref_price r |}
  | None =>
      let raw_text := raw_text_for_llm row in
      '(desc, labels) ← generate_description_and_labels w title raw_text;
      let image_links :=
        if nonempty asin
        then lit "https://images-na.ssl-images-amazon.com/images/P/"
             ++ asin ++ lit ".01.jpg"
        else [] in
      p ← lift (normalize_price (Some (_get row "wholePriceBlockText")));
      mret {| name := title;
              description := desc;
              labels := lower labels;
              image_links := image_links;
              product_link := url;
              price := p |}
  end.

Fixpoint process_rows (w : env) (ref_by_asin : gmap pystr ref_entry)
    (i total : nat) (rows : list (gmap pystr pystr)) : io (list out_row) :=
  match rows with
  | [] => mret []
  | row :: rest =>
      r ← process_row w ref_by_asin i total row;
      rs ← process_rows w ref_by_asin (S i) total rest;
      mret (r :: rs)
  end.

Definition out_columns : list pystr :=
  [lit "id"; lit "name"; lit "description"; lit "labels"; lit "image_links";
   lit "product_link"; lit "price"].

(** The row [writer.writerow] gets for the [i]-th output record. *)
Definition csv_row (i : nat) (r : out_row) : list pystr :=
  [str_of_int (Z.of_nat i); name r; description r; labels r; image_links r;
   product_link r; price r].

(** [main()], given the rows of the reference file and of the input file;
    the value is the list of rows written to the output file. *)
Definition main (w : env) (reference_csv : list (list pystr))
    (raw_rows : list (gmap pystr pystr)) : io (list (list pystr)) :=
  ref_by_asin ← lift (load_reference_by_asin reference_csv);
  out_rows ← process_rows w ref_by_asin 1 (length raw_rows) raw_rows;
  let written := out_columns :: imap (fun i r => csv_row (S i) r) out_rows in
  _ ← print (lit "Wrote " ++ str_of_int (Z.of_nat (length out_rows))
             ++ lit " rows to " ++ OUTPUT_CSV w);
  mret written.

End Model.

(** ** The environment file *)

Definition cr : ascii := "013"%char.

Definition nul : ascii := "000"%char.

(** A text file read with universal newlines: [\r\n] and a lone [\r] are
    read as [\n]. *)
Fixpoint universal_newlines (s : pystr) : pystr :=
  match s with
  | [] => []
  | c :: rest =>
      match rest with
      | d :: rest' =>
          if Ascii.eqb c cr && Ascii.eqb d nl then nl :: universal_newlines rest'
          else (if Ascii.eqb c cr then nl else c) :: universal_newlines rest
      | [] => [if Ascii.eqb c cr then nl else c]
      end
  end.

(** [for line in f]: the lines of the text, each with its newline; [line]
    holds what is read of the current line. *)
Fixpoint file_lines (line : pystr) (s : pystr) : list pystr :=
  match s with
  | [] => match line with [] => [] | _ :: _ => [line] end
  | c :: rest =>
      if Ascii.eqb c nl then (line ++ [nl]) :: file_lines [] rest
      else file_lines (line ++ [c]) rest
  end.

(** [s.strip(q)] for a one-character [q]. *)
Fixpoint lstrip_char (q : ascii) (s : pystr) : pystr :=
  match s with
  | c :: s' => if Ascii.eqb c q then lstrip_char q s' else s
  | [] => []
  end.

Definition strip_char (q : ascii) (s : pystr) : pystr :=
  rev (lstrip_char q (rev (lstrip_char q s))).

(** [s.split(sep)[0]]: the text before the first [sep]. *)
Definition before_first (sep : ascii) (s : pystr) : pystr :=
  (span (fun c => negb (Ascii.eqb c sep)) s).1.

(** [s.split(sep, 1)] for an [s] that holds [sep]: the text before the
    first [sep] and the text after it. *)
Definition split_first (sep : ascii) (s : pystr) : pystr * pystr :=
  (before_first sep s, drop 1 (span (fun c => negb (Ascii.eqb c sep)) s).2).

(** What [os.environ.setdefault] raises: [ValueError] for a null byte in
    the name or the value and for [=] in the name, [OSError] for an empty
    name. *)
Inductive environ_error : Type :=
| ValueError
| OSError.

(** [os.environ.setdefault(key, value)]: a variable that is set is left as
    it is. *)
Definition environ_setdefault (environ : gmap pystr pystr) (key value : pystr)
  : environ_error + gmap pystr pystr :=
  match environ !! key with
  | Some _ => inr environ
  | None =>
      if contains [nul] key || contains [nul] value || contains "=" key
      then inl ValueError
      else if nonempty key then inr (<[key := value]> environ)
      else inl OSError
  end.

(** The value [_load_dotenv] reads after the first [=] of a line, before
    it looks for a newline in it. *)
Definition line_value (v : pystr) : pystr :=
  strip_char "'"%char (strip_char dquote (strip v)).

(** The body of the loop of [_load_dotenv] over the lines of a file. *)
Definition load_line (environ : gmap pystr pystr) (line : pystr)
  : environ_error + gmap pystr pystr :=
  let line := strip line in
  if nonempty line && negb (startswith "#" line) && contains "=" line then
    let '(k, v) := split_first "="%char line in
    let val := line_value v in
    let val := if contains [nl] val then before_first nl val else val in
    environ_setdefault environ (strip k) val
  else inr environ.

Fixpoint load_lines (environ : gmap pystr pystr) (lines : list pystr)
  : environ_error + gmap pystr pystr :=
  match lines with
  | [] => inr environ
  | line :: rest =>
      match load_line environ line with
      | inr environ' => load_lines environ' rest
      | inl e => inl e
      end
  end.

(** The loop over the candidate files, each given by its content, [None]
    for a file that does not exist: the first file there is is read, and
    no other. *)
Fixpoint load_first (files : list (option pystr))
    (environ : gmap pystr pystr) : environ_error + gmap pystr pystr :=
  match files with
  | [] => inr environ
  | Some content :: _ =>
      load_lines environ (file_lines [] (universal_newlines content))
  | None :: rest => load_first rest environ
  end.

(** [_load_dotenv()], given the content of [.env] beside the script and of
    the one of the sibling directory, and the environment of the process;
    the value is the environment it leaves. The files hold code points
    below 256 only. *)
Definition _load_dotenv (here sibling : option pystr)
    (environ : gmap pystr pystr) : environ_error + gmap pystr pystr :=
  load_first [here; sibling] environ.

(** ** Vocabulary of the properties *)

(** [code] is an identifier at the head of [rest]: nine or ten characters of
    [[A-Z0-9]], ten whenever a tenth one of the class follows. *)
Definition asin_code (code rest : pystr) : Prop :=
  exists post, rest = code ++ post
    /\ Forall (fun c => is_asin_char c = true) code
    /\ (length code = 10
        \/ (length code = 9 /\ forall c post', post = c :: post' -> is_asin_char c = false)).

(** [pre] is followed in [s] by [/dp/] and the identifier [code]. *)
Definition asin_occurs (s pre code : pystr) : Prop :=
  exists rest, s = pre ++ lit "/dp/" ++ rest /\ asin_code code rest.

(** A reference row with all its columns whose [product_link] holds no
    identifier. *)
Definition lacks_asin (idx : gmap pystr nat) (row : list pystr) : bool :=
  (7 <=? length row)
  && match column idx row "product_link" with
     | Ok link => negb (nonempty (_extract_asin (Some (strip link))))
     | Raise _ => false
     end.

(** [s] is made of labels of [allowed] only, lowercased and joined by
    commas; the empty string is the join of no label. *)
Definition labels_drawn_from (allowed : list pystr) (s : pystr) : Prop :=
  exists ls, Forall (fun l => l ∈ allowed) ls /\ s = join "," (map lower ls).

(** The generation of a description for [title] and [raw_text], started
    after the events [tr], ends on one of its fallbacks: no credential, no
    client library, a failed request, or a response that is not JSON. *)
Definition falls_back (json_loads : pystr -> option json) (w : env)
    (tr : list event) (title raw_text : pystr) : Prop :=
  nonempty (default [] (api_key w)) = false
  \/ anthropic_installed w = false
  \/ (exists message,
        messages_create w tr system_prompt (user_prompt title raw_text)
        = ApiError message)
  \/ (exists content,
        messages_create w tr system_prompt (user_prompt title raw_text)
        = ApiResponse content
        /\ json_loads (response_text content) = None).

(** A price written without a fraction: digits only. *)
Definition plain_integer (r : pystr) : Prop :=
  r <> [] /\ Forall (fun c => is_digit c = true) r.

(** A price written with two decimals. *)
Definition two_decimals (r : pystr) : Prop :=
  exists ip d1 d2,
    r = ip ++ "."%char :: [d1; d2]
    /\ plain_integer ip /\ is_digit d1 = true /\ is_digit d2 = true.

(** [s] is a price: an optional dollar sign, optional whitespace, the
    digits [ip], for [fp = Some f] a point and the digits [f], and optional
    whitespace. *)
Definition price_shape (s ip : pystr) (fp : option pystr) : Prop :=
  exists cur ws1 ws2,
    s = cur ++ ws1 ++ ip
          ++ match fp with Some f => "."%char :: f | None => [] end ++ ws2
    /\ (cur = [] \/ cur = lit "$")
    /\ Forall (fun c => is_space c = true) ws1
    /\ Forall (fun c => is_space c = true) ws2
    /\ plain_integer ip
    /\ match fp with Some f => plain_integer f | None => True end.

(** The fraction digits of a whole number: none, or zeros only. *)
Definition whole_numeral (fp : option pystr) : Prop :=
  match fp with
  | None => True
  | Some f => Forall (fun c => c = "0"%char) f
  end.

(** The binary64 [m * 2^e] is a whole number. *)
Definition float_whole (x : float) : bool :=
  match x with
  | Finite m e => (0 <=? e)%Z || (m mod 2 ^ (- e) =? 0)%Z
  | Infinity => false
  end.

(** The number of requests to the service among some events. *)
Fixpoint requests (evs : list event) : nat :=
  match evs with
  | [] => 0
  | EvRequest _ _ :: rest => S (requests rest)
  | EvPrint _ :: rest => requests rest
  end.

(** The length of the longest run of [c] in [s], where a run of length
    [run] ends just before [s]. *)
Fixpoint longest_run (c : ascii) (run : nat) (s : pystr) : nat :=
  match s with
  | [] => run
  | x :: s' =>
      if Ascii.eqb x c then longest_run c (S run) s'
      else Nat.max run (longest_run c 0 s')
  end.

(** The three fields of a raw row that make its raw text. *)
Definition raw_text_fields (row : gmap pystr pystr) : list pystr :=
  [_get row "productDescription"; _get row "additionalInfo";
   _get row "aboutProduct"].

(** The labels [_fallback_labels] matches, before they are joined. *)
Definition matched_labels (title raw_text : pystr) : list pystr :=
  filter (fun l => contains (norm l) (norm (title ++ " " ++ raw_text)) = true)
    ALLOWED_LABELS.

(** The file [_load_dotenv] reads, if there is one. *)
Definition env_file (here sibling : option pystr) : option pystr :=
  match here with
  | Some content => Some content
  | None => sibling
  end.

(** A name that a line of the file can give to a variable: not empty,
    with no whitespace around it, no [#] in front, no [=] and no null
    byte. *)
Definition env_name (k : pystr) : Prop :=
  k <> [] /\ strip k = k /\ startswith "#" k = false
  /\ Forall (fun c => c <> "="%char /\ c <> nul) k.

Definition not_quote (c : option ascii) : Prop :=
  c <> Some dquote /\ c <> Some "'"%char.

(** A value [v] written between the quotes [q]: no quotes, with no
    whitespace around the value, a pair of double quotes or a pair of
    single quotes. The value holds no newline and no null byte, and
    neither starts nor ends with a quote. *)
Definition env_value (q v : pystr) : Prop :=
  ((q = [] /\ strip v = v) \/ q = [dquote] \/ q = ["'"%char])
  /\ Forall (fun c => c <> nl /\ c <> nul) v
  /\ not_quote (head v) /\ not_quote (last v).

(** Worlds and rows for the examples. *)
Definition env_no_credential : env :=
  {| api_key := None;
     anthropic_installed := true;
     messages_create := fun _ _ _ => ApiResponse [];
     OUTPUT_CSV := lit "CleanProductData.csv" |}.

Definition env_request_fails : env :=
  {| api_key := Some (lit "sk-test");
     anthropic_installed := true;
     messages_create := fun _ _ _ => ApiError (lit "Connection error.");
     OUTPUT_CSV := lit "CleanProductData.csv" |}.

Definition env_malformed_response : env :=
  {| api_key := Some (lit "sk-test");
     anthropic_installed := true;
     messages_create := fun _ _ _ => ApiResponse [lit "Sorry, I cannot"];
     OUTPUT_CSV := lit "CleanProductData.csv" |}.

(** A [json.loads] for texts that are not JSON. *)
Definition json_rejects : pystr -> option json := fun _ => None.

Definition row_serum : gmap pystr pystr :=
  {[ lit "title" := lit "Glow Serum";
     lit "url" := lit "https://www.amazon.com/dp/B00TTD9BRC";
     lit "aboutProduct" := lit "For oily skin and large pores";
     lit "wholePriceBlockText" := lit "$12.50" ]}.

Definition ref_serum : gmap pystr ref_entry :=
  {[ lit "B00TTD9BRC" :=
       {| ref_description := lit "A light serum.";
          ref_labels := lit "Sensitive skin";
          ref_image_links := lit "https://example.com/serum.jpg";
          ref_price := lit "$12.50" |} ]}.

(** A reference file of one product. *)
Definition reference_csv_serum : list (list pystr) :=
  [ [lit "id"; lit "name"; lit "description"; lit "labels"; lit "image_links";
     lit "product_link"; lit "price"];
    [lit "1"; lit "Glow Serum"; lit "A light serum."; lit " Sensitive skin";
     lit "https://example.com/serum.jpg";
     lit "https://www.amazon.com/dp/B00TTD9BRC "; lit "$12.50"] ].

(** A [json.loads] that knows one text. *)
Definition json_knows (text : pystr) (data : json) : pystr -> option json :=
  fun t => if bool_decide (t = text) then Some data else None.

(** A world whose service answers with one text block. *)
Definition env_answers (text : pystr) : env :=
  {| api_key := Some (lit "sk-test");
     anthropic_installed := true;
     messages_create := fun _ _ _ => ApiResponse [text];
     OUTPUT_CSV := lit "CleanProductData.csv" |}.

(** A raw row without a URL. *)
Definition row_without_url : gmap pystr pystr :=
  {[ lit "title" := lit "Glow Serum";
     lit "aboutProduct" := lit "For oily skin" ]}.

(** The text of a response that is an object with labels only, and what
    [json.loads] makes of it. *)
Definition response_labels_only : pystr :=
  "{"%char :: quoted "labels" ++ lit ": " ++ quoted " Oily skin " ++ lit "}".

Definition data_labels_only : json :=
  JObject [(lit "labels", JString (lit " Oily skin "))].

(** Two rows of a reference file for the same identifier: an earlier one,
    and the one of [reference_csv_serum]. *)
Definition reference_row_earlier : list pystr :=
  [lit "7"; lit "Old Serum"; lit "An older text."; lit "Dry skin";
   lit "https://example.com/old.jpg";
   lit "https://www.amazon.com/dp/B00TTD9BRC"; lit "$9"].

Definition reference_row_serum : list pystr :=
  [lit "1"; lit "Glow Serum"; lit "A light serum."; lit " Sensitive skin";
   lit "https://example.com/serum.jpg";
   lit "https://www.amazon.com/dp/B00TTD9BRC "; lit "$12.50"].

(** * Properties *)

(** ** Identifier extraction *)

Lemma take_class_forall cls n s :
  Forall (fun c => cls c = true) (take_class cls n s).
Proof.
  revert s; induction n as [|n IH]; intros [|c s]; simpl; try constructor.
  destruct (cls c) eqn:E; constructor; auto.
Qed.

Lemma take_class_length cls n s : length (take_class cls n s) <= n.
Proof.
  revert s; induction n as [|n IH]; intros [|c s]; simpl; try lia.
  destruct (cls c); simpl; [specialize (IH s)|]; lia.
Qed.

Lemma take_class_split cls n s :
  exists post, s = take_class cls n s ++ post
    /\ (length (take_class cls n s) = n
        \/ forall c post', post = c :: post' -> cls c = false).
Proof.
  revert s; induction n as [|n IH]; intros s.
  - exists s. destruct s; simpl; auto.
  - destruct s as [|c s]; simpl.
    + exists []. split; [reflexivity|]. right. discriminate.
    + destruct (cls c) eqn:E.
      * destruct (IH s) as (post & Hs & Hn). exists post. simpl. split.
        -- f_equal. exact Hs.
        -- destruct Hn as [Hn|Hn]; [left; lia | right; exact Hn].
      * exists (c :: s). split; [reflexivity|]. right.
        intros c' post' [= <- _]. exact E.
Qed.

Lemma take_class_app cls n code post :
  Forall (fun c => cls c = true) code ->
  length code <= n ->
  (length code = n \/ forall c post', post = c :: post' -> cls c = false) ->
  take_class cls n (code ++ post) = code.
Proof.
  revert n; induction code as [|c code IH]; intros n Hall Hlen Hend.
  - simpl. destruct n as [|n]; [reflexivity|].
    destruct post as [|c post]; [reflexivity|]. simpl.
    destruct Hend as [Hend|Hend]; [discriminate|].
    rewrite (Hend c post eq_refl). reflexivity.
  - destruct n as [|n]; simpl in Hlen; [lia|]. simpl.
    inversion Hall as [|? ? Hc Hrest]; subst. rewrite Hc. f_equal.
    apply IH; [assumption | lia |].
    destruct Hend as [Hend|Hend]; [left; simpl in Hend; lia | right; exact Hend].
Qed.

Lemma asin_code_take code rest :
  asin_code code rest -> take_class is_asin_char 10 rest = code /\ 9 <= length code.
Proof.
  intros (post & -> & Hall & Hlen). split.
  - apply take_class_app; [assumption | | ]; destruct Hlen as [H|[H ?]]; auto; lia.
  - destruct Hlen as [H|[H ?]]; lia.
Qed.

Lemma take_asin_code rest :
  9 <= length (take_class is_asin_char 10 rest) ->
  asin_code (take_class is_asin_char 10 rest) rest.
Proof.
  intros H9. destruct (take_class_split is_asin_char 10 rest) as (post & Hs & Hn).
  exists post. split; [exact Hs|]. split; [apply take_class_forall|].
  pose proof (take_class_length is_asin_char 10 rest).
  destruct Hn as [Hn|Hn]; [left; exact Hn|].
  destruct (decide (length (take_class is_asin_char 10 rest) = 10)); [left; assumption|].
  right. split; [lia | exact Hn].
Qed.

Lemma startswith_app p s : startswith p (p ++ s) = true.
Proof.
  induction p as [|c p IH]; simpl; [reflexivity|].
  rewrite Ascii.eqb_refl. exact IH.
Qed.

Lemma startswith_inv p s : startswith p s = true -> s = p ++ drop (length p) s.
Proof.
  revert s; induction p as [|c p IH]; intros s H; simpl in *.
  - reflexivity.
  - destruct s as [|d s]; [discriminate|].
    apply andb_prop in H as [Hc Hp]. apply Ascii.eqb_eq in Hc. subst d.
    simpl. f_equal. apply IH, Hp.
Qed.

Lemma asin_at_occurs s code :
  asin_at s = Some code <-> asin_occurs s [] code.
Proof.
  unfold asin_at. split.
  - destruct (startswith _ s) eqn:Hp; [|discriminate].
    apply startswith_inv in Hp. cbv zeta.
    destruct (9 <=? _) eqn:E; [|discriminate]. intros [= <-].
    exists (drop 4 s). split; [exact Hp|].
    apply take_asin_code, Nat.leb_le, E.
  - intros (rest & -> & Hc). destruct (asin_code_take _ _ Hc) as [Ht H9].
    rewrite app_nil_l, startswith_app.
    change (drop 4 (lit "/dp/" ++ rest)) with rest. cbv zeta. rewrite Ht.
    destruct (9 <=? length code) eqn:E; [reflexivity|].
    apply Nat.leb_gt in E. lia.
Qed.

Lemma asin_occurs_cons c s pre code :
  asin_occurs s pre code -> asin_occurs (c :: s) (c :: pre) code.
Proof. intros (rest & -> & H). exists rest. split; [reflexivity | exact H]. Qed.

Lemma asin_occurs_uncons c s pre code :
  asin_occurs (c :: s) (c :: pre) code -> asin_occurs s pre code.
Proof.
  intros (rest & Hs & H). exists rest. split; [|exact H].
  simpl in Hs. injection Hs. auto.
Qed.

Lemma asin_occurs_head_inv c s pre code :
  asin_occurs (c :: s) pre code ->
  pre = [] \/ exists pre', pre = c :: pre' /\ asin_occurs s pre' code.
Proof.
  intros H. destruct pre as [|c' pre']; [left; reflexivity|]. right.
  assert (c' = c) as ->.
  { destruct H as (rest & Hs & _). simpl in Hs. injection Hs. auto. }
  exists pre'. split; [reflexivity|]. eapply asin_occurs_uncons, H.
Qed.

Lemma asin_occurs_nil pre code : ~ asin_occurs [] pre code.
Proof.
  intros (rest & Hs & _). destruct pre; discriminate Hs.
Qed.

Lemma asin_occurs_functional s pre code code' :
  asin_occurs s pre code -> asin_occurs s pre code' -> code = code'.
Proof.
  intros (rest & Hs & H) (rest' & Hs' & H'). rewrite Hs in Hs'.
  apply app_inv_head in Hs'. apply app_inv_head in Hs'. subst rest'.
  apply asin_code_take in H as [<- _]. apply asin_code_take in H' as [<- _].
  reflexivity.
Qed.

(** The search returns the identifier of the leftmost occurrence. *)
Lemma search_asin_some s code :
  search_asin s = Some code ->
  exists pre, asin_occurs s pre code
    /\ forall pre' code', asin_occurs s pre' code' -> length pre <= length pre'.
Proof.
  induction s as [|c s IH].
  - discriminate.
  - cbn [search_asin]. destruct (asin_at (c :: s)) eqn:E.
    + intros [= ->]. exists []. split; [apply asin_at_occurs, E|].
      intros; simpl; lia.
    + intros Hs. destruct (IH Hs) as (pre & Hocc & Hmin).
      exists (c :: pre). split; [apply asin_occurs_cons, Hocc|].
      intros pre' code' H'.
      destruct (asin_occurs_head_inv _ _ _ _ H') as [->|(p & -> & Hp)].
      * apply asin_at_occurs in H'. congruence.
      * simpl. specialize (Hmin _ _ Hp). lia.
Qed.

Lemma search_asin_none s :
  search_asin s = None -> forall pre code, ~ asin_occurs s pre code.
Proof.
  induction s as [|c s IH]; intros Hs pre code H.
  - exact (asin_occurs_nil _ _ H).
  - cbn [search_asin] in Hs. destruct (asin_at (c :: s)) eqn:E; [discriminate|].
    destruct (asin_occurs_head_inv _ _ _ _ H) as [->|(p & -> & Hp)].
    + apply asin_at_occurs in H. congruence.
    + exact (IH Hs _ _ Hp).
Qed.

Lemma asin_occurs_same_length s pre pre' code code' :
  asin_occurs s pre code -> asin_occurs s pre' code' ->
  length pre = length pre' -> pre = pre'.
Proof.
  intros (rest & Hs & _) (rest' & Hs' & _) Hlen. rewrite Hs in Hs'.
  apply app_inj_1 in Hs' as [? _]; assumption.
Qed.

(** C6, as amended: where [/dp/] is followed by nine or ten characters of
    [[A-Z0-9]] (ten whenever a tenth follows), [_extract_asin] returns those
    characters, taken at the leftmost such place of the URL; where no place
    of the URL is of that form, and for [None], it returns the empty
    string. *)
Theorem extract_asin_leftmost_code (url : option pystr) :
  let s := default [] url in
  (forall pre code,
      asin_occurs s pre code ->
      (forall pre' code', asin_occurs s pre' code' -> length pre <= length pre') ->
      _extract_asin url = code)
  /\ ((forall pre code, ~ asin_occurs s pre code) -> _extract_asin url = []).
Proof.
  intros s. unfold _extract_asin. fold s. split.
  - intros pre code Hocc Hmin. destruct (search_asin s) as [found|] eqn:E.
    + apply search_asin_some in E as (pre0 & Hocc0 & Hmin0).
      assert (pre0 = pre) as ->.
      { eapply asin_occurs_same_length; eauto.
        specialize (Hmin _ _ Hocc0). specialize (Hmin0 _ _ Hocc). lia. }
      eapply asin_occurs_functional; eauto.
    + destruct (search_asin_none _ E _ _ Hocc).
  - intros Hnone. destruct (search_asin s) as [found|] eqn:E; [|reflexivity].
    apply search_asin_some in E as (pre0 & Hocc0 & _).
    destruct (Hnone _ _ Hocc0).
Qed.

Lemma extract_asin_leftmost_code_witness :
  _extract_asin (Some (lit "https://www.amazon.com/x/dp/B00TTD9BRC?th=1"))
  = lit "B00TTD9BRC".
Proof.
  apply (proj1 (extract_asin_leftmost_code
                  (Some (lit "https://www.amazon.com/x/dp/B00TTD9BRC?th=1"))))
    with (pre := lit "https://www.amazon.com/x").
  - exists (lit "B00TTD9BRC?th=1"). split; [reflexivity|].
    exists (lit "?th=1"). split; [reflexivity|]. split.
    + repeat constructor.
    + left. reflexivity.
  - intros pre' code' (rest & Hs & _).
    destruct (le_lt_dec (length (lit "https://www.amazon.com/x")) (length pre'))
      as [Hle|Hlt]; [exact Hle|]. exfalso.
    simpl in Hs.
    do 24 (destruct pre' as [|? pre']; [discriminate Hs|];
           injection Hs as <- Hs).
    simpl in Hlt. lia.
Defined.

(** C6 as the spec words it fails: the identifier has no fixed length (nine
    characters are taken as readily as ten), and lower-case letters, though
    alphanumeric, are not part of one. *)
Lemma extract_asin_not_fixed_length :
  _extract_asin (Some (lit "https://www.amazon.com/dp/B00TTD9BR")) = lit "B00TTD9BR"
  /\ _extract_asin (Some (lit "https://www.amazon.com/dp/B00TTD9BRC")) = lit "B00TTD9BRC"
  /\ _extract_asin (Some (lit "https://www.amazon.com/dp/b00ttd9brc")) = [].
Proof. repeat split. Qed.

(** ** The reference sheet *)

Lemma load_reference_row_short idx ref row :
  length row < 7 -> load_reference_row idx ref row = Ok ref.
Proof.
  intros H. unfold load_reference_row.
  destruct (length row <? 7) eqn:E; [reflexivity|].
  apply Nat.ltb_ge in E. lia.
Qed.

Lemma load_reference_row_lacks_asin idx ref row :
  lacks_asin idx row = true -> load_reference_row idx ref row = Ok ref.
Proof.
  unfold lacks_asin, load_reference_row. intros H.
  apply andb_prop in H as [H7 Hlink]. apply Nat.leb_le in H7.
  destruct (length row <? 7) eqn:E; [reflexivity|].
  destruct (column idx row (lit "product_link")) as [link|e]; [|discriminate].
  cbn. rewrite Hlink. reflexivity.
Qed.

Lemma load_reference_rows_filter (keep : list pystr -> Prop)
    `{forall row, Decision (keep row)} idx rows :
  (forall ref row, ~ keep row -> load_reference_row idx ref row = Ok ref) ->
  forall ref,
    load_reference_rows idx ref rows = load_reference_rows idx ref (filter keep rows).
Proof.
  intros Hskip. induction rows as [|row rows IH]; intros ref; [reflexivity|].
  rewrite filter_cons. destruct (decide (keep row)) as [Hk|Hk].
  - cbn [load_reference_rows].
    destruct (load_reference_row idx ref row) as [ref'|e]; cbn; [apply IH | reflexivity].
  - cbn [load_reference_rows]. rewrite (Hskip ref row Hk). cbn. apply IH.
Qed.

(** C8: a reference row with fewer than seven columns is skipped without an
    error and leaves no entry: the reference file read with such rows gives
    what it gives with them removed (the same map, or the same exception
    where another row raises one). *)
Theorem load_reference_ignores_short_rows (header : list pystr)
    (rows : list (list pystr)) :
  load_reference_by_asin (header :: rows)
  = load_reference_by_asin (header :: filter (fun row => 7 <= length row) rows).
Proof.
  unfold load_reference_by_asin. apply load_reference_rows_filter.
  intros ref row Hshort. apply load_reference_row_short. lia.
Qed.

(** C9: a reference row with seven or more columns whose [product_link]
    holds no identifier is skipped as well: the reference file read with
    such rows gives what it gives with them removed. *)
Theorem load_reference_ignores_rows_without_asin (header : list pystr)
    (rows : list (list pystr)) :
  load_reference_by_asin (header :: rows)
  = load_reference_by_asin
      (header :: filter (fun row => lacks_asin (header_index 0 header ∅) row = false) rows).
Proof.
  unfold load_reference_by_asin. apply load_reference_rows_filter.
  intros ref row Hlacks. apply load_reference_row_lacks_asin.
  destruct (lacks_asin _ row); congruence.
Qed.

(** ** Lower case *)

Lemma lower_char_idem c : lower_char (lower_char c) = lower_char c.
Proof. destruct c as [[] [] [] [] [] [] [] []]; reflexivity. Qed.

Lemma lower_idem s : lower (lower s) = lower s.
Proof.
  unfold lower. rewrite map_map. apply map_ext. intros c. apply lower_char_idem.
Qed.

Lemma lower_app s t : lower (s ++ t) = lower s ++ lower t.
Proof. apply map_app. Qed.

Lemma lower_join_comma ls : lower (join "," ls) = join "," (map lower ls).
Proof.
  induction ls as [|l ls IH]; [reflexivity|].
  destruct ls as [|l' ls]; [reflexivity|].
  change (join (lit ",") (l :: l' :: ls)) with (l ++ lit "," ++ join (lit ",") (l' :: ls)).
  rewrite !lower_app, IH. reflexivity.
Qed.

(** ** The fallback labels *)

Lemma fallback_labels_drawn title raw_text :
  labels_drawn_from ALLOWED_LABELS (_fallback_labels title raw_text).
Proof.
  unfold _fallback_labels. cbv zeta.
  set (matched := filter _ ALLOWED_LABELS).
  assert (Forall (fun l => l ∈ ALLOWED_LABELS) matched) as Hsub.
  { apply Forall_forall. intros l Hl.
    apply list_elem_of_filter in Hl. tauto. }
  destruct matched as [|l ls] eqn:E.
  - exists []. split; [constructor | reflexivity].
  - exists (l :: ls). split; [exact Hsub | apply lower_join_comma].
Qed.

Lemma labels_drawn_lower allowed s :
  labels_drawn_from allowed s -> labels_drawn_from allowed (lower s).
Proof.
  intros (ls & Hls & ->). exists ls. split; [exact Hls|].
  rewrite lower_join_comma, map_map. f_equal. apply map_ext, lower_idem.
Qed.

(** ** Generation and its fallbacks *)

Section Generation_properties.

Variable json_loads : pystr -> option json.

Ltac run_io :=
  unfold mbind, io_bind, mret, io_ret, request, print, lift; cbv beta iota.

(** Without a credential the fallback is computed with no event at all. *)
Lemma generate_no_credential w title raw_text tr :
  nonempty (default [] (api_key w)) = false ->
  generate_description_and_labels json_loads w title raw_text tr
  = (tr, Ok (if nonempty raw_text then title ++ nl :: nl :: take 1500 raw_text
             else title,
             _fallback_labels title raw_text)).
Proof.
  intros H. unfold generate_description_and_labels. rewrite H. reflexivity.
Qed.

(** Every fallback returns the keyword labels. *)
Lemma generate_falls_back w title raw_text tr :
  falls_back json_loads w tr title raw_text ->
  exists tr' desc,
    generate_description_and_labels json_loads w title raw_text tr
    = (tr', Ok (desc, _fallback_labels title raw_text)).
Proof.
  intros Hfb. unfold generate_description_and_labels.
  destruct (nonempty (default [] (api_key w))) eqn:Hkey; cbn [negb]; [|eauto].
  destruct (anthropic_installed w) eqn:Hlib; cbn [negb]; [|eauto].
  run_io. cbv zeta.
  destruct (messages_create w tr system_prompt (user_prompt title raw_text))
    as [message|content] eqn:Hresp; [eauto|].
  destruct (json_loads (response_text content)) as [data|] eqn:Hjson; [|eauto].
  destruct Hfb as [H|[H|[[m H]|(c & H & Hc)]]]; try congruence.
Qed.

(** C7: a raw row whose identifier is a key of the reference map gives the
    record with the reference's description, image links and price as they
    are, its labels lowercased, and the name and product link of the raw
    row ([_get], so without surrounding whitespace). *)
Theorem process_row_reuses_reference (w : env)
    (ref_by_asin : gmap pystr ref_entry) (i total : nat)
    (row : gmap pystr pystr) (tr : list event) (r : ref_entry) :
  ref_by_asin !! _extract_asin (Some (_get row "url")) = Some r ->
  (process_row json_loads w ref_by_asin i total row tr).2
  = Ok {| name := _get row "title";
          description := ref_description r;
          labels := lower (ref_labels r);
          image_links := ref_image_links r;
          product_link := _get row "url";
          price := ref_price r |}.
Proof.
  intros Href. unfold process_row. run_io. cbv zeta. rewrite Href. reflexivity.
Qed.

(** C10: whichever way a record is assembled, its labels are lower case. *)
Theorem process_row_labels_lowercase (w : env)
    (ref_by_asin : gmap pystr ref_entry) (i total : nat)
    (row : gmap pystr pystr) (tr : list event) (rec : out_row) :
  (process_row json_loads w ref_by_asin i total row tr).2 = Ok rec ->
  lower (labels rec) = labels rec.
Proof.
  unfold process_row. run_io. cbv zeta.
  destruct (ref_by_asin !! _) as [r|].
  - intros [= <-]. apply lower_idem.
  - destruct (generate_description_and_labels _ _ _ _ _) as [tr' [[desc lbl]|e]];
      [|discriminate].
    destruct (normalize_price _) as [p|e]; [|discriminate].
    intros [= <-]. apply lower_idem.
Qed.

(** C2, as amended: on a fallback of the generation the labels of the record
    are allowed labels only, lowercased and joined by commas (none of them
    gives the empty string). *)
Theorem process_row_fallback_labels_allowed (w : env)
    (ref_by_asin : gmap pystr ref_entry) (i total : nat)
    (row : gmap pystr pystr) (tr : list event) (rec : out_row) :
  ref_by_asin !! _extract_asin (Some (_get row "url")) = None ->
  falls_back json_loads w
    (tr ++ [EvPrint (progress_line i total (_get row "title"))])
    (_get row "title") (raw_text_for_llm row) ->
  (process_row json_loads w ref_by_asin i total row tr).2 = Ok rec ->
  labels_drawn_from ALLOWED_LABELS (labels rec).
Proof.
  intros Href Hfb. unfold process_row. run_io. cbv zeta. rewrite Href.
  destruct (generate_falls_back _ _ _ _ Hfb) as (tr' & desc & ->).
  destruct (normalize_price _) as [p|e]; [|discriminate].
  intros [= <-]. apply labels_drawn_lower, fallback_labels_drawn.
Qed.

(** C5, as amended: without a credential the generation adds no event (no
    request is made), and its description is empty only when the title and
    the raw text both are. *)
Theorem generate_without_credential (w : env) (title raw_text : pystr)
    (tr : list event) :
  nonempty (default [] (api_key w)) = false ->
  exists desc,
    generate_description_and_labels json_loads w title raw_text tr
    = (tr, Ok (desc, _fallback_labels title raw_text))
    /\ (desc = [] <-> title = [] /\ raw_text = []).
Proof.
  intros Hkey. rewrite (generate_no_credential _ _ _ _ Hkey).
  eexists. split; [reflexivity|].
  destruct raw_text as [|c raw_text]; cbn [nonempty].
  - tauto.
  - split; [|intros [_ [=]]]. intros H. apply app_eq_nil in H as [_ [=]].
Qed.

(** A failed request and a response that is not JSON give the same result. *)
Lemma generate_failure_as_malformed (w w' : env) (title raw_text : pystr)
    (tr tr' : list event) (message : pystr) (content : list pystr) :
  nonempty (default [] (api_key w)) = true -> anthropic_installed w = true ->
  nonempty (default [] (api_key w')) = true -> anthropic_installed w' = true ->
  messages_create w tr system_prompt (user_prompt title raw_text)
    = ApiError message ->
  messages_create w' tr' system_prompt (user_prompt title raw_text)
    = ApiResponse content ->
  json_loads (response_text content) = None ->
  (generate_description_and_labels json_loads w title raw_text tr).2
  = (generate_description_and_labels json_loads w' title raw_text tr').2.
Proof.
  intros Hk Hl Hk' Hl' Hfail Hresp Hjson. unfold generate_description_and_labels.
  rewrite Hk, Hl, Hk', Hl'. cbn [negb]. run_io. cbv zeta.
  rewrite Hfail, Hresp, Hjson. reflexivity.
Qed.

(** With a raw text that is not empty, a failed request gives what the
    absence of a credential gives. *)
Lemma generate_failure_as_no_credential (w w' : env) (title raw_text : pystr)
    (tr tr' : list event) (message : pystr) :
  nonempty (default [] (api_key w)) = true -> anthropic_installed w = true ->
  messages_create w tr system_prompt (user_prompt title raw_text)
    = ApiError message ->
  nonempty (default [] (api_key w')) = false ->
  raw_text <> [] ->
  (generate_description_and_labels json_loads w title raw_text tr).2
  = (generate_description_and_labels json_loads w' title raw_text tr').2.
Proof.
  intros Hk Hl Hfail Hk' Hraw. rewrite (generate_no_credential w' _ _ _ Hk').
  unfold generate_description_and_labels.
  rewrite Hk, Hl. cbn [negb]. run_io. cbv zeta. rewrite Hfail.
  destruct raw_text as [|c raw_text]; [congruence|]. reflexivity.
Qed.

End Generation_properties.

Lemma process_row_reuses_reference_witness :
  (process_row json_rejects env_no_credential ref_serum 1 1 row_serum []).2
  = Ok {| name := _get row_serum "title";
          description := lit "A light serum.";
          labels := lower (lit "Sensitive skin");
          image_links := lit "https://example.com/serum.jpg";
          product_link := _get row_serum "url";
          price := lit "$12.50" |}.
Proof.
  apply (process_row_reuses_reference json_rejects env_no_credential ref_serum
           1 1 row_serum []
           {| ref_description := lit "A light serum.";
              ref_labels := lit "Sensitive skin";
              ref_image_links := lit "https://example.com/serum.jpg";
              ref_price := lit "$12.50" |}).
  vm_compute. reflexivity.
Defined.

Lemma process_row_labels_lowercase_witness :
  lower (lit "large pores,oily skin") = lit "large pores,oily skin".
Proof.
  apply (process_row_labels_lowercase json_rejects env_request_fails ∅ 1 1
           row_serum []
           {| name := lit "Glow Serum";
              description := lit "Glow Serum" ++ nl :: nl
                             :: lit "For oily skin and large pores";
              labels := lit "large pores,oily skin";
              image_links :=
                lit "https://images-na.ssl-images-amazon.com/images/P/B00TTD9BRC.01.jpg";
              product_link := lit "https://www.amazon.com/dp/B00TTD9BRC";
              price := lit "12.50" |}).
  vm_compute. reflexivity.
Defined.

Lemma process_row_fallback_labels_allowed_witness :
  labels_drawn_from ALLOWED_LABELS (lit "large pores,oily skin").
Proof.
  apply (process_row_fallback_labels_allowed json_rejects
           env_malformed_response ∅ 1 1 row_serum []
           {| name := lit "Glow Serum";
              description := lit "Glow Serum" ++ nl :: nl
                             :: lit "For oily skin and large pores";
              labels := lit "large pores,oily skin";
              image_links :=
                lit "https://images-na.ssl-images-amazon.com/images/P/B00TTD9BRC.01.jpg";
              product_link := lit "https://www.amazon.com/dp/B00TTD9BRC";
              price := lit "12.50" |}).
  - vm_compute. reflexivity.
  - right. right. right. exists [lit "Sorry, I cannot"]. split; reflexivity.
  - vm_compute. reflexivity.
Defined.

(** C2 as the spec words it fails on the reference path: the labels of the
    reference sheet are copied, lowercased, whatever they are. *)
Lemma process_row_reference_labels_unchecked :
  exists rec,
    (process_row json_rejects env_no_credential ref_serum 1 1 row_serum []).2
    = Ok rec
    /\ labels rec = lit "sensitive skin"
    /\ ~ labels_drawn_from ALLOWED_LABELS (labels rec).
Proof.
  eexists. split; [vm_compute; reflexivity|]. split; [reflexivity|].
  cbn [labels]. intros (ls & Hall & Heq).
  destruct ls as [|l ls]; [discriminate Heq|].
  inversion Hall as [|? ? Hl _]; subst. unfold ALLOWED_LABELS in Hl.
  destruct ls as [|l' ls];
    repeat (apply elem_of_cons in Hl as [->|Hl]; [discriminate Heq|]);
    apply elem_of_nil in Hl; exact Hl.
Qed.

Lemma generate_without_credential_witness :
  exists desc,
    generate_description_and_labels json_rejects env_no_credential
      (lit "Glow Serum") (lit "For oily skin") []
    = ([], Ok (desc, _fallback_labels (lit "Glow Serum") (lit "For oily skin")))
    /\ (desc = [] <-> lit "Glow Serum" = [] /\ lit "For oily skin" = []).
Proof.
  apply (generate_without_credential json_rejects env_no_credential
           (lit "Glow Serum") (lit "For oily skin") []).
  reflexivity.
Defined.

(** C5 as the spec words it fails: with no credential, an empty title and an
    empty raw text give an empty description. *)
Lemma generate_without_credential_empty_description :
  generate_description_and_labels json_rejects env_no_credential [] [] []
  = ([], Ok ([], [])).
Proof. reflexivity. Qed.

(** C1 fails on an empty raw text: without a credential the description is
    the title alone, after a failed request or a response that is not JSON it
    is the title and two newlines. A row with no title and no text reaches
    [generate_description_and_labels] with both arguments empty. *)
Theorem fallback_descriptions_differ_on_empty_raw_text :
  raw_text_for_llm ∅ = [] /\ _get ∅ "title" = []
  /\ (generate_description_and_labels json_rejects env_no_credential [] [] []).2
     = Ok ([], [])
  /\ (generate_description_and_labels json_rejects env_request_fails [] [] []).2
     = Ok ([nl; nl], [])
  /\ (generate_description_and_labels json_rejects env_malformed_response [] [] []).2
     = Ok ([nl; nl], []).
Proof. repeat split. Qed.

(** ** Rounding *)

Section Rounding.

Local Open Scope Z_scope.

Lemma round_half_even_spec a b :
  0 < b ->
  2 * Z.abs (round_half_even a b * b - a) <= b
  /\ (2 * Z.abs (round_half_even a b * b - a) = b ->
      Z.even (round_half_even a b) = true).
Proof.
  intros Hb. unfold round_half_even.
  pose proof (Z.div_mod a b ltac:(lia)) as Hdm.
  pose proof (Z.mod_pos_bound a b Hb) as Hr.
  set (q := a / b) in *. set (r := a mod b) in *.
  destruct (Z.compare_spec (2 * r) b) as [He|Hl|Hg].
  - destruct (Z.even q) eqn:Hq.
    + split; [lia | auto].
    + split; [lia|]. intros _. rewrite Z.even_add, Hq. reflexivity.
  - split; lia.
  - split; lia.
Qed.

Lemma round_half_even_unique a b k :
  0 < b ->
  2 * Z.abs (k * b - a) <= b ->
  (2 * Z.abs (k * b - a) = b -> Z.even k = true) ->
  round_half_even a b = k.
Proof.
  intros Hb Hk Hkeven.
  destruct (round_half_even_spec a b Hb) as [Hm Hmeven].
  set (m := round_half_even a b) in *.
  destruct (Z.eq_dec m k) as [|Hne]; [assumption|exfalso].
  assert (m = k + 1 \/ m = k - 1) as Hadj by nia.
  assert (2 * Z.abs (m * b - a) = b /\ 2 * Z.abs (k * b - a) = b) as [H1 H2] by nia.
  specialize (Hmeven H1). specialize (Hkeven H2).
  destruct Hadj as [-> | ->].
  - rewrite Z.even_add, Hkeven in Hmeven. discriminate.
  - rewrite Z.even_sub, Hkeven in Hmeven. discriminate.
Qed.

Lemma round_half_even_nearest a b k :
  0 < b ->
  Z.abs (round_half_even a b * b - a) <= Z.abs (k * b - a).
Proof.
  intros Hb. destruct (round_half_even_spec a b Hb) as [Hm _].
  set (m := round_half_even a b) in *.
  destruct (Z.eq_dec m k) as [->|Hne]; [lia|]. nia.
Qed.

Lemma round_half_even_exact k b : 0 < b -> round_half_even (k * b) b = k.
Proof.
  intros Hb. apply round_half_even_unique; [assumption | lia | lia].
Qed.

Lemma round_half_even_nonneg a b : 0 <= a -> 0 < b -> 0 <= round_half_even a b.
Proof.
  intros Ha Hb. destruct (round_half_even_spec a b Hb) as [Hm _]. nia.
Qed.

End Rounding.

(** ** The nearest binary64 *)

Section Nearest_float.

Local Open Scope Z_scope.

(** The exponent chosen for [x / b] leaves at most 53 significant bits, and
    exactly 53 unless it is the least one. *)
Lemma log2_ratio_binade x b :
  0 < x -> 0 < b ->
  let t := Z.max (log2_ratio x b - 52) 0 in
  x < 2 ^ 53 * 2 ^ t * b /\ (t = 0 \/ 2 ^ 52 * 2 ^ t * b <= x).
Proof.
  intros Hx Hb.
  destruct (Z.log2_spec x Hx) as [HxL HxU].
  destruct (Z.log2_spec b Hb) as [HbL HbU].
  pose proof (Z.log2_nonneg x) as HLx. pose proof (Z.log2_nonneg b) as HLb.
  unfold log2_ratio.
  set (L := Z.log2 x) in *. set (Lb := Z.log2 b) in *.
  destruct (Z_lt_le_dec (L - Lb) 53) as [Hsmall|Hbig].
  - assert (Z.max ((if b * 2 ^ (L - Lb) <=? x then L - Lb else L - Lb - 1) - 52) 0 = 0)
      as -> by (destruct (_ <=? _); lia).
    cbv zeta. split; [|left; reflexivity].
    rewrite Z.pow_0_r, Z.mul_1_r.
    assert (2 ^ Z.succ L <= 2 ^ (53 + Lb)) as Hle
      by (apply Z.pow_le_mono_r; lia).
    rewrite Z.pow_add_r in Hle by lia. nia.
  - assert (2 ^ Z.succ L = 2 ^ (L - Lb - 52) * 2 ^ 53 * 2 ^ Lb) as HL1.
    { rewrite <- !Z.pow_add_r by lia. f_equal. lia. }
    assert (2 ^ (L - Lb) = 2 ^ 52 * 2 ^ (L - Lb - 52)) as Hl.
    { rewrite <- Z.pow_add_r by lia. f_equal. lia. }
    assert (0 < 2 ^ (L - Lb - 52)) as Hp by (apply Z.pow_pos_nonneg; lia).
    assert (0 < 2 ^ Lb) as HpLb by (apply Z.pow_pos_nonneg; lia).
    destruct (Z.leb_spec (b * 2 ^ (L - Lb)) x) as [Habove|Hbelow].
    + rewrite Z.max_l by lia. cbv zeta. split; [nia | right; nia].
    + destruct (Z.eq_dec (L - Lb) 53) as [E53|N53].
      * rewrite Z.max_r by lia. cbv zeta. rewrite Z.pow_0_r.
        rewrite E53 in Hbelow. split; [lia | left; reflexivity].
      * rewrite Z.max_l by lia. cbv zeta.
        assert (2 ^ (L - Lb - 52) = 2 * 2 ^ (L - Lb - 1 - 52)) as Hhalf.
        { rewrite <- Z.pow_succ_r by lia. f_equal. lia. }
        assert (0 < 2 ^ (L - Lb - 1 - 52)) as Hp' by (apply Z.pow_pos_nonneg; lia).
        assert (2 ^ L = 2 ^ (L - Lb - 1 - 52) * 2 ^ 52 * (2 * 2 ^ Lb)) as HL0.
        { rewrite <- Z.pow_succ_r, <- !Z.pow_add_r by lia. f_equal. lia. }
        rewrite Z.pow_succ_r in HbU by lia.
        split; [nia | right; nia].
Qed.

Lemma float_of_ratio_finite a b m e :
  0 < a -> 0 < b -> float_of_ratio a b = Finite m e ->
  let t := e + 1074 in
  0 <= t <= 2045
  /\ m = round_half_even (a * 2 ^ 1074) (b * 2 ^ t)
  /\ a * 2 ^ 1074 < 2 ^ 53 * 2 ^ t * b
  /\ (t = 0 \/ 2 ^ 52 * 2 ^ t * b <= a * 2 ^ 1074)
  /\ 0 <= m <= 2 ^ 53
  /\ (t = 2045 -> m < 2 ^ 53).
Proof.
  intros Ha Hb. unfold float_of_ratio.
  destruct (Z.eqb_spec a 0) as [|_]; [lia|]. cbv zeta.
  assert (0 < 2 ^ 1074) as HK by (apply Z.pow_pos_nonneg; lia).
  assert (0 < a * 2 ^ 1074) as Hx by lia.
  pose proof (log2_ratio_binade _ _ Hx Hb) as Hbin. cbv zeta in Hbin.
  set (t := Z.max (log2_ratio (a * 2 ^ 1074) b - 52) 0) in *.
  assert (0 <= t) as Ht by (unfold t; lia).
  assert (0 < 2 ^ t) as Hu by (apply Z.pow_pos_nonneg; lia).
  assert (0 < b * 2 ^ t) as Hbu by lia.
  destruct (round_half_even_spec (a * 2 ^ 1074) (b * 2 ^ t) Hbu) as [Hnear _].
  set (r := round_half_even (a * 2 ^ 1074) (b * 2 ^ t)) in *.
  assert (0 <= r <= 2 ^ 53) as Hr.
  { destruct Hbin as [Hlt _]. assert (0 < 2 ^ 53) by (apply Z.pow_pos_nonneg; lia).
    split; nia. }
  destruct (Z.ltb_spec 2045 t) as [|Hle]; [discriminate|]. cbn [orb].
  destruct (Z.eqb_spec t 2045) as [E|N]; cbn [andb].
  - destruct (Z.eqb_spec r (2 ^ 53)) as [|Nr]; [discriminate|].
    intros [= <- <-]. replace (t - 1074 + 1074) with t by lia.
    repeat split; try tauto; try lia.
  - intros [= <- <-]. replace (t - 1074 + 1074) with t by lia.
    repeat split; try tauto; try lia.
Qed.

Lemma float_of_ratio_infinite a b :
  0 < a -> 0 < b -> float_of_ratio a b = Infinity ->
  (2 ^ 1024 - 2 ^ 970) * b <= a.
Proof.
  intros Ha Hb. unfold float_of_ratio.
  destruct (Z.eqb_spec a 0) as [|_]; [lia|]. cbv zeta.
  assert (0 < 2 ^ 1074) as HK by (apply Z.pow_pos_nonneg; lia).
  assert (0 < a * 2 ^ 1074) as Hx by lia.
  pose proof (log2_ratio_binade _ _ Hx Hb) as Hbin. cbv zeta in Hbin.
  set (t := Z.max (log2_ratio (a * 2 ^ 1074) b - 52) 0) in *.
  assert (0 <= t) as Ht by (unfold t; lia).
  assert (0 < 2 ^ t) as Hu by (apply Z.pow_pos_nonneg; lia).
  assert (0 < b * 2 ^ t) as Hbu by lia.
  destruct (round_half_even_spec (a * 2 ^ 1074) (b * 2 ^ t) Hbu) as [Hnear _].
  set (r := round_half_even (a * 2 ^ 1074) (b * 2 ^ t)) in *.
  assert (2 ^ 1024 = 2 ^ 54 * 2 ^ 970) as E1024 by (rewrite <- Z.pow_add_r by lia; reflexivity).
  assert (0 < 2 ^ 970) as H970 by (apply Z.pow_pos_nonneg; lia).
  assert (2 ^ 2045 = 2 * 2 ^ 970 * 2 ^ 1074) as E2045
    by (rewrite <- Z.pow_succ_r, <- Z.pow_add_r by lia; reflexivity).
  destruct (Z.ltb_spec 2045 t) as [Hgt|Hle]; cbn [orb].
  - intros _. destruct Hbin as [_ [?|Hlow]]; [lia|].
    assert (2 ^ t = 2 ^ (t - 2045) * 2 ^ 2045) as Et
      by (rewrite <- Z.pow_add_r by lia; f_equal; lia).
    assert (2 <= 2 ^ (t - 2045)).
    { change 2 with (2 ^ 1) at 1. apply Z.pow_le_mono_r; lia. }
    assert (2 ^ 52 = 4503599627370496) as E52 by reflexivity.
    assert (2 ^ 54 = 18014398509481984) as E54 by reflexivity.
    rewrite Et, E2045, E52 in Hlow. rewrite E1024, E54.
    set (K := 2 ^ 1074) in *. set (P := 2 ^ 970) in *.
    set (Q := 2 ^ (t - 2045)) in *. nia.
  - destruct (Z.eqb_spec t 2045) as [E|N]; cbn [andb]; [|discriminate].
    destruct (Z.eqb_spec r (2 ^ 53)) as [Er|Nr]; [|discriminate].
    intros _. rewrite Er, E, E2045 in Hnear.
    assert (2 ^ 53 = 9007199254740992) as E53 by reflexivity.
    assert (2 ^ 54 = 18014398509481984) as E54 by reflexivity.
    rewrite E53 in Hnear. rewrite E1024, E54.
    set (K := 2 ^ 1074) in *. set (P := 2 ^ 970) in *. nia.
Qed.

Lemma pow2_pos t : 0 <= t -> 0 < 2 ^ t.
Proof. intros. apply Z.pow_pos_nonneg; lia. Qed.

Lemma pow2_split s t : 0 <= t <= s -> 2 ^ s = 2 ^ (s - t) * 2 ^ t.
Proof. intros. rewrite <- Z.pow_add_r by lia. f_equal. lia. Qed.

Lemma pow2_ge_2 t : 0 < t -> 2 <= 2 ^ t.
Proof.
  intros. change 2 with (2 ^ 1) at 1. apply Z.pow_le_mono_r; lia.
Qed.

(** A value with at most 53 significant bits, below [2^1024], is its own
    nearest binary64. *)
Lemma float_of_ratio_exact n k s :
  0 < n -> 0 <= k <= 2 ^ 53 -> 0 <= s <= 2045 -> (s = 2045 -> k < 2 ^ 53) ->
  n * 2 ^ 1074 = k * 2 ^ s ->
  exists m e, float_of_ratio n 1 = Finite m e
    /\ 0 <= e + 1074 /\ m * 2 ^ (e + 1074) = n * 2 ^ 1074.
Proof.
  intros Hn Hk Hs Hs' Hnk.
  pose proof (pow2_pos 1074 ltac:(lia)) as HK.
  pose proof (pow2_pos s ltac:(lia)) as Hps.
  assert (2 ^ 53 = 9007199254740992) as E53 by reflexivity.
  assert (2 ^ 52 = 4503599627370496) as E52 by reflexivity.
  destruct (float_of_ratio n 1) as [m e|] eqn:E.
  - exists m, e. split; [reflexivity|].
    destruct (float_of_ratio_finite n 1 m e Hn Z.lt_0_1 E)
      as (Ht & Hm & Hlt & Hlow & _). cbv zeta in *.
    set (t := e + 1074) in *. split; [lia|].
    pose proof (pow2_pos t ltac:(lia)) as Hpt.
    assert (exists j, n * 2 ^ 1074 = j * (1 * 2 ^ t)) as [j Hj].
    { destruct (Z_le_gt_dec t s) as [Hle|Hgt].
      - exists (k * 2 ^ (s - t)). rewrite Hnk, (pow2_split s t) by lia. ring.
      - exists (2 ^ 52). destruct Hlow as [?|Hlow]; [lia|].
        rewrite (pow2_split t s) in * by lia.
        pose proof (pow2_ge_2 (t - s) ltac:(lia)).
        rewrite Hnk, E52, E53 in *.
        set (q := 2 ^ (t - s)) in *. set (u := 2 ^ s) in *.
        assert (k = 9007199254740992 /\ q = 2) as [-> ->] by nia. ring. }
    rewrite Hm, Hj, round_half_even_exact by lia. lia.
  - exfalso. apply float_of_ratio_infinite in E; [|lia|lia].
    assert (2 ^ 1024 = 2 ^ 54 * 2 ^ 970) as E1024
      by (rewrite <- Z.pow_add_r by lia; reflexivity).
    assert (2 ^ 54 = 18014398509481984) as E54 by reflexivity.
    pose proof (pow2_pos 970 ltac:(lia)) as H970.
    destruct (Z.eq_dec s 2045) as [->|Hne].
    + assert (2 ^ 2045 = 2 * 2 ^ 970 * 2 ^ 1074) as E2045
        by (rewrite <- Z.pow_succ_r, <- Z.pow_add_r by lia; reflexivity).
      specialize (Hs' eq_refl). rewrite E2045 in Hnk.
      rewrite E1024, E54 in E. rewrite E53 in *.
      set (K := 2 ^ 1074) in *. set (P := 2 ^ 970) in *. nia.
    + assert (2 ^ 2044 = 2 ^ 970 * 2 ^ 1074) as E2044
        by (rewrite <- Z.pow_add_r by lia; reflexivity).
      assert (2 ^ s <= 2 ^ 2044) as Hsle by (apply Z.pow_le_mono_r; lia).
      rewrite E2044 in Hsle. rewrite E1024, E54 in E. rewrite E53 in *.
      set (K := 2 ^ 1074) in *. set (P := 2 ^ 970) in *.
      set (u := 2 ^ s) in *. nia.
Qed.

(** The nearest binary64 of a whole number is whole. *)
Lemma float_of_ratio_whole n b m e :
  0 < n -> 0 < b -> float_of_ratio (n * b) b = Finite m e -> e < 0 ->
  m = n * 2 ^ (- e).
Proof.
  intros Hn Hb E He.
  assert (0 < n * b) as Hnb by nia.
  destruct (float_of_ratio_finite _ _ _ _ Hnb Hb E) as (Ht & Hm & _).
  cbv zeta in *. set (t := e + 1074) in *.
  pose proof (pow2_pos t ltac:(lia)).
  rewrite Hm, (pow2_split 1074 t) by lia.
  replace (1074 - t) with (- e) by lia.
  replace (n * b * (2 ^ (- e) * 2 ^ t)) with (n * 2 ^ (- e) * (b * 2 ^ t)) by ring.
  apply round_half_even_exact. lia.
Qed.

Lemma abs_scale x u : 0 < u -> Z.abs (x * u) = Z.abs x * u.
Proof. intros. rewrite Z.abs_mul, (Z.abs_eq u) by lia. reflexivity. Qed.

Lemma cancel_le x y u : 0 < u -> x * u <= y * u -> x <= y.
Proof. intros. nia. Qed.

Lemma cancel_eq x y u : 0 < u -> x * u = y * u -> x = y.
Proof. intros. nia. Qed.

(** The distance between [100 * m * 2^e] and [h], on the scale of
    [2^-1074]. *)
Lemma distance_scaled m h e :
  -1074 <= e < 0 ->
  Z.abs (100 * (m * 2 ^ (e + 1074)) - h * 2 ^ 1074)
  = Z.abs (h * 2 ^ (- e) - 100 * m) * 2 ^ (e + 1074).
Proof.
  intros He. rewrite (pow2_split 1074 (e + 1074)) by lia.
  replace (1074 - (e + 1074)) with (- e) by lia.
  replace (100 * (m * 2 ^ (e + 1074)) - h * (2 ^ (- e) * 2 ^ (e + 1074)))
    with (- (h * 2 ^ (- e) - 100 * m) * 2 ^ (e + 1074)) by ring.
  rewrite abs_scale, Z.abs_opp by (apply pow2_pos; lia). reflexivity.
Qed.

(** A binary64 [m * 2^e] below [2^53] that is printed with two decimals
    other than [00], as [h / 100], is read back as a binary64 that is not
    whole and is printed the same. *)
Lemma format_reparse m e h :
  0 <= m <= 2 ^ 53 -> -1074 <= e < 0 ->
  h = round_half_even (100 * m) (2 ^ (- e)) ->
  h mod 100 <> 0 ->
  exists m' e', float_of_ratio h 100 = Finite m' e'
    /\ -1074 <= e' < 0
    /\ m' mod 2 ^ (- e') <> 0
    /\ round_half_even (100 * m') (2 ^ (- e')) = h.
Proof.
  intros Hm He Hh Hmod.
  assert (2 ^ 53 = 9007199254740992) as E53 by reflexivity.
  assert (2 ^ 52 = 4503599627370496) as E52 by reflexivity.
  pose proof (pow2_pos (- e) ltac:(lia)) as Hp.
  pose proof (pow2_ge_2 (- e) ltac:(lia)) as Hp2.
  pose proof (pow2_pos (e + 1074) ltac:(lia)) as Hu.
  pose proof (pow2_pos 1074 ltac:(lia)) as HK.
  pose proof (pow2_split 1074 (e + 1074) ltac:(lia)) as EK.
  replace (1074 - (e + 1074)) with (- e) in EK by lia.
  destruct (round_half_even_spec (100 * m) (2 ^ (- e)) Hp) as [Hnear Htie].
  rewrite <- Hh in Hnear, Htie.
  assert (0 < h) as Hhpos.
  { assert (0 <= h) by (rewrite Hh; apply round_half_even_nonneg; lia).
    destruct (Z.eq_dec h 0) as [->|]; [|lia]. rewrite Z.mod_0_l in Hmod; lia. }
  pose proof (distance_scaled m h e He) as Escale.
  (* the distance of the first rounding, on the scale of 2^-1074 *)
  assert (2 * Z.abs (100 * (m * 2 ^ (e + 1074)) - h * 2 ^ 1074) <= 2 ^ 1074) as Hd.
  { rewrite Escale, EK. clear - Hnear Hu. nia. }
  destruct (float_of_ratio h 100) as [m' e'|] eqn:E.
  2:{ exfalso. apply float_of_ratio_infinite in E; [|lia|lia].
      assert (2 ^ 1024 = 2 ^ 54 * 2 ^ 970) as E1024
        by (rewrite <- Z.pow_add_r by lia; reflexivity).
      assert (2 ^ 54 = 18014398509481984) as E54 by reflexivity.
      pose proof (pow2_pos 970 ltac:(lia)) as H970.
      rewrite E1024, E54 in E. rewrite E53 in Hm.
      clear - E Hm Hp2 Hnear H970. nia. }
  exists m', e'. split; [reflexivity|].
  assert (0 < 100) as H100 by lia.
  destruct (float_of_ratio_finite _ _ _ _ Hhpos H100 E)
    as (Ht' & Hm' & Hlt' & Hlow' & Hm'r & _). cbv zeta in *.
  pose proof (pow2_pos (e' + 1074) ltac:(lia)) as Hu'.
  assert (0 < 100 * 2 ^ (e' + 1074)) as Hbu' by lia.
  (* the second rounding is at least as near as the first value *)
  assert (Z.abs (100 * (m' * 2 ^ (e' + 1074)) - h * 2 ^ 1074)
          <= Z.abs (100 * (m * 2 ^ (e + 1074)) - h * 2 ^ 1074)) as Hnearer.
  { destruct (Z_le_gt_dec (e' + 1074) (e + 1074)) as [Hle|Hgt].
    - pose proof (round_half_even_nearest (h * 2 ^ 1074) (100 * 2 ^ (e' + 1074))
                    (m * 2 ^ (e + 1074 - (e' + 1074))) Hbu') as Hn.
      rewrite <- Hm' in Hn. rewrite (pow2_split (e + 1074) (e' + 1074)) by lia.
      replace (100 * (m' * 2 ^ (e' + 1074)) - h * 2 ^ 1074)
        with (m' * (100 * 2 ^ (e' + 1074)) - h * 2 ^ 1074) by ring.
      replace (100 * (m * (2 ^ (e + 1074 - (e' + 1074)) * 2 ^ (e' + 1074)))
               - h * 2 ^ 1074)
        with (m * 2 ^ (e + 1074 - (e' + 1074)) * (100 * 2 ^ (e' + 1074))
              - h * 2 ^ 1074) by ring.
      exact Hn.
    - pose proof (round_half_even_nearest (h * 2 ^ 1074) (100 * 2 ^ (e' + 1074))
                    (2 ^ 52) Hbu') as Hn.
      rewrite <- Hm' in Hn. destruct Hlow' as [?|Hlow']; [lia|].
      pose proof (pow2_ge_2 (e' + 1074 - (e + 1074)) ltac:(lia)) as Hq.
      rewrite (pow2_split (e' + 1074) (e + 1074)) in Hn, Hlow' |- * by lia.
      rewrite E52 in Hn, Hlow'. rewrite E53 in Hm.
      clear - Hn Hlow' Hq Hm Hu.
      set (q := 2 ^ (e' + 1074 - (e + 1074))) in *.
      set (u := 2 ^ (e + 1074)) in *. set (x := h * 2 ^ 1074) in *.
      assert (100 * (m * u) <= 100 * 4503599627370496 * (q * u)) by nia.
      replace (4503599627370496 * (100 * (q * u)))
        with (100 * 4503599627370496 * (q * u)) in Hn by ring.
      replace (100 * (m' * (q * u))) with (m' * (100 * (q * u))) by ring.
      replace (4503599627370496 * q * u * 100)
        with (100 * 4503599627370496 * (q * u)) in Hlow' by ring.
      lia. }
  assert (2 * Z.abs (100 * (m' * 2 ^ (e' + 1074)) - h * 2 ^ 1074) <= 2 ^ 1074)
    as Hd' by lia.
  (* were the second value whole, h would be a multiple of 100 *)
  assert (forall j, m' * 2 ^ (e' + 1074) = j * 2 ^ 1074 -> False) as Hnot_whole.
  { intros j Hj. rewrite Hj in Hd'.
    replace (100 * (j * 2 ^ 1074) - h * 2 ^ 1074)
      with ((100 * j - h) * 2 ^ 1074) in Hd' by ring.
    rewrite abs_scale in Hd' by lia.
    assert (2 * Z.abs (100 * j - h) <= 1) as Hj1.
    { apply (cancel_le _ _ (2 ^ 1074)); lia. }
    assert (h = 100 * j) as -> by lia.
    apply Hmod. rewrite Z.mul_comm. apply Z.mod_mul. lia. }
  assert (e' < 0) as He'.
  { destruct (Z_lt_le_dec e' 0) as [|Hge]; [assumption|exfalso].
    apply (Hnot_whole (m' * 2 ^ e')).
    rewrite (pow2_split (e' + 1074) 1074) by lia.
    replace (e' + 1074 - 1074) with e' by lia. ring. }
  split; [lia|].
  pose proof (pow2_pos (- e') ltac:(lia)) as Hp'.
  pose proof (pow2_split 1074 (e' + 1074) ltac:(lia)) as EK'.
  replace (1074 - (e' + 1074)) with (- e') in EK' by lia.
  pose proof (distance_scaled m' h e' ltac:(lia)) as Escale'.
  split.
  - intros Hz. apply Z.mod_divide in Hz; [|lia]. destruct Hz as [j Hj].
    apply (Hnot_whole j). rewrite Hj, EK'. ring.
  - apply round_half_even_unique; [assumption | |].
    + apply (cancel_le _ _ (2 ^ (e' + 1074))); [assumption|].
      rewrite <- EK'. rewrite Escale' in Hd'. lia.
    + intros Htie'. apply Htie.
      apply (cancel_eq _ _ (2 ^ (e + 1074))); [assumption|].
      rewrite <- EK. rewrite Escale in Hd, Hnearer. rewrite Escale' in Hnearer.
      assert (2 * Z.abs (h * 2 ^ (- e') - 100 * m') * 2 ^ (e' + 1074) = 2 ^ 1074)
        as Hfull by (rewrite Htie'; symmetry; exact EK').
      lia.
Qed.

End Nearest_float.

(** ** Whitespace *)

Lemma lstrip_head s :
  lstrip s = [] \/ exists c s', lstrip s = c :: s' /\ is_space c = false.
Proof.
  induction s as [|c s IH]; [left; reflexivity|]. simpl.
  destruct (is_space c) eqn:E; [exact IH | right; eauto].
Qed.

Lemma lstrip_suffix s : exists ws, s = ws ++ lstrip s.
Proof.
  induction s as [|c s [ws IH]]; [exists []; reflexivity|]. simpl.
  destruct (is_space c).
  - exists (c :: ws). simpl. f_equal. exact IH.
  - exists []. reflexivity.
Qed.

Lemma lstrip_id c s : is_space c = false -> lstrip (c :: s) = c :: s.
Proof. intros H. simpl. rewrite H. reflexivity. Qed.

Lemma rstrip_id s c : is_space c = false -> rstrip (s ++ [c]) = s ++ [c].
Proof.
  intros H. unfold rstrip. rewrite rev_app_distr. simpl. rewrite H.
  simpl. rewrite rev_involutive. reflexivity.
Qed.

(** A stripped string is empty or has no whitespace at either end. *)
Lemma strip_ends s :
  strip s = []
  \/ (exists c, is_space c = false /\ strip s = [c])
  \/ (exists c mid z,
        is_space c = false /\ is_space z = false /\ strip s = c :: mid ++ [z]).
Proof.
  unfold strip, rstrip.
  destruct (lstrip_head s) as [->|(c & s' & Hs & Hc)]; [left; reflexivity|].
  rewrite Hs. clear Hs s.
  destruct (lstrip_head (rev (c :: s'))) as [Hnil|(z & u & Hu & Hz)].
  - rewrite Hnil. left. reflexivity.
  - right. rewrite Hu.
    destruct (lstrip_suffix (rev (c :: s'))) as [ws Hws]. rewrite Hu in Hws.
    apply (f_equal (@rev ascii)) in Hws.
    rewrite rev_involutive, rev_app_distr in Hws. simpl in Hws.
    simpl. destruct (rev u) as [|c' mid] eqn:Eu.
    + left. exists z. split; [assumption | reflexivity].
    + right. simpl in Hws. injection Hws as <- _.
      exists c, mid, z. auto.
Qed.

Lemma strip_id_ends c mid z :
  is_space c = false -> is_space z = false ->
  strip (c :: mid ++ [z]) = c :: mid ++ [z].
Proof.
  intros Hc Hz. unfold strip. rewrite lstrip_id by assumption.
  apply (rstrip_id (c :: mid)). assumption.
Qed.

Lemma strip_id_single c : is_space c = false -> strip [c] = [c].
Proof.
  intros Hc. unfold strip. rewrite lstrip_id by assumption.
  apply (rstrip_id []). assumption.
Qed.

Lemma strip_idem s : strip (strip s) = strip s.
Proof.
  destruct (strip_ends s) as [->|[(c & Hc & ->)|(c & mid & z & Hc & Hz & ->)]].
  - reflexivity.
  - apply strip_id_single, Hc.
  - apply strip_id_ends; assumption.
Qed.

(** ** Decimal numerals *)

Lemma is_digit_not_space c : is_digit c = true -> is_space c = false.
Proof.
  destruct c as [[] [] [] [] [] [] [] []]; vm_compute; intros H;
    first [reflexivity | discriminate H].
Qed.

Lemma digit_char_is_digit d : (0 <= d <= 9)%Z -> is_digit (digit_char d) = true.
Proof.
  intros H.
  assert (d = 0 \/ d = 1 \/ d = 2 \/ d = 3 \/ d = 4 \/ d = 5 \/ d = 6
          \/ d = 7 \/ d = 8 \/ d = 9)%Z as Hd by lia.
  repeat (destruct Hd as [->|Hd]; [reflexivity|]). subst. reflexivity.
Qed.

Lemma digit_value_char d : (0 <= d <= 9)%Z -> digit_value (digit_char d) = d.
Proof.
  intros H.
  assert (d = 0 \/ d = 1 \/ d = 2 \/ d = 3 \/ d = 4 \/ d = 5 \/ d = 6
          \/ d = 7 \/ d = 8 \/ d = 9)%Z as Hd by lia.
  repeat (destruct Hd as [->|Hd]; [reflexivity|]). subst. reflexivity.
Qed.

Lemma is_digit_value c : is_digit c = true -> (0 <= digit_value c <= 9)%Z.
Proof.
  unfold is_digit, digit_value. intros H.
  apply andb_prop in H as [H1 H2].
  apply Nat.leb_le in H1. apply Nat.leb_le in H2. lia.
Qed.

Lemma digits_value_from s acc :
  fold_left (fun acc c => (10 * acc + digit_value c)%Z) s acc
  = (acc * 10 ^ Z.of_nat (length s) + digits_value s)%Z.
Proof.
  unfold digits_value. revert acc.
  induction s as [|c s IH]; intros acc; [simpl; lia|].
  cbn [fold_left length]. rewrite IH, (IH (10 * 0 + digit_value c)%Z).
  rewrite Nat2Z.inj_succ, Z.pow_succ_r by lia. ring.
Qed.

Lemma digits_value_app s t :
  digits_value (s ++ t)
  = (digits_value s * 10 ^ Z.of_nat (length t) + digits_value t)%Z.
Proof.
  unfold digits_value at 1. rewrite fold_left_app.
  fold (digits_value s). apply digits_value_from.
Qed.

Lemma digits_value_bound s :
  Forall (fun c => is_digit c = true) s ->
  (0 <= digits_value s < 10 ^ Z.of_nat (length s))%Z.
Proof.
  induction s as [|c s IH] using rev_ind; intros H; [cbn; lia|].
  apply Forall_app in H as [Hs Hc]. inversion Hc as [|? ? Hd _]; subst.
  specialize (IH Hs). apply is_digit_value in Hd.
  rewrite digits_value_app, length_app, Nat2Z.inj_add.
  change (digits_value [c]) with (10 * 0 + digit_value c)%Z.
  cbn [length]. rewrite Z.pow_add_r by lia.
  change (10 ^ Z.of_nat 1)%Z with 10%Z. lia.
Qed.

Lemma digits_from_spec fuel n acc :
  (0 <= n < 10 ^ Z.of_nat fuel)%Z -> fuel <> 0%nat ->
  exists ds, digits_from fuel n acc = ds ++ acc
    /\ ds <> []
    /\ Forall (fun c => is_digit c = true) ds
    /\ digits_value ds = n.
Proof.
  revert n acc. induction fuel as [|fuel IH]; intros n acc Hn Hf; [congruence|].
  cbn [digits_from].
  pose proof (Z.mod_pos_bound n 10 ltac:(lia)) as Hr.
  destruct (Z.ltb_spec n 10) as [Hlt|Hge].
  - exists [digit_char (n mod 10)]. rewrite Z.mod_small by lia.
    repeat split.
    + discriminate.
    + repeat constructor. apply digit_char_is_digit. lia.
    + change (digits_value [digit_char n]) with (10 * 0 + digit_value (digit_char n))%Z.
      rewrite digit_value_char by lia. lia.
  - rewrite Nat2Z.inj_succ, Z.pow_succ_r in Hn by lia.
    assert (fuel <> 0%nat) as Hf'.
    { intros ->. change (10 ^ Z.of_nat 0)%Z with 1%Z in Hn. lia. }
    destruct (IH (n / 10)%Z (digit_char (n mod 10) :: acc)) as (ds & -> & Hne & Hall & Hv).
    + split; [apply Z.div_pos; lia | apply Z.div_lt_upper_bound; lia].
    + assumption.
    + exists (ds ++ [digit_char (n mod 10)]). repeat split.
      * rewrite <- app_assoc. reflexivity.
      * destruct ds; discriminate.
      * apply Forall_app. split; [assumption|].
        repeat constructor. apply digit_char_is_digit. lia.
      * rewrite digits_value_app, Hv.
        change (digits_value [digit_char (n mod 10)])
          with (10 * 0 + digit_value (digit_char (n mod 10)))%Z.
        rewrite digit_value_char by lia.
        change (10 ^ Z.of_nat (length [digit_char (n mod 10)]))%Z with 10%Z.
        pose proof (Z.div_mod n 10 ltac:(lia)). lia.
Qed.

Lemma str_of_int_spec n :
  (0 <= n)%Z ->
  str_of_int n <> []
  /\ Forall (fun c => is_digit c = true) (str_of_int n)
  /\ digits_value (str_of_int n) = n.
Proof.
  intros Hn. unfold str_of_int.
  destruct (Z.ltb_spec n 0%Z) as [|_]; [lia|].
  destruct (digits_from_spec (S (Z.to_nat (Z.log2 n))) n []) as (ds & E & Hne & Hall & Hv).
  - split; [assumption|].
    destruct (Z.eq_dec n 0%Z) as [->|Hpos]; [reflexivity|].
    destruct (Z.log2_spec n ltac:(lia)) as [_ Hup].
    rewrite Nat2Z.inj_succ, Z2Nat.id by apply Z.log2_nonneg.
    eapply Z.lt_le_trans; [exact Hup|].
    apply Z.pow_le_mono_l. pose proof (Z.log2_nonneg n). lia.
  - discriminate.
  - rewrite E, app_nil_r. auto.
Qed.

(** ** The price pattern *)

Lemma span_spec cls s p r :
  span cls s = (p, r) ->
  s = p ++ r /\ Forall (fun c => cls c = true) p
  /\ (forall c r', r = c :: r' -> cls c = false).
Proof.
  revert p r. induction s as [|c s IH]; intros p r; simpl.
  - intros [= <- <-]. repeat split; [constructor | discriminate].
  - destruct (cls c) eqn:E.
    + destruct (span cls s) as [p' r'] eqn:Es. intros [= <- <-].
      destruct (IH _ _ eq_refl) as (-> & Hall & Hr).
      repeat split; [constructor; assumption | exact Hr].
    + intros [= <- <-]. repeat split; [constructor|].
      intros c' r' [= <- _]. exact E.
Qed.

Lemma span_app cls p r :
  Forall (fun c => cls c = true) p ->
  (forall c r', r = c :: r' -> cls c = false) ->
  span cls (p ++ r) = (p, r).
Proof.
  intros Hp Hr. induction Hp as [|c p Hc _ IH]; simpl.
  - destruct r as [|c r]; [reflexivity|]. simpl.
    rewrite (Hr c r eq_refl). reflexivity.
  - rewrite Hc, IH. reflexivity.
Qed.

Lemma is_digit_not_mark c :
  is_digit c = true ->
  Ascii.eqb "$"%char c = false /\ Ascii.eqb "."%char c = false.
Proof.
  destruct c as [[] [] [] [] [] [] [] []]; vm_compute; intros H;
    first [split; reflexivity | discriminate H].
Qed.

Lemma lstrip_spaces ws rest :
  Forall (fun c => is_space c = true) ws -> lstrip (ws ++ rest) = lstrip rest.
Proof.
  induction 1 as [|c ws Hc _ IH]; [reflexivity|]. simpl. rewrite Hc. exact IH.
Qed.

Lemma lstrip_split s :
  exists ws, s = ws ++ lstrip s /\ Forall (fun c => is_space c = true) ws.
Proof.
  induction s as [|c s (ws & IH & Hws)]; [exists []; split; [reflexivity|constructor]|].
  simpl. destruct (is_space c) eqn:E.
  - exists (c :: ws). split; [simpl; f_equal; exact IH | constructor; assumption].
  - exists []. split; [reflexivity | constructor].
Qed.

Lemma is_space_not_mark c :
  is_space c = true ->
  is_digit c = false /\ Ascii.eqb "$"%char c = false /\ Ascii.eqb "."%char c = false.
Proof.
  destruct c as [[] [] [] [] [] [] [] []]; vm_compute; intros H;
    first [repeat split; reflexivity | discriminate H].
Qed.

(** The pattern matches the strings of the shape of a price, and reads
    their digits. *)
Lemma match_price_shape s ip fp :
  price_shape s ip fp -> match_price s = Some (ip, fp).
Proof.
  intros (cur & ws1 & ws2 & -> & Hcur & Hws1 & Hws2 & [Hne Hip] & Hfp).
  destruct ip as [|c ip]; [congruence|].
  inversion Hip as [|? ? Hc _]; subst.
  set (tail := match fp with Some f => "."%char :: f | None => [] end ++ ws2).
  assert (lstrip ws2 = []) as Hws2e.
  { rewrite <- (app_nil_r ws2), lstrip_spaces by assumption. reflexivity. }
  assert (forall a r', tail = a :: r' -> is_digit a = false) as Htail.
  { unfold tail. destruct fp as [f|]; cbn.
    - intros a r' [= <- _]. reflexivity.
    - intros a r' ->. inversion Hws2 as [|? ? Ha _]; subst.
      apply is_space_not_mark, Ha. }
  assert (match_price (ws1 ++ (c :: ip) ++ tail) = Some (c :: ip, fp)
          /\ (let s1 := ws1 ++ (c :: ip) ++ tail in
              (if startswith (lit "$") s1 then drop 1 s1 else s1) = s1)) as [Hmain Hno].
  { assert (startswith (lit "$") (ws1 ++ (c :: ip) ++ tail) = false) as Hno.
    { change (lit "$") with ["$"%char].
      destruct ws1 as [|w ws1]; cbn [app startswith].
      - rewrite (proj1 (is_digit_not_mark c Hc)). reflexivity.
      - inversion Hws1 as [|? ? Hw _]; subst.
        rewrite (proj1 (proj2 (is_space_not_mark w Hw))). reflexivity. }
    split; [|cbv zeta; rewrite Hno; reflexivity].
    unfold match_price. rewrite Hno, lstrip_spaces by assumption.
    change ((c :: ip) ++ tail) with (c :: ip ++ tail).
    rewrite lstrip_id by (apply is_digit_not_space, Hc).
    change (c :: ip ++ tail) with ((c :: ip) ++ tail).
    rewrite span_app by assumption. cbn [nonempty].
    unfold tail. destruct fp as [f|].
    - destruct Hfp as [Hfne Hf]. change (lit ".") with ["."%char].
      cbn [app startswith]. rewrite Ascii.eqb_refl. cbn [andb drop].
      change (drop 0 (f ++ ws2)) with (f ++ ws2).
      rewrite span_app.
      + rewrite Hws2e. destruct f; [congruence | reflexivity].
      + assumption.
      + intros a r' ->. inversion Hws2 as [|? ? Ha _]; subst.
        apply is_space_not_mark, Ha.
    - cbn [app]. rewrite Hws2e.
      destruct ws2 as [|w ws2]; [reflexivity|].
      inversion Hws2 as [|? ? Hw _]; subst. change (lit ".") with ["."%char].
      cbn [startswith].
      rewrite (proj2 (proj2 (is_space_not_mark w Hw))). reflexivity. }
  destruct Hcur as [->| ->]; [exact Hmain|].
  unfold match_price in *. cbv zeta in Hno.
  change (startswith (lit "$") (lit "$" ++ ws1 ++ (c :: ip) ++ tail)) with true.
  cbv iota. change (drop 1 (lit "$" ++ ws1 ++ (c :: ip) ++ tail))
    with (ws1 ++ (c :: ip) ++ tail).
  rewrite Hno in Hmain. exact Hmain.
Qed.

Lemma lstrip_nil_spaces r :
  nonempty (lstrip r) = false -> Forall (fun c => is_space c = true) r.
Proof.
  intros H. destruct (lstrip_split r) as (ws & Hr & Hws).
  destruct (lstrip r); [|discriminate]. rewrite app_nil_r in Hr. subst. exact Hws.
Qed.

Lemma nonempty_true (s : pystr) : nonempty s = true -> s <> [].
Proof. destruct s; [discriminate | congruence]. Qed.

(** Only the strings of the shape of a price match the pattern. *)
Lemma match_price_shape_inv s ip fp :
  match_price s = Some (ip, fp) -> price_shape s ip fp.
Proof.
  unfold match_price, price_shape.
  set (s1 := if startswith (lit "$") s then drop 1 s else s).
  assert (exists cur, s = cur ++ s1 /\ (cur = [] \/ cur = lit "$")) as (cur & Hs & Hcur).
  { unfold s1. destruct (startswith (lit "$") s) eqn:E.
    - exists (lit "$"). split; [apply (startswith_inv _ _ E) | right; reflexivity].
    - exists []. split; [reflexivity | left; reflexivity]. }
  destruct (lstrip_split s1) as (ws1 & Hs1 & Hws1).
  destruct (span is_digit (lstrip s1)) as [ip' r1] eqn:E1.
  apply span_spec in E1 as (Hl & Hip & _).
  destruct (nonempty ip') eqn:Hne; [|discriminate]. apply nonempty_true in Hne.
  destruct (startswith (lit ".") r1) eqn:Hpoint.
  - apply startswith_inv in Hpoint. change (length (lit ".")) with 1%nat in Hpoint.
    destruct (span is_digit (drop 1 r1)) as [fp' r3] eqn:E2.
    apply span_spec in E2 as (Hd & Hfp & _).
    destruct (nonempty fp') eqn:Hnf; cbn [andb]; [|discriminate].
    apply nonempty_true in Hnf.
    destruct (nonempty (lstrip r3)) eqn:Hr3; cbn [negb]; [discriminate|].
    intros [= <- <-]. exists cur, ws1, r3.
    split; [|repeat split; auto using lstrip_nil_spaces].
    rewrite Hs, Hs1, Hl, Hpoint, Hd at 1. reflexivity.
  - destruct (nonempty (lstrip r1)) eqn:Hr1; [discriminate|].
    intros [= <- <-]. exists cur, ws1, r1.
    split; [|repeat split; auto using lstrip_nil_spaces].
    rewrite Hs, Hs1, Hl at 1. reflexivity.
Qed.

Lemma match_price_plain ip :
  ip <> [] -> Forall (fun c => is_digit c = true) ip ->
  match_price ip = Some (ip, None).
Proof.
  intros Hne Hall. destruct ip as [|c ip]; [congruence|].
  inversion Hall as [|? ? Hc Hrest]; subst.
  unfold match_price. cbn [lit list_ascii_of_string startswith].
  rewrite (proj1 (is_digit_not_mark c Hc)). cbn [andb].
  rewrite lstrip_id by (apply is_digit_not_space, Hc).
  rewrite <- (app_nil_r (c :: ip)) at 1.
  rewrite span_app by (assumption || discriminate). reflexivity.
Qed.

Lemma match_price_decimal ip fp :
  ip <> [] -> Forall (fun c => is_digit c = true) ip ->
  fp <> [] -> Forall (fun c => is_digit c = true) fp ->
  match_price (ip ++ "."%char :: fp) = Some (ip, Some fp).
Proof.
  intros Hne Hall Hnef Hallf. destruct ip as [|c ip]; [congruence|].
  inversion Hall as [|? ? Hc Hrest]; subst.
  unfold match_price. cbn [lit list_ascii_of_string startswith app].
  rewrite (proj1 (is_digit_not_mark c Hc)). cbn [andb].
  rewrite lstrip_id by (apply is_digit_not_space, Hc).
  change (c :: ip ++ "."%char :: fp) with ((c :: ip) ++ "."%char :: fp).
  rewrite span_app; [|assumption|intros ? ? [= <- _]; reflexivity].
  cbn [nonempty startswith Ascii.eqb Bool.eqb andb drop].
  change (drop 0 fp) with fp. rewrite <- (app_nil_r fp) at 1.
  rewrite span_app by (assumption || discriminate).
  destruct fp; [congruence|]. reflexivity.
Qed.

Lemma match_price_inv s ip fp :
  match_price s = Some (ip, fp) ->
  ip <> [] /\ Forall (fun c => is_digit c = true) ip
  /\ (forall f, fp = Some f -> f <> [] /\ Forall (fun c => is_digit c = true) f).
Proof.
  unfold match_price.
  destruct (span is_digit (lstrip _)) as [ip' r1] eqn:E1.
  apply span_spec in E1 as (_ & Hip & _).
  destruct (nonempty ip') eqn:Hne; [|discriminate].
  assert (ip' <> []) as Hne' by (destruct ip'; [discriminate | congruence]).
  destruct (startswith (lit ".") r1).
  - destruct (span is_digit (drop 1 r1)) as [fp' r3] eqn:E2.
    apply span_spec in E2 as (_ & Hfp & _).
    destruct (nonempty fp') eqn:Hnf; cbn [andb]; [|discriminate].
    destruct (nonempty (lstrip r3)); cbn [negb]; [discriminate|].
    intros [= <- <-]. split; [assumption|]. split; [assumption|].
    intros f [= <-]. split; [|assumption].
    destruct fp'; [discriminate | congruence].
  - destruct (nonempty (lstrip r1)); [discriminate|].
    intros [= <- <-]. split; [assumption|]. split; [assumption|].
    intros f [=].
Qed.

(** ** Price normalisation *)

Section Price_properties.

Local Open Scope Z_scope.

Lemma normalize_price_cases raw :
  normalize_price raw
  = match match_price (strip (default [] raw)) with
    | Some g =>
        n ← int_of_float (float_of_group g);
        if float_eq_int (float_of_group g) n then Ok (str_of_int n)
        else Ok (format_2f (float_of_group g))
    | None => Ok (strip (default [] raw))
    end.
Proof.
  unfold normalize_price. destruct (strip (default [] raw)); reflexivity.
Qed.

Lemma default_Some (d x : pystr) : default d (Some x) = x.
Proof. reflexivity. Qed.

Lemma plain_integer_strip r : plain_integer r -> strip r = r.
Proof.
  intros [Hne Hall]. destruct r as [|c r] using rev_ind; [congruence|].
  clear IHr. apply Forall_app in Hall as [Hr Hc].
  inversion Hc as [|? ? Hz _]; subst. apply is_digit_not_space in Hz.
  destruct r as [|a r].
  - apply strip_id_single, Hz.
  - inversion Hr as [|? ? Ha _]; subst.
    apply strip_id_ends; [apply is_digit_not_space, Ha | exact Hz].
Qed.

Lemma two_decimals_strip ip d1 d2 :
  plain_integer ip -> is_digit d2 = true ->
  strip (ip ++ "."%char :: [d1; d2]) = ip ++ "."%char :: [d1; d2].
Proof.
  intros [Hne Hall] Hz. destruct ip as [|a ip]; [congruence|].
  inversion Hall as [|? ? Ha _]; subst.
  assert ((a :: ip) ++ "."%char :: [d1; d2]
          = a :: (ip ++ ["."%char; d1]) ++ [d2]) as ->
    by (simpl; rewrite <- app_assoc; reflexivity).
  apply strip_id_ends; [apply is_digit_not_space, Ha | apply is_digit_not_space, Hz].
Qed.

Lemma str_of_int_plain n : 0 <= n -> plain_integer (str_of_int n).
Proof. intros H. destruct (str_of_int_spec n H) as (? & ? & _). split; assumption. Qed.

(** The two-decimal rendering of [h / 100]. *)
Lemma two_decimals_value h :
  0 <= h ->
  plain_integer (str_of_int (h / 100))
  /\ is_digit (digit_char (h mod 100 / 10)) = true
  /\ is_digit (digit_char (h mod 10)) = true
  /\ digits_value (str_of_int (h / 100)
                   ++ [digit_char (h mod 100 / 10); digit_char (h mod 10)]) = h.
Proof.
  intros Hh.
  pose proof (Z.mod_pos_bound h 100 ltac:(lia)) as H100.
  pose proof (Z.mod_pos_bound h 10 ltac:(lia)) as H10.
  assert (0 <= h / 100) as Hq by (apply Z.div_pos; lia).
  assert (0 <= h mod 100 / 10 <= 9) as Hd1.
  { assert (h mod 100 / 10 < 10) by (apply Z.div_lt_upper_bound; lia).
    split; [apply Z.div_pos; lia | lia]. }
  destruct (str_of_int_spec _ Hq) as (Hne & Hall & Hv).
  split; [split; assumption|].
  split; [apply digit_char_is_digit; assumption|].
  split; [apply digit_char_is_digit; lia|].
  rewrite digits_value_app, Hv.
  change (digits_value [digit_char (h mod 100 / 10); digit_char (h mod 10)])
    with (10 * (10 * 0 + digit_value (digit_char (h mod 100 / 10)))
          + digit_value (digit_char (h mod 10))).
  rewrite !digit_value_char by lia.
  change (10 ^ Z.of_nat (length [digit_char (h mod 100 / 10); digit_char (h mod 10)]))
    with 100.
  pose proof (Z.div_mod h 100 ltac:(lia)).
  pose proof (Z.div_mod (h mod 100) 10 ltac:(lia)).
  assert (h mod 10 = (h mod 100) mod 10) as ->.
  { symmetry. apply Z.mod_mod_divide. exists 10. reflexivity. }
  lia.
Qed.

(** A whole number that is a binary64 is normalised to its own digits. *)
Lemma normalize_price_whole m e n :
  0 <= m <= 2 ^ 53 -> -1074 <= e <= 971 -> (e = 971 -> m < 2 ^ 53) ->
  int_of_float (Finite m e) = Ok n ->
  float_eq_int (Finite m e) n = true ->
  normalize_price (Some (str_of_int n)) = Ok (str_of_int n).
Proof.
  intros Hm He Hmax Hint Heq. cbn in Hint, Heq.
  pose proof (pow2_pos 1074 ltac:(lia)) as HK.
  assert (0 <= n /\ n * 2 ^ 1074 = m * 2 ^ (e + 1074)) as [Hn Hnk].
  { destruct (Z.leb_spec 0 e) as [Hpos|Hneg].
    - apply Z.eqb_eq in Heq. subst n.
      pose proof (pow2_pos e Hpos). split; [nia|].
      rewrite Z.pow_add_r by lia. ring.
    - apply Z.eqb_eq in Heq. pose proof (pow2_pos (- e) ltac:(lia)).
      split; [nia|]. rewrite Heq, (pow2_split 1074 (e + 1074)) by lia.
      replace (1074 - (e + 1074)) with (- e) by lia. ring. }
  rewrite normalize_price_cases, default_Some.
  rewrite (plain_integer_strip _ (str_of_int_plain n Hn)).
  destruct (str_of_int_spec n Hn) as (Hne & Hall & Hv).
  rewrite (match_price_plain _ Hne Hall). cbn [float_of_group]. rewrite Hv.
  destruct (Z.eq_dec n 0) as [->|Hn0]; [reflexivity|].
  destruct (float_of_ratio_exact n m (e + 1074)) as (m' & e' & -> & He' & Hv');
    try lia.
  assert (int_of_float (Finite m' e') = Ok n
          /\ float_eq_int (Finite m' e') n = true) as [Hi Hf];
    [|rewrite Hi; unfold mbind, result_bind; rewrite Hf; reflexivity].
  cbn. destruct (Z.leb_spec 0 e') as [Hpos|Hneg].
  - rewrite Z.pow_add_r in Hv' by lia.
    assert (m' * 2 ^ e' = n) as -> by nia. rewrite Z.eqb_refl. auto.
  - pose proof (pow2_pos (- e') ltac:(lia)) as Hp'.
    pose proof (pow2_pos (e' + 1074) He') as Hu'.
    rewrite (pow2_split 1074 (e' + 1074)) in Hv' by lia.
    replace (1074 - (e' + 1074)) with (- e') in Hv' by lia.
    assert (m' = n * 2 ^ (- e')) as -> by nia.
    rewrite Z.div_mul, Z.eqb_refl by lia. auto.
Qed.

(** A binary64 that is not whole and is printed with decimals other than
    [00] is normalised to the same text again. *)
Lemma normalize_price_fraction m e :
  0 <= m <= 2 ^ 53 -> -1074 <= e < 0 ->
  round_half_even (100 * m) (2 ^ (- e)) mod 100 <> 0 ->
  normalize_price (Some (format_2f (Finite m e))) = Ok (format_2f (Finite m e)).
Proof.
  intros Hm He Hmod. cbn [format_2f].
  destruct (Z.leb_spec 0 e) as [|_]; [lia|].
  set (h := round_half_even (100 * m) (2 ^ (- e))) in *.
  pose proof (pow2_pos (- e) ltac:(lia)) as Hp.
  assert (0 <= h) as Hh by (apply round_half_even_nonneg; lia).
  destruct (two_decimals_value h Hh) as (Hip & Hd1 & Hd2 & Hv).
  rewrite normalize_price_cases, default_Some.
  rewrite (two_decimals_strip _ _ _ Hip Hd2).
  rewrite match_price_decimal;
    [|apply Hip | apply Hip | discriminate | repeat constructor; assumption].
  cbn [float_of_group]. rewrite Hv.
  change (10 ^ Z.of_nat (length [digit_char (h mod 100 / 10); digit_char (h mod 10)]))
    with 100.
  destruct (format_reparse m e h Hm He eq_refl Hmod)
    as (m' & e' & -> & He' & Hfrac & Hh').
  pose proof (pow2_pos (- e') ltac:(lia)) as Hp'.
  cbn. destruct (Z.leb_spec 0 e') as [|_]; [lia|].
  destruct (Z.eqb_spec m' (m' / 2 ^ (- e') * 2 ^ (- e'))) as [Ewhole|_].
  - exfalso. apply Hfrac. rewrite Ewhole. apply Z.mod_mul. lia.
  - rewrite Hh'. reflexivity.
Qed.

Lemma digits_value_zeros f :
  Forall (fun c => c = "0"%char) f -> digits_value f = 0.
Proof.
  induction f as [|c f IH] using rev_ind; intros H; [reflexivity|].
  apply Forall_app in H as [Hf Hc]. inversion Hc as [|? ? -> _]; subst.
  rewrite digits_value_app, (IH Hf). reflexivity.
Qed.

(** The numeral of a match as a ratio. *)
Lemma float_of_group_ratio s ip fp :
  match_price s = Some (ip, fp) ->
  exists a b,
    float_of_group (ip, fp) = float_of_ratio a b
    /\ 0 <= a /\ 0 < b /\ a < 10 ^ Z.of_nat (length ip) * b
    /\ (whole_numeral fp -> a = digits_value ip * b).
Proof.
  intros Hm. destruct (match_price_inv _ _ _ Hm) as (Hne & Hip & Hfp).
  pose proof (digits_value_bound ip Hip) as Hv.
  destruct fp as [f|]; cbn [float_of_group].
  - destruct (Hfp f eq_refl) as [_ Hf].
    pose proof (digits_value_bound f Hf) as Hvf.
    assert (0 < 10 ^ Z.of_nat (length f)) as Hb by (apply Z.pow_pos_nonneg; lia).
    exists (digits_value (ip ++ f)), (10 ^ Z.of_nat (length f)).
    rewrite digits_value_app. repeat split; try nia.
    intros Hz. cbn in Hz. rewrite (digits_value_zeros f Hz). lia.
  - exists (digits_value ip), 1. repeat split; try lia.
Qed.

Lemma float_of_ratio_valid a b m e :
  0 < a -> 0 < b -> float_of_ratio a b = Finite m e ->
  0 <= m <= 2 ^ 53 /\ -1074 <= e <= 971 /\ (e = 971 -> m < 2 ^ 53).
Proof.
  intros Ha Hb E.
  destruct (float_of_ratio_finite _ _ _ _ Ha Hb E) as (Ht & _ & _ & _ & Hm & Hmax).
  cbv zeta in *. repeat split; lia.
Qed.

Lemma plain_integer_no_point ip rest :
  ~ plain_integer (ip ++ "."%char :: rest).
Proof.
  intros [_ H]. apply Forall_app in H as [_ H].
  inversion H as [|? ? Hc _]. discriminate Hc.
Qed.

Lemma format_2f_two_decimals m e :
  0 <= m -> e < 0 -> two_decimals (format_2f (Finite m e)).
Proof.
  intros Hm He. cbn [format_2f]. destruct (Z.leb_spec 0 e) as [|_]; [lia|].
  pose proof (pow2_pos (- e) ltac:(lia)) as Hp.
  assert (0 <= round_half_even (100 * m) (2 ^ (- e))) as Hh
    by (apply round_half_even_nonneg; lia).
  destruct (two_decimals_value _ Hh) as (Hip & Hd1 & Hd2 & _).
  eexists _, _, _. split; [reflexivity|]. auto.
Qed.

(** What a matched numeral of ratio [a / b] is normalised to when its
    binary64 is finite. *)
Lemma render_finite a b m e :
  0 < a -> 0 < b -> float_of_ratio a b = Finite m e ->
  exists n, int_of_float (Finite m e) = Ok n /\ 0 <= n
    /\ (float_eq_int (Finite m e) n = false ->
        e < 0 /\ m mod 2 ^ (- e) <> 0).
Proof.
  intros Ha Hb E. destruct (float_of_ratio_valid _ _ _ _ Ha Hb E) as (Hm & He & _).
  cbn. eexists. split; [reflexivity|].
  destruct (Z.leb_spec 0 e) as [Hpos|Hneg].
  - pose proof (pow2_pos e Hpos). split; [nia|].
    rewrite Z.eqb_refl. discriminate.
  - pose proof (pow2_pos (- e) ltac:(lia)) as Hp.
    split; [apply Z.div_pos; lia|].
    intros Hneq. apply Z.eqb_neq in Hneq. split; [assumption|].
    intros Hz. apply Hneq. apply Z.mod_divide in Hz as [j ->]; [|lia].
    rewrite Z.div_mul by lia. reflexivity.
Qed.

(** A text [ip.00] is never normalised to itself. *)
Lemma normalize_price_00_changes ip :
  plain_integer ip ->
  normalize_price (Some (ip ++ lit ".00")) <> Ok (ip ++ lit ".00").
Proof.
  intros Hip Hsame.
  assert (is_digit "0"%char = true) as H0 by reflexivity.
  change (ip ++ lit ".00") with (ip ++ "."%char :: ["0"%char; "0"%char]) in Hsame.
  rewrite normalize_price_cases, default_Some in Hsame.
  rewrite (two_decimals_strip _ _ _ Hip H0) in Hsame.
  pose proof (match_price_decimal ip ["0"%char; "0"%char]
                (proj1 Hip) (proj2 Hip) ltac:(discriminate)
                ltac:(repeat constructor)) as Hmatch.
  rewrite Hmatch in Hsame.
  destruct (float_of_group_ratio _ _ _ Hmatch) as (a & b & Hg & Ha & Hb & _ & Hwhole).
  specialize (Hwhole ltac:(repeat constructor)). rewrite Hg in Hsame.
  destruct (Z.eq_dec a 0) as [Ha0|Ha0].
  - rewrite Ha0 in Hsame. cbn in Hsame. injection Hsame as Hsame.
    apply (f_equal (@length ascii)) in Hsame.
    rewrite length_app in Hsame.
    change (str_of_int (0 * 2 ^ 0)) with ["0"%char] in Hsame.
    cbn in Hsame. lia.
  - assert (0 < a) as Hapos by lia.
    destruct (float_of_ratio a b) as [m e|] eqn:E; [|discriminate].
    destruct (render_finite a b m e Hapos Hb E) as (n & Hn & Hn0 & Hfrac).
    rewrite Hn in Hsame. unfold mbind, result_bind in Hsame.
    destruct (float_eq_int (Finite m e) n) eqn:Heq.
    + injection Hsame as Hsame.
      apply (plain_integer_no_point ip ["0"%char; "0"%char]).
      rewrite <- Hsame. apply str_of_int_plain, Hn0.
    + destruct (Hfrac eq_refl) as [He Hmod]. apply Hmod.
      assert (0 < digits_value ip) as Hv by nia.
      rewrite Hwhole in E.
      rewrite (float_of_ratio_whole _ _ _ _ Hv Hb E He).
      apply Z.mod_mul. pose proof (pow2_pos (- e) ltac:(lia)). lia.
Qed.

(** A text that [normalize_price] returns and that is not of the form
    [ip.00] is normalised to itself. *)
Lemma normalize_price_fixed raw r :
  normalize_price raw = Ok r ->
  (forall ip, plain_integer ip -> r <> ip ++ lit ".00") ->
  normalize_price (Some r) = Ok r.
Proof.
  intros Hr Hnot. rewrite normalize_price_cases in Hr.
  destruct (match_price (strip (default [] raw))) as [[ip fp]|] eqn:Hmatch.
  - destruct (float_of_group_ratio _ _ _ Hmatch) as (a & b & Hg & Ha & Hb & _).
    rewrite Hg in Hr.
    destruct (Z.eq_dec a 0) as [Ha0|Ha0].
    + rewrite Ha0 in Hr. cbn in Hr. injection Hr as <-.
      vm_compute. reflexivity.
    + assert (0 < a) as Hapos by lia.
      destruct (float_of_ratio a b) as [m e|] eqn:E; [|discriminate].
      destruct (float_of_ratio_valid a b m e Hapos Hb E) as (Hm & He & Hmax).
      destruct (render_finite a b m e Hapos Hb E) as (n & Hn & Hn0 & Hfrac).
      rewrite Hn in Hr. unfold mbind, result_bind in Hr.
      destruct (float_eq_int (Finite m e) n) eqn:Heq.
      * injection Hr as <-.
        apply (normalize_price_whole m e n); assumption.
      * injection Hr as <-. destruct (Hfrac eq_refl) as [He0 _].
        apply normalize_price_fraction; [assumption | lia |].
        intros Hmod. cbn [format_2f] in Hnot.
        destruct (Z.leb_spec 0 e) as [|_]; [lia|].
        set (h := round_half_even (100 * m) (2 ^ (- e))) in *.
        pose proof (pow2_pos (- e) ltac:(lia)) as Hp.
        assert (0 <= h) as Hh by (apply round_half_even_nonneg; lia).
        apply (Hnot (str_of_int (h / 100))).
        -- apply str_of_int_plain, Z.div_pos; lia.
        -- assert (h mod 10 = 0) as ->.
           { rewrite <- (Z.mod_mod_divide h 100 10) by (exists 10; reflexivity).
             rewrite Hmod. reflexivity. }
           rewrite Hmod. reflexivity.
  - injection Hr as <-.
    rewrite normalize_price_cases, default_Some, strip_idem, Hmatch. reflexivity.
Qed.

(** C3, as amended: normalising a normalised price changes it exactly when
    it is a two-decimal text ending in [.00], which becomes the whole number;
    every other result is a fixed point. The four examples of the spec hold. *)
Theorem normalize_price_idempotent_unless_00 :
  (forall raw r,
      normalize_price raw = Ok r ->
      (normalize_price (Some r) = Ok r
       <-> ~ exists ip, plain_integer ip /\ r = ip ++ lit ".00"))
  /\ normalize_price (Some (lit "$15.00")) = Ok (lit "15")
  /\ normalize_price (Some (lit "12.99")) = Ok (lit "12.99")
  /\ normalize_price (Some (lit "$7")) = Ok (lit "7")
  /\ normalize_price (Some (lit "abc")) = Ok (lit "abc").
Proof.
  split; [|repeat split; vm_compute; reflexivity].
  intros raw r Hr. split.
  - intros Hsame (ip & Hip & ->). exact (normalize_price_00_changes ip Hip Hsame).
  - intros Hnot. apply (normalize_price_fixed raw r Hr).
    intros ip Hip ->. apply Hnot. eauto.
Qed.

(** Comparing a binary64 with its integer part tells whether it is whole. *)
Lemma float_whole_eq_int m e n :
  int_of_float (Finite m e) = Ok n ->
  float_eq_int (Finite m e) n = float_whole (Finite m e).
Proof.
  cbn. intros [= <-]. destruct (Z.leb_spec 0 e) as [Hpos|Hneg]; cbn [orb].
  - apply Z.eqb_refl.
  - pose proof (pow2_pos (- e) ltac:(lia)) as Hp.
    pose proof (Z.div_mod m (2 ^ (- e)) ltac:(lia)) as Hdm.
    destruct (Z.eqb_spec (m mod 2 ^ (- e)) 0) as [Hz|Hnz].
    + apply Z.eqb_eq. lia.
    + apply Z.eqb_neq. lia.
Qed.

(** A matched numeral of at most 308 integer digits is normalised to digits
    only, of the same value, when its nearest binary64 is whole, and to that
    binary64 printed with two decimals when it is not; a whole numeral is
    normalised to digits only. *)
Lemma normalize_price_matched raw ip fp :
  match_price (strip (default [] raw)) = Some (ip, fp) ->
  (length ip <= 308)%nat ->
  exists r, normalize_price raw = Ok r
    /\ (plain_integer r \/ two_decimals r)
    /\ (whole_numeral fp -> plain_integer r)
    /\ (float_whole (float_of_group (ip, fp)) = true ->
        plain_integer r
        /\ float_eq_int (float_of_group (ip, fp)) (digits_value r) = true)
    /\ (float_whole (float_of_group (ip, fp)) = false ->
        two_decimals r /\ r = format_2f (float_of_group (ip, fp))).
Proof.
  intros Hmatch Hlen. rewrite normalize_price_cases, Hmatch.
  destruct (float_of_group_ratio _ _ _ Hmatch) as (a & b & -> & Ha & Hb & Hlt & Hwhole).
  destruct (Z.eq_dec a 0) as [->|Ha0].
  - exists ["0"%char]. split; [reflexivity|].
    assert (plain_integer ["0"%char]) by (split; [discriminate | repeat constructor]).
    split; [auto|]. split; [auto|]. split; [split; [assumption | reflexivity]|].
    discriminate.
  - assert (0 < a) as Hapos by lia.
    destruct (float_of_ratio a b) as [m e|] eqn:E.
    + destruct (float_of_ratio_valid a b m e Hapos Hb E) as (Hm & He & _).
      destruct (render_finite a b m e Hapos Hb E) as (n & Hn & Hn0 & Hfrac).
      rewrite <- (float_whole_eq_int m e n Hn). rewrite Hn.
      unfold mbind, result_bind.
      destruct (float_eq_int (Finite m e) n) eqn:Heq.
      * exists (str_of_int n). split; [reflexivity|].
        pose proof (str_of_int_plain n Hn0).
        destruct (str_of_int_spec n Hn0) as (_ & _ & Hv).
        split; [auto|]. split; [auto|]. split; [|discriminate].
        intros _. split; [assumption|]. rewrite Hv. exact Heq.
      * destruct (Hfrac eq_refl) as [He0 Hmod].
        exists (format_2f (Finite m e)). split; [reflexivity|].
        assert (two_decimals (format_2f (Finite m e))) as Htwo
          by (apply format_2f_two_decimals; lia).
        split; [right; exact Htwo|]. split.
        -- intros Hw. exfalso. apply Hmod.
           assert (0 < digits_value ip) as Hv by (specialize (Hwhole Hw); nia).
           rewrite (Hwhole Hw) in E.
           rewrite (float_of_ratio_whole _ _ _ _ Hv Hb E He0).
           apply Z.mod_mul. pose proof (pow2_pos (- e) ltac:(lia)). lia.
        -- split; [discriminate|]. intros _. split; [exact Htwo | reflexivity].
    + exfalso. apply float_of_ratio_infinite in E; [|assumption|assumption].
      assert (10 ^ Z.of_nat (length ip) <= 10 ^ 308) as Hpow
        by (apply Z.pow_le_mono_r; lia).
      assert (10 ^ 308 < 2 ^ 1024 - 2 ^ 970) as Hmax by (vm_compute; reflexivity).
      clear - E Hlt Hpow Hmax Hb.
      set (P := 10 ^ Z.of_nat (length ip)) in *.
      set (Q := 10 ^ 308) in *. set (M := 2 ^ 1024 - 2 ^ 970) in *. nia.
Qed.

(** C4, as amended: with [s] the input without its surrounding whitespace
    ([None] reads as the empty string), a price of at most 308 integer
    digits is returned as digits only, of the value of the nearest binary64
    of its numeral, when that binary64 is whole, and in particular when its
    fraction digits are zeros or absent; otherwise it is returned as digits
    with exactly two decimals, that binary64 printed with two decimals; an
    input that is not of the shape of a price is returned as [s]. *)
Theorem normalize_price_result (raw : option pystr) :
  let s := strip (default [] raw) in
  (forall ip fp,
      price_shape s ip fp -> (length ip <= 308)%nat ->
      exists r, normalize_price raw = Ok r
        /\ (plain_integer r \/ two_decimals r)
        /\ (whole_numeral fp -> plain_integer r)
        /\ (float_whole (float_of_group (ip, fp)) = true ->
            plain_integer r
            /\ float_eq_int (float_of_group (ip, fp)) (digits_value r) = true)
        /\ (float_whole (float_of_group (ip, fp)) = false ->
            two_decimals r /\ r = format_2f (float_of_group (ip, fp))))
  /\ ((forall ip fp, ~ price_shape s ip fp) -> normalize_price raw = Ok s).
Proof.
  intros s. split.
  - intros ip fp Hshape Hlen.
    apply (normalize_price_matched raw ip fp); [|assumption].
    apply match_price_shape, Hshape.
  - intros Hnone. rewrite normalize_price_cases. fold s.
    destruct (match_price s) as [[ip fp]|] eqn:Hmatch; [|reflexivity].
    destruct (Hnone ip fp). apply match_price_shape_inv, Hmatch.
Qed.

End Price_properties.

Lemma normalize_price_idempotent_unless_00_witness :
  normalize_price (Some (lit "12.50")) = Ok (lit "12.50").
Proof.
  apply (proj2 (proj1 normalize_price_idempotent_unless_00
                  (Some (lit "$12.5")) (lit "12.50") eq_refl)).
  intros (ip & _ & E). apply (f_equal (@rev ascii)) in E.
  rewrite rev_app_distr in E. discriminate E.
Defined.

(** C3 as the spec words it fails: [0.001] is normalised to [0.00], and
    [0.00] to [0]. *)
Lemma normalize_price_not_idempotent :
  normalize_price (Some (lit "0.001")) = Ok (lit "0.00")
  /\ normalize_price (Some (lit "0.00")) = Ok (lit "0").
Proof. split; vm_compute; reflexivity. Qed.

Lemma normalize_price_result_witness :
  exists r, normalize_price (Some (lit " $ 12.5 ")) = Ok r
    /\ (plain_integer r \/ two_decimals r)
    /\ (whole_numeral (Some (lit "5")) -> plain_integer r)
    /\ (float_whole (float_of_group (lit "12", Some (lit "5"))) = true ->
        plain_integer r
        /\ float_eq_int (float_of_group (lit "12", Some (lit "5")))
             (digits_value r) = true)
    /\ (float_whole (float_of_group (lit "12", Some (lit "5"))) = false ->
        two_decimals r
        /\ r = format_2f (float_of_group (lit "12", Some (lit "5")))).
Proof.
  apply (proj1 (normalize_price_result (Some (lit " $ 12.5 ")))
           (lit "12") (Some (lit "5"))).
  - exists (lit "$"), (lit " "), []. split; [reflexivity|].
    split; [right; reflexivity|].
    repeat split; try discriminate; repeat constructor.
  - simpl. lia.
Defined.

(** C4 as the spec words it fails: an input that is not a price comes back
    without its surrounding whitespace, not unchanged; and a numeral of 310
    digits raises [OverflowError]. *)
Lemma normalize_price_strips_and_overflows :
  normalize_price (Some (lit " abc ")) = Ok (lit "abc")
  /\ normalize_price (Some ("1"%char :: replicate 309 "0"%char)) = Raise OverflowError.
Proof. split; vm_compute; reflexivity. Qed.

(** * Further properties *)

(** ** What an identifier looks like *)

Lemma extract_asin_shape (url : option pystr) :
  _extract_asin url = []
  \/ ((length (_extract_asin url) = 9 \/ length (_extract_asin url) = 10)
      /\ Forall (fun c => is_asin_char c = true) (_extract_asin url)).
Proof.
  unfold _extract_asin.
  destruct (search_asin (default [] url)) as [code|] eqn:E; [right | left; reflexivity].
  apply search_asin_some in E as (pre & (rest & _ & post & _ & Hall & Hlen) & _).
  split; [|exact Hall]. destruct Hlen as [H|[H _]]; auto.
Qed.

(** Whatever the URL, [_extract_asin] returns the empty string or nine or
    ten characters of [[A-Z0-9]]. *)
Theorem extract_asin_result_shape (url : option pystr) :
  _extract_asin url = []
  \/ ((length (_extract_asin url) = 9 \/ length (_extract_asin url) = 10)
      /\ Forall (fun c => is_asin_char c = true) (_extract_asin url)).
Proof. apply extract_asin_shape. Qed.

(** ** The index of the header *)

Lemma header_index_lookup header :
  forall i idx h j,
    header_index i header idx !! h = Some j
    <-> (exists k, j = (i + k)%nat /\ header !! k = Some h
                   /\ forall k', k < k' -> header !! k' <> Some h)
        \/ ((h ∉ header) /\ idx !! h = Some j).
Proof.
  induction header as [|x rest IH]; intros i idx h j; cbn [header_index].
  - split.
    + intros H. right. split; [apply not_elem_of_nil | exact H].
    + intros [(k & _ & Hk & _)|[_ H]]; [discriminate Hk | exact H].
  - rewrite IH. split.
    + intros [(k & -> & Hk & Hlast)|[Hnot Hidx]].
      * left. exists (S k). split; [lia|]. split; [exact Hk|].
        intros [|k'] Hlt; [lia|]. cbn. apply Hlast. lia.
      * destruct (decide (x = h)) as [->|Hne].
        -- rewrite lookup_insert_eq in Hidx. injection Hidx as <-.
           left. exists 0. split; [lia|]. split; [reflexivity|].
           intros [|k'] Hlt; [lia|]. cbn. intros Hk.
           apply Hnot. eapply list_elem_of_lookup_2, Hk.
        -- rewrite lookup_insert_ne in Hidx by assumption.
           right. split; [|exact Hidx].
           intros Hin. apply elem_of_cons in Hin as [->|Hin]; [congruence | auto].
    + intros [(k & -> & Hk & Hlast)|[Hnot Hidx]].
      * destruct k as [|k].
        -- cbn in Hk. injection Hk as ->. right. split.
           ++ intros Hin. apply list_elem_of_lookup in Hin as [k' Hk'].
              apply (Hlast (S k')); [lia | exact Hk'].
           ++ rewrite lookup_insert_eq. f_equal. lia.
        -- left. exists k. split; [lia|]. split; [exact Hk|].
           intros k' Hlt. apply (Hlast (S k')). lia.
      * right. apply not_elem_of_cons in Hnot as [Hne Hnot].
        split; [exact Hnot|]. rewrite lookup_insert_ne by congruence. exact Hidx.
Qed.

(** The index built from the header maps a column name to the last position
    at which the header has it, and only the names of the header. *)
Theorem header_index_last_position (header : list pystr) (h : pystr) (j : nat) :
  header_index 0 header ∅ !! h = Some j
  <-> header !! j = Some h /\ forall k, j < k -> header !! k <> Some h.
Proof.
  rewrite header_index_lookup. split.
  - intros [(k & -> & Hk & Hlast)|[_ H]]; [auto | rewrite lookup_empty in H; discriminate].
  - intros [Hj Hlast]. left. exists j. auto.
Qed.

Lemma header_index_missing header h :
  h ∉ header -> header_index 0 header ∅ !! h = None.
Proof.
  intros Hnot. destruct (header_index 0 header ∅ !! h) as [j|] eqn:E; [|reflexivity].
  apply header_index_lookup in E as [(k & _ & Hk & _)|[_ H]].
  - destruct Hnot. eapply list_elem_of_lookup_2, Hk.
  - rewrite lookup_empty in H. discriminate.
Qed.
(** ** More on the reference sheet *)

Ltac run_result := unfold mbind, result_bind; cbv beta iota.

Lemma load_reference_rows_app idx ref rows1 rows2 :
  load_reference_rows idx ref (rows1 ++ rows2)
  = (ref' ← load_reference_rows idx ref rows1;
     load_reference_rows idx ref' rows2).
Proof.
  revert ref. induction rows1 as [|row rows1 IH]; intros ref; [reflexivity|].
  cbn [app load_reference_rows].
  destruct (load_reference_row idx ref row) as [ref'|e]; cbn; [apply IH | reflexivity].
Qed.

Lemma load_reference_row_keys idx ref row ref' :
  load_reference_row idx ref row = Ok ref' ->
  forall k e, ref' !! k = Some e ->
    ref !! k = Some e
    \/ ((length k = 9 \/ length k = 10)
        /\ Forall (fun c => is_asin_char c = true) k).
Proof.
  unfold load_reference_row. destruct (length row <? 7); [intros [= <-]; auto|].
  run_result.
  destruct (column idx row (lit "product_link")) as [link|]; [|discriminate].
  destruct (extract_asin_shape (Some (strip link))) as [Hnil|Hshape].
  - rewrite Hnil. cbn. intros [= <-]. auto.
  - destruct (nonempty (_extract_asin (Some (strip link)))); cbn [negb];
      [|intros [= <-]; auto].
    destruct (column idx row (lit "description")); [|discriminate].
    destruct (column idx row (lit "labels")); [|discriminate].
    destruct (column idx row (lit "image_links")); [|discriminate].
    destruct (column idx row (lit "price")); [|discriminate].
    intros [= <-] k e Hk.
    destruct (decide (_extract_asin (Some (strip link)) = k)) as [<-|Hne].
    + right. exact Hshape.
    + rewrite lookup_insert_ne in Hk by assumption. auto.
Qed.

Lemma load_reference_rows_keys idx rows :
  forall ref ref',
    load_reference_rows idx ref rows = Ok ref' ->
    forall k e, ref' !! k = Some e ->
      (exists e', ref !! k = Some e')
      \/ ((length k = 9 \/ length k = 10)
          /\ Forall (fun c => is_asin_char c = true) k).
Proof.
  induction rows as [|row rows IH]; intros ref ref'; cbn [load_reference_rows].
  - intros [= <-] k e Hk. eauto.
  - run_result.
    destruct (load_reference_row idx ref row) as [ref1|] eqn:E; [|discriminate].
    intros Hrows k e Hk.
    destruct (IH _ _ Hrows k e Hk) as [[e' He']|Hshape]; [|auto].
    destruct (load_reference_row_keys _ _ _ _ E k e' He'); eauto.
Qed.

(** Every key of the reference map is an identifier: nine or ten characters
    of [[A-Z0-9]]; the empty string is never a key. *)
Theorem load_reference_keys_are_asins (reader : list (list pystr))
    (ref : gmap pystr ref_entry) (k : pystr) (e : ref_entry) :
  load_reference_by_asin reader = Ok ref ->
  ref !! k = Some e ->
  (length k = 9 \/ length k = 10)
  /\ Forall (fun c => is_asin_char c = true) k.
Proof.
  destruct reader as [|header rows]; [discriminate|]. cbn [load_reference_by_asin].
  intros Hload Hk.
  destruct (load_reference_rows_keys _ _ _ _ Hload k e Hk) as [[e' He']|H]; [|exact H].
  rewrite lookup_empty in He'. discriminate.
Qed.

Lemma load_reference_no_empty_key reader ref :
  load_reference_by_asin reader = Ok ref -> ref !! ([] : pystr) = None.
Proof.
  destruct reader as [|header rows]; [discriminate|]. cbn [load_reference_by_asin].
  intros Hload. destruct (ref !! ([] : pystr)) as [e|] eqn:Hk; [|reflexivity].
  destruct (load_reference_rows_keys _ _ _ _ Hload _ e Hk) as [[e' He']|[[H|H] _]].
  - rewrite lookup_empty in He'. discriminate.
  - discriminate H.
  - discriminate H.
Qed.

Lemma load_reference_keys_are_asins_witness :
  (length (lit "B00TTD9BRC") = 9 \/ length (lit "B00TTD9BRC") = 10)
  /\ Forall (fun c => is_asin_char c = true) (lit "B00TTD9BRC").
Proof.
  apply (load_reference_keys_are_asins reference_csv_serum ref_serum
           (lit "B00TTD9BRC")
           {| ref_description := lit "A light serum.";
              ref_labels := lit "Sensitive skin";
              ref_image_links := lit "https://example.com/serum.jpg";
              ref_price := lit "$12.50" |}).
  - vm_compute. reflexivity.
  - vm_compute. reflexivity.
Defined.

(** The entry a row of the reference file gives. *)
Lemma load_reference_row_entry idx ref row link :
  7 <= length row ->
  column idx row "product_link" = Ok link ->
  nonempty (_extract_asin (Some (strip link))) = true ->
  load_reference_row idx ref row
  = (d ← column idx row "description";
     l ← column idx row "labels";
     im ← column idx row "image_links";
     p ← column idx row "price";
     Ok (<[_extract_asin (Some (strip link)) :=
             {| ref_description := d; ref_labels := strip l;
                ref_image_links := strip im; ref_price := strip p |}]> ref)).
Proof.
  intros Hlen Hlink Hasin. unfold load_reference_row.
  destruct (Nat.ltb_spec (length row) 7) as [|_]; [lia|].
  rewrite Hlink. run_result. rewrite Hasin. reflexivity.
Qed.

(** Later rows win: the last row of the reference file, when it has its
    columns and an identifier, is the entry of that identifier, whatever
    the rows before it hold. *)
Theorem load_reference_last_row_wins (header : list pystr)
    (rows : list (list pystr)) (row : list pystr) (link : pystr)
    (ref : gmap pystr ref_entry) :
  7 <= length row ->
  column (header_index 0 header ∅) row "product_link" = Ok link ->
  nonempty (_extract_asin (Some (strip link))) = true ->
  load_reference_by_asin (header :: rows ++ [row]) = Ok ref ->
  exists d l im p,
    column (header_index 0 header ∅) row "description" = Ok d
    /\ column (header_index 0 header ∅) row "labels" = Ok l
    /\ column (header_index 0 header ∅) row "image_links" = Ok im
    /\ column (header_index 0 header ∅) row "price" = Ok p
    /\ ref !! _extract_asin (Some (strip link))
       = Some {| ref_description := d; ref_labels := strip l;
                 ref_image_links := strip im; ref_price := strip p |}.
Proof.
  intros Hlen Hlink Hasin. cbn [load_reference_by_asin].
  rewrite load_reference_rows_app.
  destruct (load_reference_rows _ ∅ rows) as [ref1|]; [|discriminate].
  run_result. cbn [load_reference_rows]. run_result.
  rewrite (load_reference_row_entry _ _ _ _ Hlen Hlink Hasin). run_result.
  destruct (column _ row (lit "description")) as [d|]; [|discriminate].
  destruct (column _ row (lit "labels")) as [l|]; [|discriminate].
  destruct (column _ row (lit "image_links")) as [im|]; [|discriminate].
  destruct (column _ row (lit "price")) as [p|]; [|discriminate].
  intros [= <-]. exists d, l, im, p. repeat split; try reflexivity.
  apply lookup_insert_eq.
Qed.

Lemma load_reference_last_row_wins_witness :
  load_reference_by_asin
    [out_columns; reference_row_earlier; reference_row_serum] = Ok ref_serum
  /\ exists d l im p,
    column (header_index 0 out_columns ∅) reference_row_serum "description" = Ok d
    /\ column (header_index 0 out_columns ∅) reference_row_serum "labels" = Ok l
    /\ column (header_index 0 out_columns ∅) reference_row_serum "image_links"
       = Ok im
    /\ column (header_index 0 out_columns ∅) reference_row_serum "price" = Ok p
    /\ ref_serum
       !! _extract_asin (Some (strip (lit "https://www.amazon.com/dp/B00TTD9BRC ")))
       = Some {| ref_description := d; ref_labels := strip l;
                 ref_image_links := strip im; ref_price := strip p |}.
Proof.
  split; [vm_compute; reflexivity|].
  apply (load_reference_last_row_wins out_columns [reference_row_earlier]
           reference_row_serum
           (lit "https://www.amazon.com/dp/B00TTD9BRC ") ref_serum).
  - cbn. lia.
  - vm_compute. reflexivity.
  - vm_compute. reflexivity.
  - vm_compute. reflexivity.
Defined.

Lemma load_reference_rows_no_link idx rows :
  idx !! lit "product_link" = None ->
  forall ref,
    load_reference_rows idx ref rows
    = if existsb (fun row => 7 <=? length row) rows then Raise KeyError
      else Ok ref.
Proof.
  intros Hidx. induction rows as [|row rows IH]; intros ref; [reflexivity|].
  cbn [load_reference_rows existsb]. unfold load_reference_row.
  destruct (Nat.ltb_spec (length row) 7) as [Hshort|Hlong].
  - destruct (Nat.leb_spec 7 (length row)) as [|_]; [lia|]. run_result. apply IH.
  - destruct (Nat.leb_spec 7 (length row)) as [_|]; [|lia].
    unfold column. rewrite Hidx. reflexivity.
Qed.

(** A reference file whose header has no [product_link] column raises
    [KeyError] as soon as one of its rows has seven columns; with shorter
    rows only it gives the empty map. *)
Theorem load_reference_without_link_column (header : list pystr)
    (rows : list (list pystr)) :
  lit "product_link" ∉ header ->
  load_reference_by_asin (header :: rows)
  = if existsb (fun row => 7 <=? length row) rows then Raise KeyError
    else Ok ∅.
Proof.
  intros Hnot. cbn [load_reference_by_asin].
  apply load_reference_rows_no_link, header_index_missing, Hnot.
Qed.

Lemma load_reference_without_link_column_witness :
  load_reference_by_asin
    ([lit "id"; lit "name"; lit "description"; lit "labels"; lit "image_links";
      lit "link"; lit "price"]
     :: [[lit "1"; lit "Glow Serum"];
         [lit "1"; lit "Glow Serum"; lit "A light serum."; lit "Oily skin";
          lit ""; lit "https://www.amazon.com/dp/B00TTD9BRC"; lit "$12.50"]])
  = if existsb (fun row => 7 <=? length row)
         [[lit "1"; lit "Glow Serum"];
          [lit "1"; lit "Glow Serum"; lit "A light serum."; lit "Oily skin";
           lit ""; lit "https://www.amazon.com/dp/B00TTD9BRC"; lit "$12.50"]]
    then Raise KeyError else Ok ∅.
Proof.
  apply load_reference_without_link_column.
  intros Hin. repeat (apply elem_of_cons in Hin as [Hin|Hin]; [discriminate Hin|]).
  apply elem_of_nil in Hin. exact Hin.
Defined.

(** The length test does not bound the index of a column: with the
    [product_link] column at position [j], the first row of seven or more
    columns raises [IndexError] when it has no more than [j] of them. *)
Theorem load_reference_row_too_short_for_header (header : list pystr)
    (shorts : list (list pystr)) (row : list pystr) (rest : list (list pystr))
    (j : nat) :
  header_index 0 header ∅ !! lit "product_link" = Some j ->
  Forall (fun r => length r < 7) shorts ->
  7 <= length row <= j ->
  load_reference_by_asin (header :: shorts ++ row :: rest) = Raise IndexError.
Proof.
  intros Hidx Hshorts Hlen. cbn [load_reference_by_asin].
  rewrite load_reference_rows_app.
  rewrite (load_reference_rows_filter (fun r => 7 <= length r)).
  - assert (filter (fun r => 7 <= length r) shorts = []) as ->.
    { induction Hshorts as [|r rs Hr _ IH]; [reflexivity|].
      rewrite filter_cons. destruct (decide (7 <= length r)); [lia | exact IH]. }
    cbn [load_reference_rows]. run_result. unfold load_reference_row.
    destruct (Nat.ltb_spec (length row) 7) as [|_]; [lia|].
    unfold column. rewrite Hidx.
    rewrite (proj2 (lookup_ge_None row j)) by lia. reflexivity.
  - intros ref r Hr. apply load_reference_row_short. lia.
Qed.

Lemma load_reference_row_too_short_for_header_witness :
  load_reference_by_asin
    ([lit "id"; lit "name"; lit "description"; lit "labels"; lit "image_links";
      lit "sku"; lit "price"; lit "product_link"]
     :: [[lit "1"; lit "Glow Serum"]]
        ++ [lit "1"; lit "Glow Serum"; lit "A light serum."; lit "Oily skin";
            lit ""; lit "S-1"; lit "$12.50"] :: [])
  = Raise IndexError.
Proof.
  apply (load_reference_row_too_short_for_header _ _ _ _ 7).
  - vm_compute. reflexivity.
  - repeat constructor.
  - cbn. lia.
Defined.

(** ** The generation, its requests and its responses *)

Section Run_properties.

Variable json_loads : pystr -> option json.

Ltac run_io :=
  unfold mbind, io_bind, mret, io_ret, request, print, lift; cbv beta iota.

Lemma requests_app evs evs' : requests (evs ++ evs') = requests evs + requests evs'.
Proof.
  induction evs as [|[] evs IH]; cbn; [reflexivity | rewrite IH; reflexivity | exact IH].
Qed.

(** On any of its fallbacks, and with a raw text that is not empty, the
    generation returns the title, an empty line and the first 1500
    characters of the raw text, with the keyword labels. *)
Theorem generate_fallback_value (w : env) (title raw_text : pystr)
    (tr : list event) :
  falls_back json_loads w tr title raw_text ->
  raw_text <> [] ->
  (generate_description_and_labels json_loads w title raw_text tr).2
  = Ok (title ++ nl :: nl :: take 1500 raw_text,
        _fallback_labels title raw_text).
Proof.
  intros Hfb Hraw. unfold generate_description_and_labels.
  assert (str_or (take 1500 raw_text) [] = take 1500 raw_text) as Hor
    by (destruct raw_text; [congruence | reflexivity]).
  assert (nonempty raw_text = true) as Hne by (destruct raw_text; [congruence | reflexivity]).
  rewrite Hor, Hne.
  destruct (nonempty (default [] (api_key w))) eqn:Hkey; cbn [negb]; [|reflexivity].
  destruct (anthropic_installed w) eqn:Hlib; cbn [negb]; [|reflexivity].
  run_io. cbv zeta.
  destruct (messages_create w tr system_prompt (user_prompt title raw_text))
    as [message|content] eqn:Hresp; [reflexivity|].
  destruct (json_loads (response_text content)) as [data|] eqn:Hjson; [|reflexivity].
  destruct Hfb as [H|[H|[[m H]|(c & H & Hc)]]]; congruence.
Qed.

(** The generation makes at most one request, and none without a
    credential. *)
Lemma generate_requests w title raw_text tr :
  exists evs,
    (generate_description_and_labels json_loads w title raw_text tr).1 = tr ++ evs
    /\ requests evs <= 1
    /\ (nonempty (default [] (api_key w)) = false -> evs = []).
Proof.
  unfold generate_description_and_labels.
  destruct (nonempty (default [] (api_key w))) eqn:Hkey; cbn [negb].
  2:{ exists []. rewrite app_nil_r. split; [reflexivity|]. split; [cbn; lia | auto]. }
  destruct (anthropic_installed w); cbn [negb].
  2:{ exists []. rewrite app_nil_r. split; [reflexivity|]. split; [cbn; lia | auto]. }
  run_io. cbv zeta.
  destruct (messages_create w tr _ _) as [message|content].
  - eexists [_; _]. rewrite <- app_assoc.
    split; [reflexivity|]. split; [cbn; lia | discriminate].
  - exists [EvRequest system_prompt (user_prompt title raw_text)].
    split; [|split; [cbn; lia | discriminate]].
    destruct (json_loads _) as [data|]; [|reflexivity].
    destruct (json_get data _) as [d|]; [|reflexivity].
    destruct (as_str (or_str d title)); [|reflexivity].
    destruct (json_get data _) as [l|]; [|reflexivity].
    destruct (as_str (or_str l [])); reflexivity.
Qed.

(** A response that is JSON but not an object is not caught by any
    fallback: the generation raises [AttributeError]. *)
Theorem generate_non_object_raises (w : env) (title raw_text : pystr)
    (tr : list event) (content : list pystr) (data : json) :
  nonempty (default [] (api_key w)) = true ->
  anthropic_installed w = true ->
  messages_create w tr system_prompt (user_prompt title raw_text)
  = ApiResponse content ->
  json_loads (response_text content) = Some data ->
  (forall items, data <> JObject items) ->
  (generate_description_and_labels json_loads w title raw_text tr).2
  = Raise AttributeError.
Proof.
  intros Hkey Hlib Hresp Hjson Hobj. unfold generate_description_and_labels.
  rewrite Hkey, Hlib. cbn [negb]. run_io. cbv zeta. rewrite Hresp, Hjson.
  destruct data; try reflexivity. destruct (Hobj items eq_refl).
Qed.

(** A response that is a JSON object whose [description] and [labels] are
    strings or absent gives the description, or the title when the
    description is absent or empty, with every backslash-n turned into a
    newline (in the title too), and the labels stripped, or none. *)
Theorem generate_parsed_object (w : env) (title raw_text : pystr)
    (tr : list event) (content : list pystr) (items : list (pystr * json))
    (d l : option pystr) :
  nonempty (default [] (api_key w)) = true ->
  anthropic_installed w = true ->
  messages_create w tr system_prompt (user_prompt title raw_text)
  = ApiResponse content ->
  json_loads (response_text content) = Some (JObject items) ->
  json_get (JObject items) "description" = Ok (JString <$> d) ->
  json_get (JObject items) "labels" = Ok (JString <$> l) ->
  (generate_description_and_labels json_loads w title raw_text tr).2
  = Ok (unescape_newlines (str_or (default [] d) title), strip (default [] l)).
Proof.
  intros Hkey Hlib Hresp Hjson Hd Hl. unfold generate_description_and_labels.
  rewrite Hkey, Hlib. cbn [negb]. run_io. cbv zeta. rewrite Hresp, Hjson, Hd.
  assert (forall (v : option pystr) dflt,
             as_str (or_str (JString <$> v) dflt) = Ok (str_or (default [] v) dflt))
    as Hfield.
  { intros [[|c v]|] dflt; reflexivity. }
  rewrite Hfield, Hl, Hfield.
  destruct l as [[|c l]|]; reflexivity.
Qed.

(** ** Rows and the run *)

(** The reference map never has the empty string as a key, so a row whose
    URL holds no identifier is assembled as if there were no reference. *)
Theorem process_row_without_asin_ignores_reference (w : env)
    (reader : list (list pystr)) (ref_by_asin : gmap pystr ref_entry)
    (i total : nat) (row : gmap pystr pystr) (tr : list event) :
  load_reference_by_asin reader = Ok ref_by_asin ->
  _extract_asin (Some (_get row "url")) = [] ->
  process_row json_loads w ref_by_asin i total row tr
  = process_row json_loads w ∅ i total row tr.
Proof.
  intros Hload Hasin. unfold process_row. rewrite Hasin.
  rewrite (load_reference_no_empty_key _ _ Hload), lookup_empty. reflexivity.
Qed.

Lemma process_row_name_link w ref i total row tr r :
  (process_row json_loads w ref i total row tr).2 = Ok r ->
  name r = _get row "title" /\ product_link r = _get row "url".
Proof.
  unfold process_row. run_io. cbv zeta.
  destruct (ref !! _) as [e|].
  - intros [= <-]. auto.
  - destruct (generate_description_and_labels _ _ _ _ _) as [tr' [[desc lbl]|e]];
      [|discriminate].
    destruct (normalize_price _) as [p|e]; [|discriminate].
    intros [= <-]. auto.
Qed.

Lemma process_rows_records w ref total rows :
  forall i tr out,
    (process_rows json_loads w ref i total rows tr).2 = Ok out ->
    Forall2 (fun row r => name r = _get row "title"
                          /\ product_link r = _get row "url") rows out.
Proof.
  induction rows as [|row rows IH]; intros i tr out; cbn [process_rows].
  - intros [= <-]. constructor.
  - run_io.
    destruct (process_row json_loads w ref i total row tr) as [tr1 [r|e]] eqn:E;
      [|discriminate].
    destruct (process_rows json_loads w ref (S i) total rows tr1) as [tr2 [rs|e]] eqn:E2;
      [|discriminate].
    intros [= <-]. constructor.
    + apply (process_row_name_link w ref i total row tr). rewrite E. reflexivity.
    + apply (IH (S i) tr1). rewrite E2. reflexivity.
Qed.

(** When [main] ends without an exception it has written the header and one
    row for each raw row, in order: the row of the [k]-th raw row (from 0)
    has the id [k + 1], the stripped title as its name and the stripped URL
    as its product link. *)
Theorem main_writes_a_row_per_raw_row (w : env)
    (reference_csv : list (list pystr)) (raw_rows : list (gmap pystr pystr))
    (tr : list event) (written : list (list pystr)) :
  (main json_loads w reference_csv raw_rows tr).2 = Ok written ->
  written !! 0 = Some out_columns
  /\ length written = S (length raw_rows)
  /\ forall k row,
       raw_rows !! k = Some row ->
       exists r,
         written !! S k
         = Some [str_of_int (Z.of_nat (S k)); _get row "title"; description r;
                 labels r; image_links r; _get row "url"; price r].
Proof.
  unfold main. run_io.
  destruct (load_reference_by_asin reference_csv) as [ref|e]; [|discriminate].
  destruct (process_rows json_loads w ref 1 (length raw_rows) raw_rows tr)
    as [tr1 [out|e]] eqn:E; [|discriminate].
  intros [= <-].
  assert (Forall2 (fun row r => name r = _get row "title"
                                /\ product_link r = _get row "url") raw_rows out)
    as Hrec by (apply (process_rows_records w ref (length raw_rows) raw_rows 1 tr); rewrite E; reflexivity).
  split; [reflexivity|]. split.
  - cbn [length]. rewrite length_imap. f_equal. symmetry.
    eapply Forall2_length, Hrec.
  - intros k row Hk.
    destruct (Forall2_lookup_l _ _ _ _ _ Hrec Hk) as (r & Hr & Hname & Hlink).
    exists r.
    change (imap (fun i r => csv_row (S i) r) out !! k = Some
      [str_of_int (Z.of_nat (S k)); _get row "title"; description r;
       labels r; image_links r; _get row "url"; price r]).
    rewrite list_lookup_imap, Hr. cbn [fmap option_fmap option_map].
    unfold csv_row. rewrite Hname, Hlink. reflexivity.
Qed.

Lemma process_row_requests w ref i total row tr :
  exists evs,
    (process_row json_loads w ref i total row tr).1 = tr ++ evs
    /\ requests evs
       <= match ref !! _extract_asin (Some (_get row "url")) with
          | Some _ => 0
          | None => 1
          end
    /\ (nonempty (default [] (api_key w)) = false -> requests evs = 0).
Proof.
  unfold process_row. run_io. cbv zeta.
  destruct (ref !! _) as [e|].
  - eexists [_]. split; [reflexivity|]. split; [cbn; lia | reflexivity].
  - destruct (generate_requests w (_get row "title") (raw_text_for_llm row)
                (tr ++ [EvPrint (progress_line i total (_get row "title"))]))
      as (evs & Hevs & Hle & Hnone).
    destruct (generate_description_and_labels _ _ _ _ _) as [tr' [[desc lbl]|e]];
      cbn [fst] in Hevs; subst tr'.
    + exists (EvPrint (progress_line i total (_get row "title")) :: evs).
      split.
      * destruct (normalize_price _); cbn [fst]; rewrite <- app_assoc; reflexivity.
      * split; [exact Hle|]. intros Hkey. rewrite (Hnone Hkey). reflexivity.
    + exists (EvPrint (progress_line i total (_get row "title")) :: evs).
      split; [cbn [fst]; rewrite <- app_assoc; reflexivity|].
      split; [exact Hle|]. intros Hkey. rewrite (Hnone Hkey). reflexivity.
Qed.

Lemma process_rows_requests w ref total rows :
  forall i tr,
    exists evs,
      (process_rows json_loads w ref i total rows tr).1 = tr ++ evs
      /\ requests evs
         <= length (filter (fun row => ref !! _extract_asin (Some (_get row "url")) = None) rows)
      /\ (nonempty (default [] (api_key w)) = false -> requests evs = 0).
Proof.
  induction rows as [|row rows IH]; intros i tr; cbn [process_rows].
  - exists []. rewrite app_nil_r. split; [reflexivity|]. split; [cbn; lia | reflexivity].
  - run_io.
    destruct (process_row_requests w ref i total row tr) as (ev1 & H1 & Hle1 & Hz1).
    destruct (process_row json_loads w ref i total row tr) as [tr1 [r|e]];
      cbn [fst] in H1; subst tr1.
    + destruct (IH (S i) (tr ++ ev1)) as (ev2 & H2 & Hle2 & Hz2).
      exists (ev1 ++ ev2). rewrite requests_app, filter_cons.
      split.
      * destruct (process_rows json_loads w ref (S i) total rows (tr ++ ev1))
          as [tr2 [rs|e]]; cbn [fst] in H2 |- *; rewrite H2, app_assoc; reflexivity.
      * split; [|intros Hkey; rewrite (Hz1 Hkey), (Hz2 Hkey); reflexivity].
        destruct (decide (ref !! _extract_asin (Some (_get row "url")) = None)) as [Hn|Hs].
        -- rewrite Hn in Hle1. cbn [length]. lia.
        -- destruct (ref !! _extract_asin (Some (_get row "url"))); [lia | congruence].
    + exists ev1. split; [reflexivity|]. split; [|exact Hz1].
      rewrite filter_cons.
      destruct (decide (ref !! _extract_asin (Some (_get row "url")) = None)) as [Hn|Hs].
      * rewrite Hn in Hle1. cbn [length]. lia.
      * destruct (ref !! _extract_asin (Some (_get row "url"))); [lia | congruence].
Qed.

(** [main] only adds events; it makes at most one request for each raw row
    whose identifier is not in the reference map, none for the others, and
    none at all without a credential. *)
Theorem main_requests (w : env) (reference_csv : list (list pystr))
    (ref_by_asin : gmap pystr ref_entry) (raw_rows : list (gmap pystr pystr))
    (tr : list event) :
  load_reference_by_asin reference_csv = Ok ref_by_asin ->
  exists evs,
    (main json_loads w reference_csv raw_rows tr).1 = tr ++ evs
    /\ requests evs
       <= length (filter (fun row =>
                            ref_by_asin !! _extract_asin (Some (_get row "url")) = None)
                         raw_rows)
    /\ (nonempty (default [] (api_key w)) = false -> requests evs = 0).
Proof.
  intros Hload. unfold main. run_io. rewrite Hload.
  destruct (process_rows_requests w ref_by_asin (length raw_rows) raw_rows 1 tr)
    as (evs & Hevs & Hle & Hz).
  destruct (process_rows json_loads w ref_by_asin 1 (length raw_rows) raw_rows tr)
    as [tr1 [out|e]]; cbn [fst] in Hevs; subst tr1.
  - eexists (evs ++ [_]). cbn [fst]. rewrite <- app_assoc. split; [reflexivity|].
    rewrite requests_app. cbn [requests]. split; [lia|].
    intros Hkey. rewrite (Hz Hkey). reflexivity.
  - exists evs. auto.
Qed.

End Run_properties.
(** ** The raw text *)

Lemma longest_run_ge c s : forall run, run <= longest_run c run s.
Proof.
  induction s as [|x s IH]; intros run; cbn [longest_run]; [lia|].
  destruct (Ascii.eqb x c); [specialize (IH (S run))|]; lia.
Qed.

Lemma longest_run_mono c s : forall run run',
  run <= run' -> longest_run c run s <= longest_run c run' s.
Proof.
  induction s as [|x s IH]; intros run run' H; cbn [longest_run]; [lia|].
  destruct (Ascii.eqb x c); [apply IH|]; lia.
Qed.

Lemma longest_run_replicate c n t : forall run,
  longest_run c run (replicate n c ++ t) = longest_run c (run + n) t.
Proof.
  induction n as [|n IH]; intros run; cbn [replicate app longest_run].
  - f_equal. lia.
  - rewrite Ascii.eqb_refl, IH. f_equal. lia.
Qed.

Lemma longest_run_other c c' n t run :
  c <> c' -> 0 < n ->
  longest_run c' run (replicate n c ++ t) = Nat.max run (longest_run c' 0 t).
Proof.
  intros Hne Hn. destruct n as [|n]; [lia|]. clear Hn.
  cbn [replicate app longest_run].
  destruct (Ascii.eqb_spec c c') as [|_]; [congruence|]. f_equal.
  induction n as [|n IH]; [reflexivity|]. cbn [replicate app longest_run].
  destruct (Ascii.eqb_spec c c') as [|_]; [congruence|]. rewrite IH. lia.
Qed.

Lemma longest_run_app_r c a b : forall run,
  longest_run c 0 b <= longest_run c run (a ++ b).
Proof.
  induction a as [|x a IH]; intros run; cbn [app longest_run].
  - apply longest_run_mono. lia.
  - destruct (Ascii.eqb x c); [apply IH|]. specialize (IH 0). lia.
Qed.

Lemma longest_run_app_l c a b : forall run,
  longest_run c run a <= longest_run c run (a ++ b).
Proof.
  induction a as [|x a IH]; intros run; cbn [app longest_run].
  - apply longest_run_ge.
  - destruct (Ascii.eqb x c); [apply IH|]. specialize (IH 0). lia.
Qed.

Lemma longest_run_infix c a s b :
  longest_run c 0 s <= longest_run c 0 (a ++ s ++ b).
Proof.
  etransitivity; [apply (longest_run_app_l c s b)|]. apply longest_run_app_r.
Qed.

Lemma startswith_prefix p : forall s,
  startswith p s = true -> exists rest, s = p ++ rest.
Proof.
  induction p as [|a p IH]; intros s H; [exists s; reflexivity|].
  destruct s as [|b s]; [discriminate|]. cbn [startswith] in H.
  apply andb_true_iff in H as [Hab Hp]. apply Ascii.eqb_eq in Hab as ->.
  destruct (IH s Hp) as [rest ->]. exists rest. reflexivity.
Qed.

Lemma contains_infix needle : forall hay,
  contains needle hay = true -> exists a b, hay = a ++ needle ++ b.
Proof.
  induction hay as [|x hay IH]; cbn [contains]; intros H.
  - rewrite orb_false_r in H. apply startswith_prefix in H as [rest ->].
    exists [], rest. reflexivity.
  - apply orb_true_iff in H as [H|H].
    + apply startswith_prefix in H as [rest ->]. exists [], rest. reflexivity.
    + destruct (IH H) as (a & b & ->). exists (x :: a), b. reflexivity.
Qed.

(** A text whose runs of [c] are shorter than [n] does not contain [n]
    copies of [c] in a row. *)
Lemma no_long_run c n s :
  longest_run c 0 s < n -> contains (replicate n c) s = false.
Proof.
  intros Hlt. destruct (contains (replicate n c) s) eqn:E; [|reflexivity].
  apply contains_infix in E as (a & b & ->).
  pose proof (longest_run_app_r c a (replicate n c ++ b) 0) as H.
  rewrite longest_run_replicate in H.
  pose proof (longest_run_ge c b (0 + n)). lia.
Qed.

(** What [collapse_runs] leaves of the runs of [c]. *)
Lemma collapse_runs_bound c least keep bound s : forall run,
  keep <= bound -> least <= S bound ->
  longest_run c 0 (collapse_runs c least keep run s) <= bound.
Proof.
  induction s as [|x s IH]; intros run Hk Hl; cbn [collapse_runs].
  - rewrite <- (app_nil_r (replicate _ c)), longest_run_replicate. cbn.
    destruct (Nat.leb_spec least run); lia.
  - destruct (Ascii.eqb_spec x c) as [->|Hne]; [apply IH; assumption|].
    rewrite longest_run_replicate. cbn [longest_run].
    destruct (Ascii.eqb_spec x c) as [|_]; [congruence|].
    specialize (IH 0 Hk Hl). destruct (Nat.leb_spec least run); lia.
Qed.

(** Collapsing the runs of [c] makes no run of another character longer. *)
Lemma collapse_runs_other c c' least keep s : forall run k,
  c <> c' -> 0 < least -> 0 < keep ->
  longest_run c' k (collapse_runs c least keep run s)
  <= match run with
     | 0 => longest_run c' k s
     | S _ => Nat.max k (longest_run c' 0 s)
     end.
Proof.
  induction s as [|x s IH]; intros run k Hne Hl Hk; cbn [collapse_runs].
  - destruct run as [|run].
    + destruct (Nat.leb_spec least 0); [lia|]. cbn. lia.
    + rewrite <- (app_nil_r (replicate _ c)), longest_run_other; [cbn; lia|assumption|].
      destruct (Nat.leb_spec least (S run)); lia.
  - destruct (Ascii.eqb_spec x c) as [->|Hx].
    + etransitivity; [apply IH; assumption|]. cbn [longest_run].
      destruct (Ascii.eqb_spec c c') as [|_]; [congruence|].
      destruct run; lia.
    + destruct run as [|run].
      * destruct (Nat.leb_spec least 0); [lia|]. cbn [replicate app longest_run].
        destruct (Ascii.eqb x c').
        -- exact (IH 0 (S k) Hne Hl Hk).
        -- pose proof (IH 0 0 Hne Hl Hk). cbn beta iota in *. lia.
      * rewrite longest_run_other;
          [|assumption|destruct (Nat.leb_spec least (S run)); lia].
        cbn [longest_run]. destruct (Ascii.eqb x c').
        -- pose proof (IH 0 1 Hne Hl Hk). cbn beta iota in *. lia.
        -- pose proof (IH 0 0 Hne Hl Hk). cbn beta iota in *. lia.
Qed.

Lemma collapse_runs_head c least keep x s :
  x <> c -> 0 < least ->
  collapse_runs c least keep 0 (x :: s) = x :: collapse_runs c least keep 0 s.
Proof.
  intros Hx Hl. cbn [collapse_runs].
  destruct (Ascii.eqb_spec x c) as [|_]; [congruence|].
  destruct (Nat.leb_spec least 0); [lia|]. reflexivity.
Qed.

Lemma rstrip_prefix s : exists ws, s = rstrip s ++ ws.
Proof.
  unfold rstrip. destruct (lstrip_suffix (rev s)) as [ws H].
  exists (rev ws). rewrite <- rev_app_distr, <- H, rev_involutive. reflexivity.
Qed.

Lemma strip_infix s : exists a b, s = a ++ strip s ++ b.
Proof.
  unfold strip. destruct (lstrip_suffix s) as [a Ha].
  destruct (rstrip_prefix (lstrip s)) as [b Hb].
  exists a, b. rewrite <- Hb. exact Ha.
Qed.

Lemma strip_head_nonempty c s : is_space c = false -> strip (c :: s) <> [].
Proof.
  intros Hc. unfold strip. rewrite (lstrip_id _ _ Hc). unfold rstrip.
  intros H. apply (f_equal (@rev ascii)) in H. rewrite rev_involutive in H.
  cbn [rev] in H. destruct (lstrip_split (rev s ++ [c])) as (ws & Hws & Hsp).
  rewrite H, app_nil_r in Hws. subst ws.
  apply Forall_app in Hsp as [_ Hsp]. inversion Hsp; congruence.
Qed.

Lemma strip_first s :
  strip s = [] \/ exists c s', strip s = c :: s' /\ is_space c = false.
Proof.
  destruct (strip_ends s) as [H|[(c & Hc & H)|(c & mid & z & Hc & _ & H)]];
    [left; exact H|right; eauto..].
Qed.

Lemma join_head sep x p ps : exists rest, join sep ((x :: p) :: ps) = x :: rest.
Proof. destruct ps; cbn [join app]; eauto. Qed.

(** The raw text is the title only when the three fields are blank; else
    it is made of the fields and is not empty, has at most 12000
    characters, and holds neither two spaces nor three newlines in a row. *)
Theorem raw_text_for_llm_shape (row : gmap pystr pystr) :
  let text := raw_text_for_llm row in
  if forallb (fun p => negb (nonempty p)) (raw_text_fields row)
  then text = _get row "title"
  else text <> []
       /\ length text <= 12000
       /\ contains (lit "  ") text = false
       /\ contains [nl; nl; nl] text = false.
Proof.
  cbv zeta. unfold raw_text_for_llm, raw_text_fields.
  set (parts := [_get row "productDescription"; _get row "additionalInfo";
                 _get row "aboutProduct"]).
  set (blob := join [nl; nl] (filter (fun p => nonempty p = true) parts)).
  set (blob1 := collapse_runs nl 3 2 0 blob).
  set (blob2 := collapse_runs " "%char 2 1 0 blob1).
  destruct (forallb (fun p => negb (nonempty p)) parts) eqn:Hblank.
  - assert (blob = []) as ->.
    { subst blob parts. cbn [forallb] in Hblank.
      repeat (apply andb_true_iff in Hblank as [? Hblank]).
      repeat rewrite filter_cons.
      repeat match goal with
             | H : negb (nonempty ?p) = true |- _ =>
                 destruct p; [clear H|discriminate H]
             end.
      reflexivity. }
    reflexivity.
  - assert (exists x rest, blob = x :: rest /\ is_space x = false)
      as (x & rest & Hblob & Hx).
    { subst blob.
      assert (Forall (fun p => p = [] \/ exists c s, p = c :: s /\ is_space c = false)
                parts) as Hparts.
      { subst parts. unfold _get.
        do 3 (constructor; [apply strip_first|]). constructor. }
      clear blob1 blob2. induction Hparts as [|p ps Hp _ IH]; [discriminate|].
      cbn [forallb] in Hblank. rewrite filter_cons.
      destruct Hp as [->|(c & s & -> & Hc)].
      - cbn [nonempty negb andb] in Hblank.
        destruct (decide (nonempty [] = true)) as [[=]|_]. exact (IH Hblank).
      - destruct (decide (nonempty (c :: s) = true)) as [_|[]]; [|reflexivity].
        destruct (join_head [nl; nl] c s (filter (fun p => nonempty p = true) ps))
          as [rest' Hj].
        exists c, rest'. split; assumption. }
    assert (x <> nl) as Hnl by (intros ->; discriminate Hx).
    assert (x <> " "%char) as Hsp by (intros ->; discriminate Hx).
    assert (blob2 = x :: collapse_runs " "%char 2 1 0 (collapse_runs nl 3 2 0 rest))
      as Hhead.
    { subst blob2 blob1. rewrite Hblob.
      rewrite (collapse_runs_head nl 3 2 x rest Hnl) by lia.
      apply collapse_runs_head; [assumption|lia]. }
    assert (nonempty (strip (take 12000 blob2)) = true) as Hne.
    { rewrite Hhead.
      set (t := collapse_runs " "%char 2 1 0 (collapse_runs nl 3 2 0 rest)).
      replace (take 12000 (x :: t)) with (x :: take 11999 t) by reflexivity.
      destruct (strip (x :: take 11999 t)) eqn:E; [|reflexivity].
      destruct (strip_head_nonempty x (take 11999 t) Hx E). }
    rewrite Hne.
    destruct (strip_infix (take 12000 blob2)) as (a & b & Hinfix).
    assert (forall c, longest_run c 0 (strip (take 12000 blob2))
                      <= longest_run c 0 blob2) as Hruns.
    { intros c. etransitivity; [apply (longest_run_infix c a _ b)|].
      rewrite <- Hinfix. rewrite <- (take_drop 12000 blob2) at 2.
      apply longest_run_app_l. }
    split; [destruct (strip _); [discriminate|congruence]|]. split.
    + apply (f_equal (@length ascii)) in Hinfix.
      rewrite !length_app, length_take in Hinfix. lia.
    + split.
      * apply (no_long_run " "%char 2). specialize (Hruns " "%char).
        pose proof (collapse_runs_bound " "%char 2 1 1 blob1 0). subst blob2. lia.
      * apply (no_long_run nl 3). specialize (Hruns nl).
        pose proof (collapse_runs_other " "%char nl 2 1 blob1 0 0) as H1.
        pose proof (collapse_runs_bound nl 3 2 2 blob 0) as H2.
        cbn beta iota in H1. subst blob2 blob1.
        assert (" "%char <> nl) as Hd by discriminate. specialize (H1 Hd). lia.
Qed.

(** ** Prices that keep their value *)

Section Price_values.

Local Open Scope Z_scope.

Lemma digit_char_value c : is_digit c = true -> digit_char (digit_value c) = c.
Proof.
  destruct c as [[] [] [] [] [] [] [] []]; intros H; try discriminate H; reflexivity.
Qed.

(** The binary64 of a whole number up to [2^53] is that number. *)
Lemma float_of_ratio_whole_value n b m e :
  0 < n <= 2 ^ 53 -> 0 < b -> float_of_ratio (n * b) b = Finite m e ->
  0 <= e + 1074 /\ m * 2 ^ (e + 1074) = n * 2 ^ 1074.
Proof.
  intros Hn Hb E.
  assert (0 < n * b) as Hnb by nia.
  destruct (float_of_ratio_finite _ _ _ _ Hnb Hb E) as (Ht & Hm & _ & Hlow & _).
  cbv zeta in *. set (t := e + 1074) in *. split; [lia|].
  pose proof (pow2_pos t ltac:(lia)) as Hpt.
  destruct (Z.le_gt_cases t 1074) as [Hle|Hgt].
  - rewrite Hm, (pow2_split 1074 t) by lia.
    replace (n * b * (2 ^ (1074 - t) * 2 ^ t))
      with (n * 2 ^ (1074 - t) * (b * 2 ^ t)) by ring.
    rewrite round_half_even_exact by lia. ring.
  - destruct Hlow as [Hz|Hlow]; [lia|].
    assert (2 ^ 52 * 2 ^ t <= n * 2 ^ 1074) as Hlow'.
    { apply (cancel_le _ _ b Hb).
      replace (2 ^ 52 * 2 ^ t * b) with (2 ^ 52 * 2 ^ t * b) by ring.
      replace (n * 2 ^ 1074 * b) with (n * b * 2 ^ 1074) by ring. exact Hlow. }
    rewrite (pow2_split t 1074) in Hlow' by lia.
    pose proof (pow2_pos 1074 ltac:(lia)) as HK.
    assert (2 ^ 52 * 2 ^ (t - 1074) <= n) as Hlow''.
    { apply (cancel_le _ _ (2 ^ 1074) HK).
      replace (2 ^ 52 * 2 ^ (t - 1074) * 2 ^ 1074)
        with (2 ^ 52 * (2 ^ (t - 1074) * 2 ^ 1074)) by ring. exact Hlow'. }
    assert (t = 1075) as Ht1.
    { destruct (Z.le_gt_cases t 1075) as [|Hbig]; [lia|].
      assert (2 ^ 2 <= 2 ^ (t - 1074)) as Hp by (apply Z.pow_le_mono_r; lia).
      change (2 ^ 2) with 4 in Hp.
      assert (2 ^ 53 = 2 ^ 52 * 2) as H53 by reflexivity.
      clear - Hp Hlow'' Hn H53. set (P := 2 ^ (t - 1074)) in *.
      set (Q := 2 ^ 52) in *. set (R := 2 ^ 53) in *.
      assert (0 < Q) by (subst Q; reflexivity). nia. }
    assert (n = 2 ^ 53) as Hn53.
    { rewrite Ht1 in Hlow''. change (2 ^ (1075 - 1074)) with 2 in Hlow''.
      change (2 ^ 52 * 2) with (2 ^ 53) in Hlow''. lia. }
    rewrite Hm, Ht1, Hn53.
    replace (2 ^ 53 * b * 2 ^ 1074) with (2 ^ 52 * (b * 2 ^ 1075)).
    + rewrite round_half_even_exact; [reflexivity|].
      pose proof (pow2_pos 1075 ltac:(lia)). nia.
    + change (2 ^ 53) with (2 ^ 52 * 2). change (2 ^ 1075) with (2 * 2 ^ 1074). ring.
Qed.

(** A binary64 of whole value [n] is rendered as [n]. *)
Lemma render_whole m e n :
  0 <= e + 1074 -> m * 2 ^ (e + 1074) = n * 2 ^ 1074 ->
  int_of_float (Finite m e) = Ok n /\ float_eq_int (Finite m e) n = true.
Proof.
  intros He Hv. cbn. pose proof (pow2_pos 1074 ltac:(lia)) as HK.
  destruct (Z.leb_spec 0 e) as [Hpos|Hneg].
  - rewrite Z.pow_add_r in Hv by lia.
    assert (m * 2 ^ e = n) as ->.
    { apply (cancel_eq _ _ (2 ^ 1074) HK). rewrite <- Hv. ring. }
    rewrite Z.eqb_refl. auto.
  - pose proof (pow2_pos (- e) ltac:(lia)) as Hp.
    pose proof (pow2_pos (e + 1074) He) as Hu.
    rewrite (pow2_split 1074 (e + 1074)) in Hv by lia.
    replace (1074 - (e + 1074)) with (- e) in Hv by lia.
    assert (m = n * 2 ^ (- e)) as ->.
    { apply (cancel_eq _ _ (2 ^ (e + 1074)) Hu). rewrite Hv. ring. }
    rewrite Z.div_mul, Z.eqb_refl by lia. auto.
Qed.

Lemma normalize_price_whole_matched raw ip fp :
  match_price (strip (default [] raw)) = Some (ip, fp) ->
  whole_numeral fp -> digits_value ip <= 2 ^ 53 ->
  normalize_price raw = Ok (str_of_int (digits_value ip)).
Proof.
  intros Hmatch Hwhole Hmax. rewrite normalize_price_cases, Hmatch.
  destruct (float_of_group_ratio _ _ _ Hmatch) as (a & b & -> & Ha & Hb & _ & Hab).
  rewrite (Hab Hwhole) in *. clear Hab.
  destruct (Z.eq_dec (digits_value ip) 0) as [->|Hn0]; [reflexivity|].
  assert (0 < digits_value ip) as Hn by nia.
  destruct (float_of_ratio (digits_value ip * b) b) as [m e|] eqn:E.
  - destruct (float_of_ratio_whole_value _ _ _ _ (conj Hn Hmax) Hb E) as [He Hv].
    destruct (render_whole m e _ He Hv) as [-> Heq].
    unfold mbind, result_bind. rewrite Heq. reflexivity.
  - exfalso. apply float_of_ratio_infinite in E; [|nia|assumption].
    assert (2 ^ 53 < 2 ^ 1024 - 2 ^ 970) as Hbig by (vm_compute; reflexivity).
    clear - E Hmax Hbig Hb. set (M := 2 ^ 1024 - 2 ^ 970) in *.
    set (Q := 2 ^ 53) in *. nia.
Qed.

(** A price without a fraction, or with a fraction of zeros, and of a
    value up to [2^53], is returned as the decimal writing of that value:
    the dollar sign, the whitespace, the zeros in front and the fraction
    are dropped, and no digit is changed. *)
Theorem normalize_price_whole_exact (raw : option pystr) (ip : pystr)
    (fp : option pystr) :
  let s := strip (default [] raw) in
  price_shape s ip fp ->
  whole_numeral fp ->
  digits_value ip <= 2 ^ 53 ->
  normalize_price raw = Ok (str_of_int (digits_value ip)).
Proof.
  intros s Hshape. apply normalize_price_whole_matched.
  apply match_price_shape, Hshape.
Qed.

(** The binary64 nearest to [h / 100], for [h] below [100 * 2^46], is
    printed with two decimals as [h / 100] again. *)
Lemma float_of_cents h m e :
  0 < h < 100 * 2 ^ 46 -> float_of_ratio h 100 = Finite m e ->
  -1074 <= e < 0 /\ 0 <= m
  /\ round_half_even (100 * m) (2 ^ (- e)) = h.
Proof.
  intros Hh E.
  destruct (float_of_ratio_finite h 100 m e) as (Ht & Hm & _ & Hlow & Hmr & _);
    [lia|lia|exact E|].
  cbv zeta in *. set (t := e + 1074) in *.
  assert (t <= 1067) as Htmax.
  { destruct (Z.le_gt_cases t 1067) as [|Hbig]; [assumption|exfalso].
    destruct Hlow as [Hz|Hlow]; [lia|].
    assert (2 ^ 1068 <= 2 ^ t) as Hp by (apply Z.pow_le_mono_r; lia).
    assert (2 ^ 52 * 2 ^ 1068 = 2 ^ 46 * 2 ^ 1074) as Hc by (vm_compute; reflexivity).
    pose proof (pow2_pos 1074 ltac:(lia)) as HK.
    clear - Hp Hc Hlow Hh HK. set (P := 2 ^ t) in *. set (A := 2 ^ 1068) in *.
    set (K := 2 ^ 1074) in *. set (B := 2 ^ 52) in *. set (C := 2 ^ 46) in *.
    assert (0 < B) by (subst B; reflexivity). nia. }
  assert (e < 0) as Hneg by lia.
  split; [lia|]. split; [lia|].
  assert (2 ^ 7 <= 2 ^ (- e)) as HD by (apply Z.pow_le_mono_r; lia).
  change (2 ^ 7) with 128 in HD.
  pose proof (pow2_pos t ltac:(lia)) as Hpt.
  destruct (round_half_even_spec (h * 2 ^ 1074) (100 * 2 ^ t)) as [Hnear _]; [lia|].
  rewrite <- Hm in Hnear.
  replace (m * (100 * 2 ^ t) - h * 2 ^ 1074)
    with (100 * (m * 2 ^ (e + 1074)) - h * 2 ^ 1074) in Hnear by (subst t; ring).
  rewrite distance_scaled in Hnear by lia. fold t in Hnear.
  assert (2 * Z.abs (h * 2 ^ (- e) - 100 * m) <= 100) as Hd.
  { apply (cancel_le _ _ (2 ^ t) Hpt).
    replace (2 * Z.abs (h * 2 ^ (- e) - 100 * m) * 2 ^ t)
      with (2 * (Z.abs (h * 2 ^ (- e) - 100 * m) * 2 ^ t)) by ring. exact Hnear. }
  apply round_half_even_unique; lia.
Qed.

Lemma normalize_price_cents_matched raw ip d1 d2 :
  match_price (strip (default [] raw)) = Some (ip, Some [d1; d2]) ->
  digits_value ip < 2 ^ 46 ->
  normalize_price raw
  = Ok (if bool_decide ([d1; d2] = lit "00") then str_of_int (digits_value ip)
        else str_of_int (digits_value ip) ++ "."%char :: [d1; d2]).
Proof.
  intros Hmatch Hmax.
  destruct (match_price_inv _ _ _ Hmatch) as (_ & Hip & Hfp).
  destruct (Hfp _ eq_refl) as [_ Hds].
  inversion Hds as [|? ? Hd1 Hds']; subst. inversion Hds' as [|? ? Hd2 _]; subst.
  pose proof (digits_value_bound ip Hip) as [Hn0 _].
  destruct (bool_decide_reflect ([d1; d2] = lit "00")) as [Hzero|Hcents].
  - apply (normalize_price_whole_matched raw ip (Some [d1; d2]) Hmatch).
    + rewrite Hzero. repeat constructor.
    + assert (2 ^ 46 < 2 ^ 53) by reflexivity. lia.
  - rewrite normalize_price_cases, Hmatch. cbn [float_of_group length].
    change (10 ^ Z.of_nat 2) with 100. rewrite digits_value_app.
    change (10 ^ Z.of_nat (length [d1; d2])) with 100.
    change (digits_value [d1; d2])
      with (10 * (10 * 0 + digit_value d1) + digit_value d2).
    pose proof (is_digit_value d1 Hd1) as Hv1.
    pose proof (is_digit_value d2 Hd2) as Hv2.
    pose proof (digit_char_value d1 Hd1) as Hc1.
    pose proof (digit_char_value d2 Hd2) as Hc2.
    set (v1 := digit_value d1) in *. set (v2 := digit_value d2) in *.
    set (n := digits_value ip) in *.
    assert (10 * v1 + v2 <> 0) as Hnz.
    { intros Hz. apply Hcents. assert (v1 = 0) as E1 by lia.
      assert (v2 = 0) as E2 by lia. rewrite E1 in Hc1. rewrite E2 in Hc2.
      rewrite <- Hc1, <- Hc2. reflexivity. }
    set (h := n * 100 + (10 * (10 * 0 + v1) + v2)).
    assert (0 < h < 100 * 2 ^ 46) as Hh by (subst h; lia).
    destruct (float_of_ratio h 100) as [m e|] eqn:E.
    + destruct (float_of_cents h m e Hh E) as (He & Hm & Hround).
      pose proof (pow2_pos (- e) ltac:(lia)) as HD.
      cbn [int_of_float]. destruct (Z.leb_spec 0 e) as [|_]; [lia|].
      unfold mbind, result_bind. cbn [float_eq_int].
      destruct (Z.leb_spec 0 e) as [|_]; [lia|].
      destruct (Z.eqb_spec m (m / 2 ^ (- e) * 2 ^ (- e))) as [Hwhole|_].
      * exfalso. rewrite Hwhole in Hround.
        replace (100 * (m / 2 ^ (- e) * 2 ^ (- e)))
          with (100 * (m / 2 ^ (- e)) * 2 ^ (- e)) in Hround by ring.
        rewrite round_half_even_exact in Hround by lia. subst h. lia.
      * cbn [format_2f]. destruct (Z.leb_spec 0 e) as [|_]; [lia|].
        rewrite Hround.
        assert (h / 100 = n) as -> by (subst h; Z.div_mod_to_equations; lia).
        assert (h mod 100 / 10 = v1) as -> by (subst h; Z.div_mod_to_equations; lia).
        assert (h mod 10 = v2) as -> by (subst h; Z.div_mod_to_equations; lia).
        rewrite Hc1, Hc2. reflexivity.
    + exfalso. apply float_of_ratio_infinite in E; [|lia|lia].
      assert (100 * 2 ^ 46 < (2 ^ 1024 - 2 ^ 970) * 100) by (vm_compute; reflexivity).
      lia.
Qed.

(** A price with two decimals and fewer than [2^46] dollars keeps its
    value to the cent: it is returned as the dollars without zeros in
    front, followed by the same two decimals unless they are [00]. *)
Theorem normalize_price_keeps_cents (raw : option pystr) (ip : pystr)
    (d1 d2 : ascii) :
  let s := strip (default [] raw) in
  price_shape s ip (Some [d1; d2]) ->
  digits_value ip < 2 ^ 46 ->
  normalize_price raw
  = Ok (if bool_decide ([d1; d2] = lit "00") then str_of_int (digits_value ip)
        else str_of_int (digits_value ip) ++ "."%char :: [d1; d2]).
Proof.
  intros s Hshape. apply normalize_price_cents_matched.
  apply match_price_shape, Hshape.
Qed.

End Price_values.

(** ** The code fence of a response *)

Lemma rstrip_split s :
  exists ws, s = rstrip s ++ ws /\ Forall (fun c => is_space c = true) ws.
Proof.
  unfold rstrip. destruct (lstrip_split (rev s)) as (ws & H & Hws).
  exists (rev ws). split.
  - rewrite <- rev_app_distr, <- H, rev_involutive. reflexivity.
  - apply Forall_rev. exact Hws.
Qed.

Lemma rstrip_spaces s ws :
  Forall (fun c => is_space c = true) ws -> rstrip (s ++ ws) = rstrip s.
Proof.
  intros Hws. unfold rstrip. rewrite rev_app_distr, lstrip_spaces; [reflexivity|].
  apply Forall_rev. exact Hws.
Qed.

Lemma rstrip_all_spaces ws :
  Forall (fun c => is_space c = true) ws -> rstrip ws = [].
Proof. intros H. rewrite <- (app_nil_l ws), rstrip_spaces by assumption. reflexivity. Qed.

Lemma rstrip_last s :
  rstrip s = [] \/ exists p z, rstrip s = p ++ [z] /\ is_space z = false.
Proof.
  unfold rstrip. destruct (lstrip_head (rev s)) as [->|(c & s' & -> & Hc)].
  - left. reflexivity.
  - right. exists (rev s'), c. split; [reflexivity | assumption].
Qed.

(** [rstrip] keeps a first character that is followed by one that is not
    whitespace, or is not whitespace itself. *)
Lemma rstrip_cons c s :
  ~ Forall (fun c => is_space c = true) (c :: s) ->
  rstrip (c :: s) = c :: rstrip s.
Proof.
  intros Hns. destruct (rstrip_split s) as (ws & Hs & Hws).
  rewrite Hs at 1. rewrite app_comm_cons, rstrip_spaces by assumption.
  destruct (rstrip_last s) as [E|(p & z & E & Hz)]; rewrite E.
  - rewrite E in Hs. cbn [app] in Hs. subst ws.
    destruct (is_space c) eqn:Hc.
    + destruct Hns. constructor; assumption.
    + apply (rstrip_id [] c Hc).
  - rewrite app_comm_cons. apply rstrip_id, Hz.
Qed.

Lemma lstrip_app_mark s c r :
  is_space c = false -> lstrip (s ++ c :: r) = lstrip s ++ c :: r.
Proof.
  intros Hc. induction s as [|x s IH]; cbn [app lstrip].
  - rewrite Hc. reflexivity.
  - destruct (is_space x); [exact IH | reflexivity].
Qed.

Lemma lstrip_all_spaces ws :
  Forall (fun c => is_space c = true) ws -> lstrip ws = [].
Proof. intros H. rewrite <- (app_nil_r ws), lstrip_spaces by assumption. reflexivity. Qed.

Lemma lstrip_nil_iff s :
  lstrip s = [] <-> Forall (fun c => is_space c = true) s.
Proof.
  split; [|apply lstrip_all_spaces]. intros H. apply lstrip_nil_spaces.
  rewrite H. reflexivity.
Qed.

Lemma startswith_fence_head c r :
  c <> "`"%char -> startswith "```" (c :: r) = false.
Proof.
  intros Hc. change (Ascii.eqb "`"%char c && startswith "``" r = false).
  destruct (Ascii.eqb_spec "`"%char c) as [<-|_]; [congruence | reflexivity].
Qed.

(** Where a text without a backtick is followed by a closing fence, the
    closing pattern matches from its trailing whitespace on. *)
Lemma fence_close_at_body s ws :
  Forall (fun c => c <> "`"%char) s ->
  Forall (fun c => is_space c = true) ws ->
  fence_close_at (s ++ lit "```" ++ ws)
  = bool_decide (Forall (fun c => is_space c = true) s).
Proof.
  intros Hs Hws. unfold fence_close_at. cbv zeta.
  change (lit "```" ++ ws) with ("`"%char :: lit "``" ++ ws).
  rewrite lstrip_app_mark by reflexivity.
  destruct (bool_decide_reflect (Forall (fun c => is_space c = true) s)) as [Hsp|Hsp].
  - rewrite (lstrip_all_spaces s Hsp).
    change (negb (nonempty (lstrip ws)) = true).
    rewrite (lstrip_all_spaces ws Hws). reflexivity.
  - destruct (lstrip_head s) as [E|(c & s' & E & Hc)].
    + destruct Hsp. apply lstrip_nil_iff, E.
    + rewrite E. cbn [app].
      destruct (lstrip_suffix s) as [pre Hpre]. rewrite E in Hpre.
      rewrite Hpre in Hs. apply Forall_app in Hs as [_ Hs].
      inversion Hs as [|? ? Hc' _]; subst.
      rewrite (startswith_fence_head _ _ Hc'). reflexivity.
Qed.

Lemma fence_close_at_plain s :
  Forall (fun c => c <> "`"%char) s -> s <> [] -> fence_close_at s = false.
Proof.
  intros Hs Hne. unfold fence_close_at. cbv zeta.
  destruct (lstrip_head s) as [E|(c & s' & E & Hc)].
  - rewrite E. reflexivity.
  - rewrite E.
    destruct (lstrip_suffix s) as [pre Hpre]. rewrite E in Hpre.
    rewrite Hpre in Hs. apply Forall_app in Hs as [_ Hs].
    inversion Hs as [|? ? Hc' _]; subst.
    rewrite (startswith_fence_head _ _ Hc'). reflexivity.
Qed.

Lemma strip_fence_close_plain s :
  Forall (fun c => c <> "`"%char) s -> strip_fence_close s = s.
Proof.
  induction s as [|c s IH]; intros Hs; [reflexivity|].
  cbn [strip_fence_close]. rewrite (fence_close_at_plain _ Hs) by discriminate.
  inversion Hs; subst. rewrite IH by assumption. reflexivity.
Qed.

Lemma strip_fence_close_body s ws :
  Forall (fun c => c <> "`"%char) s ->
  Forall (fun c => is_space c = true) ws ->
  strip_fence_close (s ++ lit "```" ++ ws) = rstrip s.
Proof.
  intros Hs Hws. induction s as [|c s IH].
  - change (strip_fence_close ([] ++ lit "```" ++ ws))
      with (if fence_close_at ([] ++ lit "```" ++ ws) then []
            else "`"%char :: strip_fence_close (lit "``" ++ ws)).
    rewrite (fence_close_at_body [] ws) by (constructor || assumption).
    reflexivity.
  - change (strip_fence_close ((c :: s) ++ lit "```" ++ ws))
      with (if fence_close_at ((c :: s) ++ lit "```" ++ ws) then []
            else c :: strip_fence_close (s ++ lit "```" ++ ws)).
    rewrite (fence_close_at_body (c :: s) ws Hs Hws).
    destruct (bool_decide_reflect (Forall (fun c => is_space c = true) (c :: s)))
      as [Hsp|Hsp].
    + symmetry. apply rstrip_all_spaces, Hsp.
    + inversion Hs; subst. rewrite IH by assumption. symmetry.
      apply rstrip_cons, Hsp.
Qed.

Lemma startswith_plain p s :
  Forall (fun c => c <> "`"%char) s -> startswith ("`"%char :: p) s = false.
Proof.
  intros Hs. destruct s as [|c s]; [reflexivity|]. cbn [startswith].
  inversion Hs; subst.
  destruct (Ascii.eqb_spec "`"%char c) as [<-|_]; [congruence | reflexivity].
Qed.

(** A response without a backtick is read as it is, stripped; only its
    first content block counts. *)
Theorem response_text_plain (text : pystr) (others : list pystr) :
  Forall (fun c => c <> "`"%char) text ->
  response_text (text :: others) = strip text.
Proof.
  intros Hplain. unfold response_text, strip_fence_open.
  change (lit "```") with ("`"%char :: lit "``").
  rewrite startswith_plain by assumption.
  rewrite strip_fence_close_plain by assumption. reflexivity.
Qed.

(** A response wrapped in a code fence, opened by three backticks or by
    three backticks and [json] and closed by three backticks and optional
    whitespace, is read as what the fence holds, stripped. *)
Theorem response_text_fenced (tag body ws : pystr) (others : list pystr) :
  Forall (fun c => c <> "`"%char) body ->
  Forall (fun c => is_space c = true) ws ->
  tag = lit "json" \/ (tag = [] /\ startswith "json" body = false) ->
  response_text ((lit "```" ++ tag ++ body ++ lit "```" ++ ws) :: others)
  = strip body.
Proof.
  intros Hbody Hws Htag. unfold response_text, strip_fence_open.
  change (startswith "```" (lit "```" ++ tag ++ body ++ lit "```" ++ ws)) with true.
  cbv iota zeta.
  change (drop 3 (lit "```" ++ tag ++ body ++ lit "```" ++ ws))
    with (tag ++ body ++ lit "```" ++ ws).
  assert ((if startswith "json" (tag ++ body ++ lit "```" ++ ws)
           then drop 4 (tag ++ body ++ lit "```" ++ ws)
           else tag ++ body ++ lit "```" ++ ws)
          = body ++ lit "```" ++ ws) as ->.
  { destruct Htag as [->|[-> Hno]]; [reflexivity|]. cbn [app].
    assert (startswith "json" (body ++ lit "```" ++ ws) = false) as ->;
      [|reflexivity].
    destruct body as [|a [|b [|c [|d body]]]]; try reflexivity;
      cbn [app].
    - change (Ascii.eqb "j" a && false = false). apply andb_false_r.
    - change (Ascii.eqb "j" a && (Ascii.eqb "s" b && false) = false).
      rewrite !andb_false_r. reflexivity.
    - change (Ascii.eqb "j" a && (Ascii.eqb "s" b && (Ascii.eqb "o" c && false))
              = false).
      rewrite !andb_false_r. reflexivity.
    - exact Hno. }
  change (lit "```" ++ ws) with ("`"%char :: lit "``" ++ ws).
  rewrite lstrip_app_mark by reflexivity.
  change ("`"%char :: lit "``" ++ ws) with (lit "```" ++ ws).
  assert (Forall (fun c => c <> "`"%char) (lstrip body)) as Hl.
  { destruct (lstrip_suffix body) as [pre Hpre]. rewrite Hpre in Hbody.
    apply Forall_app in Hbody as [_ H]. exact H. }
  rewrite (strip_fence_close_body _ ws Hl Hws). apply strip_idem.
Qed.

(** ** Keyword labels *)

Lemma norm_app s t : norm (s ++ t) = norm s ++ norm t.
Proof. unfold norm, replace_char. rewrite lower_app, flat_map_app. reflexivity. Qed.

Lemma infix_contains needle a b : contains needle (a ++ needle ++ b) = true.
Proof.
  induction a as [|x a IH]; cbn [app].
  - destruct (needle ++ b) eqn:E; cbn [contains]; rewrite <- ?E, startswith_app;
      reflexivity.
  - cbn [contains]. rewrite IH. apply orb_true_r.
Qed.

Lemma contains_trans a b c :
  contains a b = true -> contains b c = true -> contains a c = true.
Proof.
  intros Hab Hbc. apply contains_infix in Hab as (p & q & ->).
  apply contains_infix in Hbc as (p' & q' & ->).
  replace (p' ++ (p ++ a ++ q) ++ q') with ((p' ++ p) ++ a ++ (q ++ q'))
    by (rewrite <- !app_assoc; reflexivity).
  apply infix_contains.
Qed.

Lemma fallback_labels_matched title raw_text :
  _fallback_labels title raw_text
  = join "," (map lower (matched_labels title raw_text)).
Proof.
  unfold _fallback_labels, matched_labels. cbv zeta.
  destruct (filter _ ALLOWED_LABELS) as [|l ls]; [reflexivity|].
  apply lower_join_comma.
Qed.

(** The keyword labels depend on the title and the raw text only up to
    case and to hyphens, which count as spaces. *)
Theorem fallback_labels_ignore_case_and_hyphens (title title' raw_text raw_text' : pystr) :
  norm title = norm title' ->
  norm raw_text = norm raw_text' ->
  _fallback_labels title raw_text = _fallback_labels title' raw_text'.
Proof.
  intros Ht Hr. unfold _fallback_labels. cbv zeta.
  rewrite !norm_app, Ht, Hr. reflexivity.
Qed.

(** The keyword labels are the allowed labels whose text occurs in the
    title or the raw text, in the order of the list; the occurrence need
    not be a whole word, so a label is matched whenever a matched label
    contains it: [Hyperpigmentation] with
    [Post-inflammatory hyperpigmentation]. *)
Theorem fallback_labels_by_substring (title raw_text : pystr) :
  _fallback_labels title raw_text
  = join "," (map lower (matched_labels title raw_text))
  /\ forall l l',
       l ∈ matched_labels title raw_text ->
       l' ∈ ALLOWED_LABELS ->
       contains (norm l') (norm l) = true ->
       l' ∈ matched_labels title raw_text.
Proof.
  split; [apply fallback_labels_matched|].
  intros l l' Hl Hl' Hsub. unfold matched_labels in *.
  apply list_elem_of_filter in Hl as [Hl _].
  apply list_elem_of_filter. split; [|exact Hl'].
  exact (contains_trans _ _ _ Hsub Hl).
Qed.

(** ** The environment file *)

Lemma environ_setdefault_subseteq environ key value environ' :
  environ_setdefault environ key value = inr environ' -> environ ⊆ environ'.
Proof.
  unfold environ_setdefault. destruct (environ !! key) eqn:E.
  - intros [= <-]. reflexivity.
  - destruct (_ || _); [discriminate|]. destruct (nonempty key); [|discriminate].
    intros [= <-]. apply insert_subseteq, E.
Qed.

Lemma load_line_subseteq environ line environ' :
  load_line environ line = inr environ' -> environ ⊆ environ'.
Proof.
  unfold load_line. cbv zeta. destruct (_ && _).
  - destruct (split_first _ _) as [k v]. apply environ_setdefault_subseteq.
  - intros [= <-]. reflexivity.
Qed.

Lemma load_lines_subseteq lines : forall environ environ',
  load_lines environ lines = inr environ' -> environ ⊆ environ'.
Proof.
  induction lines as [|line lines IH]; intros environ environ'; cbn [load_lines].
  - intros [= <-]. reflexivity.
  - destruct (load_line environ line) as [e|environ1] eqn:E; [discriminate|].
    intros H. transitivity environ1; [exact (load_line_subseteq _ _ _ E)|].
    exact (IH _ _ H).
Qed.

(** A variable of the environment is never changed by the load: when it
    ends, every variable that was set has the value it had. *)
Theorem load_dotenv_keeps_variables (here sibling : option pystr)
    (environ environ' : gmap pystr pystr) :
  _load_dotenv here sibling environ = inr environ' ->
  environ ⊆ environ'.
Proof.
  unfold _load_dotenv. cbn [load_first].
  destruct here as [content|]; [apply load_lines_subseteq|].
  destruct sibling as [content|]; [apply load_lines_subseteq|].
  intros [= <-]. reflexivity.
Qed.

Lemma strip_app_spaces s ws :
  Forall (fun c => is_space c = true) ws -> strip (s ++ ws) = strip s.
Proof.
  intros Hws. unfold strip.
  destruct (lstrip_split s) as (pre & Hs & Hpre).
  destruct (lstrip_head s) as [E|(c & s' & E & Hc)].
  - rewrite E in *. rewrite app_nil_r in Hs. subst pre.
    rewrite (lstrip_all_spaces (s ++ ws)); [reflexivity|].
    apply Forall_app. split; assumption.
  - rewrite E in *. rewrite Hs at 1. rewrite <- app_assoc, lstrip_spaces by assumption.
    cbn [app]. rewrite (lstrip_id _ _ Hc), app_comm_cons.
    apply rstrip_spaces, Hws.
Qed.

Lemma rstrip_app_mark a c b :
  is_space c = false -> rstrip (a ++ c :: b) = a ++ c :: rstrip b.
Proof.
  intros Hc. unfold rstrip. rewrite rev_app_distr. cbn [rev].
  rewrite <- app_assoc. cbn [app]. rewrite lstrip_app_mark by assumption.
  rewrite rev_app_distr. cbn [rev]. rewrite rev_involutive, <- app_assoc.
  reflexivity.
Qed.

Lemma rstrip_idem s : rstrip (rstrip s) = rstrip s.
Proof.
  destruct (rstrip_last s) as [->|(p & z & -> & Hz)]; [reflexivity|].
  apply rstrip_id, Hz.
Qed.

Lemma strip_fixed s : strip s = s -> lstrip s = s /\ rstrip s = s.
Proof.
  intros H. split.
  - destruct (strip_first s) as [E|(c & s' & E & Hc)]; rewrite H in E; subst s;
      [reflexivity | apply lstrip_id, Hc].
  - rewrite <- H at 1. unfold strip. rewrite rstrip_idem. exact H.
Qed.

Lemma contains_single c s :
  Forall (fun x => x <> c) s -> contains [c] s = false.
Proof.
  induction 1 as [|x s Hx _ IH]; [reflexivity|]. cbn [contains startswith].
  rewrite IH. destruct (Ascii.eqb_spec c x) as [->|_]; [congruence | reflexivity].
Qed.

Lemma lstrip_char_fixed q s : head s <> Some q -> lstrip_char q s = s.
Proof.
  destruct s as [|c s]; [reflexivity|]. intros Hh. cbn [lstrip_char].
  destruct (Ascii.eqb_spec c q) as [->|_]; [destruct Hh | ]; reflexivity.
Qed.

Lemma head_app_l (s t : pystr) : s <> [] -> head (s ++ t) = head s.
Proof. destruct s; [congruence | reflexivity]. Qed.

Lemma strip_char_id q v :
  head v <> Some q -> last v <> Some q -> strip_char q v = v.
Proof.
  intros Hh Hl. unfold strip_char. rewrite (lstrip_char_fixed q v Hh).
  destruct v as [|c v _] using rev_ind; [reflexivity|].
  rewrite last_snoc in Hl. rewrite rev_unit.
  rewrite (lstrip_char_fixed q (c :: rev v)) by (cbn; congruence).
  cbn [rev]. rewrite rev_involutive. reflexivity.
Qed.

Lemma strip_char_quoted q v :
  head v <> Some q -> last v <> Some q -> strip_char q (q :: v ++ [q]) = v.
Proof.
  intros Hh Hl. unfold strip_char. cbn [lstrip_char]. rewrite Ascii.eqb_refl.
  destruct v as [|c v _] using rev_ind.
  - cbn [app lstrip_char]. rewrite Ascii.eqb_refl. reflexivity.
  - rewrite last_snoc in Hl.
    rewrite (lstrip_char_fixed q ((v ++ [c]) ++ [q]))
      by (rewrite head_app_l; [assumption | destruct v; discriminate]).
    rewrite rev_unit. cbn [lstrip_char]. rewrite Ascii.eqb_refl, rev_unit.
    rewrite (lstrip_char_fixed q (c :: rev v)) by (cbn; congruence).
    cbn [rev]. rewrite rev_involutive. reflexivity.
Qed.

Lemma line_value_quoted q v :
  env_value q v -> strip (q ++ v ++ q) = q ++ v ++ q /\ line_value (q ++ v ++ q) = v.
Proof.
  intros (Hq & _ & [Hh1 Hh2] & [Hl1 Hl2]). unfold line_value.
  destruct Hq as [[-> Hs]|[->| ->]]; cbn [app].
  - rewrite app_nil_r, Hs. split; [reflexivity|].
    rewrite (strip_char_id dquote), (strip_char_id "'"%char); auto.
  - rewrite strip_id_ends by reflexivity. split; [reflexivity|].
    rewrite strip_char_quoted, (strip_char_id "'"%char); auto.
  - rewrite strip_id_ends by reflexivity. split; [reflexivity|].
    rewrite (strip_char_id dquote).
    + apply strip_char_quoted; assumption.
    + discriminate.
    + rewrite app_comm_cons, last_snoc. discriminate.
Qed.

(** A line [NAME=value], with the value bare or between a pair of quotes
    and with whitespace or a newline after it, sets the variable to the
    value without the quotes when it is not set. *)
Theorem load_line_sets_variable (environ : gmap pystr pystr)
    (k q v ws : pystr) :
  env_name k ->
  env_value q v ->
  Forall (fun c => is_space c = true) ws ->
  environ !! k = None ->
  load_line environ (k ++ lit "=" ++ q ++ v ++ q ++ ws)
  = inr (<[k := v]> environ).
Proof.
  intros (Hne & Hstrip & Hhash & Hk) Hv Hws Hunset.
  destruct (line_value_quoted q v Hv) as [Hw Hval].
  destruct Hv as (_ & Hvc & _). set (w := q ++ v ++ q) in *.
  destruct (strip_fixed k Hstrip) as [Hlk _].
  destruct (strip_fixed w Hw) as [_ Hrw].
  destruct k as [|c k']; [congruence|]. clear Hne.
  assert (is_space c = false) as Hc.
  { destruct (is_space c) eqn:E; [|reflexivity]. cbn [lstrip] in Hlk.
    rewrite E in Hlk. destruct (lstrip_suffix k') as [pre Hpre].
    apply (f_equal (@length ascii)) in Hpre. rewrite Hlk, length_app in Hpre.
    cbn [length] in Hpre. lia. }
  unfold load_line. cbv zeta.
  assert (strip ((c :: k') ++ lit "=" ++ q ++ v ++ q ++ ws)
          = (c :: k') ++ "="%char :: w) as ->.
  { replace ((c :: k') ++ lit "=" ++ q ++ v ++ q ++ ws)
      with (((c :: k') ++ "="%char :: w) ++ ws)
      by (subst w; change (lit "=") with ["="%char]; cbn [app];
          rewrite <- !app_assoc; cbn [app]; rewrite <- !app_assoc; reflexivity).
    rewrite strip_app_spaces by assumption. unfold strip.
    cbn [app]. rewrite (lstrip_id _ _ Hc), app_comm_cons.
    rewrite rstrip_app_mark by reflexivity. rewrite Hrw. reflexivity. }
  assert (startswith "#" ((c :: k') ++ "="%char :: w) = false) as ->.
  { change (Ascii.eqb "#" c && true = false) in Hhash.
    change (Ascii.eqb "#" c && true = false). exact Hhash. }
  change (lit "=") with ["="%char].
  change ((c :: k') ++ "="%char :: w) with ((c :: k') ++ ["="%char] ++ w).
  rewrite (infix_contains ["="%char] (c :: k') w).
  change (nonempty ((c :: k') ++ ["="%char] ++ w)) with true.
  cbn [negb andb]. unfold split_first, before_first.
  change ((c :: k') ++ ["="%char] ++ w) with ((c :: k') ++ "="%char :: w).
  rewrite (span_app (fun x => negb (Ascii.eqb x "=")) (c :: k') ("="%char :: w)).
  2:{ eapply Forall_impl; [exact Hk|]. intros x [Hx _].
      destruct (Ascii.eqb_spec x "="%char); [congruence | reflexivity]. }
  2:{ intros x r' [= <- _]. reflexivity. }
  cbv beta iota delta [fst snd].
  change (drop 1 ("="%char :: w)) with w. rewrite Hval, Hstrip.
  rewrite (contains_single nl v) by (eapply Forall_impl; [exact Hvc|]; intros x [? _]; assumption).
  unfold environ_setdefault. rewrite Hunset. change (lit "=") with ["="%char].
  rewrite (contains_single nul (c :: k'))
    by (eapply Forall_impl; [exact Hk|]; intros x [_ ?]; assumption).
  rewrite (contains_single nul v)
    by (eapply Forall_impl; [exact Hvc|]; intros x [_ ?]; assumption).
  rewrite (contains_single "="%char (c :: k'))
    by (eapply Forall_impl; [exact Hk|]; intros x [? _]; assumption).
  reflexivity.
Qed.

Lemma load_line_no_empty_name environ line environ' :
  environ !! [] = None -> load_line environ line = inr environ' ->
  environ' !! [] = None.
Proof.
  intros Hnone. unfold load_line. cbv zeta. destruct (_ && _).
  - destruct (split_first _ _) as [k v]. unfold environ_setdefault.
    destruct (environ !! strip k) eqn:E; [intros [= <-]; exact Hnone|].
    destruct (_ || _); [discriminate|].
    destruct (strip k) as [|c k'] eqn:Ek; [discriminate|].
    intros [= <-]. rewrite lookup_insert_ne by discriminate. exact Hnone.
  - intros [= <-]. exact Hnone.
Qed.

Lemma load_line_empty_name environ line :
  environ !! [] = None -> startswith "=" (strip line) = true ->
  exists e, load_line environ line = inl e.
Proof.
  intros Hnone Hstart. unfold load_line. cbv zeta.
  destruct (strip line) as [|c r] eqn:E; [discriminate|].
  change (Ascii.eqb "=" c && true = true) in Hstart.
  rewrite andb_true_r in Hstart. apply Ascii.eqb_eq in Hstart. subst c.
  change (startswith "#" ("="%char :: r)) with false.
  change (contains "=" ("="%char :: r)) with true.
  cbn [nonempty negb andb].
  change (split_first "=" ("="%char :: r)) with ([] : pystr, r).
  cbv iota beta. change (strip []) with ([] : pystr).
  unfold environ_setdefault. rewrite Hnone.
  destruct (_ || _); eauto.
Qed.

Lemma load_lines_empty_name lines line : forall environ,
  environ !! [] = None -> line ∈ lines ->
  startswith "=" (strip line) = true ->
  exists e, load_lines environ lines = inl e.
Proof.
  induction lines as [|l lines IH]; intros environ Hnone Hin Hstart.
  - apply elem_of_nil in Hin. destruct Hin.
  - cbn [load_lines]. destruct (load_line environ l) as [e|environ1] eqn:E; [eauto|].
    apply elem_of_cons in Hin as [<-|Hin].
    + destruct (load_line_empty_name environ line Hnone Hstart) as [e He].
      congruence.
    + apply (IH environ1); [|assumption..].
      exact (load_line_no_empty_name _ _ _ Hnone E).
Qed.

(** A line of the file that starts with [=], so that the name is empty,
    makes the load fail with an exception, whatever the other lines are. *)
Theorem load_dotenv_empty_name_fails (here sibling : option pystr)
    (content line : pystr) (environ : gmap pystr pystr) :
  env_file here sibling = Some content ->
  line ∈ file_lines [] (universal_newlines content) ->
  startswith "=" (strip line) = true ->
  environ !! [] = None ->
  exists e, _load_dotenv here sibling environ = inl e.
Proof.
  intros Hfile Hin Hstart Hnone. unfold _load_dotenv. cbn [load_first].
  destruct here as [c|]; cbn [env_file] in Hfile.
  - injection Hfile as ->. exact (load_lines_empty_name _ _ _ Hnone Hin Hstart).
  - subst sibling. exact (load_lines_empty_name _ _ _ Hnone Hin Hstart).
Qed.

(** The lines of a file hold a newline at their end only. *)
Lemma file_lines_spec s : forall acc,
  Forall (fun c => c <> nl) acc ->
  Forall (fun line => exists body ws,
              line = body ++ ws /\ Forall (fun c => c <> nl) body
              /\ Forall (fun c => is_space c = true) ws)
    (file_lines acc s).
Proof.
  induction s as [|c s IH]; intros acc Hacc; cbn [file_lines].
  - destruct acc; constructor; [|constructor].
    eexists _, []. rewrite app_nil_r. repeat split; [assumption | constructor].
  - destruct (Ascii.eqb_spec c nl) as [->|Hc].
    + constructor; [|apply IH; constructor].
      exists acc, [nl]. repeat split; [assumption|]. repeat constructor.
    + apply IH. apply Forall_app. split; [assumption|]. repeat constructor. exact Hc.
Qed.

Lemma lstrip_char_suffix q s : exists pre, s = pre ++ lstrip_char q s.
Proof.
  induction s as [|c s [pre IH]]; [exists []; reflexivity|]. cbn [lstrip_char].
  destruct (Ascii.eqb c q); [|exists []; reflexivity].
  exists (c :: pre). cbn [app]. rewrite <- IH. reflexivity.
Qed.

Lemma strip_char_infix q s : exists a b, s = a ++ strip_char q s ++ b.
Proof.
  unfold strip_char. destruct (lstrip_char_suffix q s) as [a Ha].
  destruct (lstrip_char_suffix q (rev (lstrip_char q s))) as [b Hb].
  exists a, (rev b). rewrite <- rev_app_distr, <- Hb, rev_involutive. exact Ha.
Qed.

Lemma Forall_infix {A} (P : A -> Prop) (a s b : list A) :
  Forall P (a ++ s ++ b) -> Forall P s.
Proof. intros H. apply Forall_app in H as [_ H]. apply Forall_app in H as [H _]. exact H. Qed.

(** The value read from a line of a file never holds a newline: the test
    for one in [_load_dotenv] never succeeds. *)
Theorem load_dotenv_value_without_newline (text line : pystr) :
  line ∈ file_lines [] text ->
  contains [nl] (line_value (split_first "="%char (strip line)).2) = false.
Proof.
  intros Hin.
  pose proof (file_lines_spec text [] (Forall_nil_2 _)) as Hlines.
  rewrite Forall_forall in Hlines.
  destruct (Hlines line Hin) as (body & ws & -> & Hbody & Hws).
  rewrite strip_app_spaces by assumption.
  assert (Forall (fun c => c <> nl) (strip body)) as Hs.
  { destruct (strip_infix body) as (a & b & E). rewrite E in Hbody.
    exact (Forall_infix _ _ _ _ Hbody). }
  apply contains_single. unfold split_first, line_value. cbn [snd].
  destruct (span (fun c => negb (Ascii.eqb c "=")) (strip body)) as [p r] eqn:Esp.
  apply span_spec in Esp as (E & _ & _). rewrite E in Hs.
  apply Forall_app in Hs as [_ Hr]. cbn [snd].
  assert (Forall (fun c => c <> nl) (drop 1 r)) as Hv
    by (destruct r; [constructor | inversion Hr; assumption]).
  destruct (strip_infix (drop 1 r)) as (a1 & b1 & E1). rewrite E1 in Hv.
  apply Forall_infix in Hv.
  destruct (strip_char_infix dquote (strip (drop 1 r))) as (a2 & b2 & E2).
  rewrite E2 in Hv. apply Forall_infix in Hv.
  destruct (strip_char_infix "'"%char (strip_char dquote (strip (drop 1 r))))
    as (a3 & b3 & E3).
  rewrite E3 in Hv. apply Forall_infix in Hv. exact Hv.
Qed.

(** ** The prices that overflow *)

Section Price_overflow.

Local Open Scope Z_scope.

(** From [2^1024 - 2^970] on, half an ulp below [2^1024], the nearest
    binary64 is infinite. *)
Lemma float_of_ratio_overflow a b :
  0 < b -> (2 ^ 1024 - 2 ^ 970) * b <= a -> float_of_ratio a b = Infinity.
Proof.
  intros Hb Hbig.
  assert (0 < 2 ^ 1024 - 2 ^ 970) as HM by (vm_compute; reflexivity).
  assert (0 < a) as Ha by nia.
  destruct (float_of_ratio a b) as [m e|] eqn:E; [exfalso|reflexivity].
  destruct (float_of_ratio_finite a b m e Ha Hb E) as (Ht & Hm & Hub & _ & Hmr & Hmax).
  cbv zeta in *. set (t := e + 1074) in *.
  assert ((2 ^ 1024 - 2 ^ 970) * 2 ^ 1074 = (2 ^ 54 - 1) * 2 ^ 2044) as Hc
    by (vm_compute; reflexivity).
  pose proof (pow2_pos 1074 ltac:(lia)) as HK.
  assert ((2 ^ 54 - 1) * 2 ^ 2044 * b <= a * 2 ^ 1074) as Hx.
  { rewrite <- Hc. clear - Hbig HK. set (M := 2 ^ 1024 - 2 ^ 970) in *.
    set (K := 2 ^ 1074) in *. nia. }
  assert (t = 2045) as Ht1.
  { destruct (Z.eq_dec t 2045) as [|Hn]; [assumption|exfalso].
    assert (2 ^ t <= 2 ^ 2044) as Hp by (apply Z.pow_le_mono_r; lia).
    assert (2 ^ 53 < 2 ^ 54 - 1) as H53 by (vm_compute; reflexivity).
    pose proof (pow2_pos 2044 ltac:(lia)) as H2044.
    pose proof (pow2_pos t ltac:(lia)) as Hpt.
    clear - Hx Hub Hp H53 Hb H2044 Hpt.
    set (P := 2 ^ t) in *. set (Q := 2 ^ 2044) in *. set (X := a * 2 ^ 1074) in *.
    set (A := 2 ^ 53) in *. set (B := 2 ^ 54 - 1) in *.
    assert (A * P * b <= A * Q * b) by nia.
    assert (A * Q * b < B * Q * b) by nia. nia. }
  specialize (Hmax Ht1).
  assert (0 < b * 2 ^ t) as HB by (pose proof (pow2_pos t ltac:(lia)); nia).
  destruct (round_half_even_spec (a * 2 ^ 1074) (b * 2 ^ t) HB) as [Hnear Htie].
  rewrite <- Hm in Hnear, Htie.
  assert (2 ^ 2045 = 2 * 2 ^ 2044) as H2045 by (vm_compute; reflexivity).
  rewrite Ht1, H2045 in *.
  pose proof (pow2_pos 2044 ltac:(lia)) as H2044.
  assert (2 ^ 54 = 2 * 2 ^ 53) as H54 by reflexivity.
  assert (Z.even (2 ^ 53 - 1) = false) as Hodd by reflexivity.
  clear - Hx Hnear Htie Hmax Hmr Hb H2044 H54 Hodd.
  set (Q := 2 ^ 2044) in *. set (X := a * 2 ^ 1074) in *.
  set (A := 2 ^ 53) in *. rewrite H54 in Hx. clear H54.
  assert (m * (b * (2 * Q)) <= (A - 1) * (b * (2 * Q))) as Hle by nia.
  assert ((A - 1) * (b * (2 * Q)) + b * Q = (2 * A - 1) * Q * b) as Hmid by ring.
  assert (m * (b * (2 * Q)) - X <= - (b * Q)) as Hneg by lia.
  assert (2 * Z.abs (m * (b * (2 * Q)) - X) = b * (2 * Q)) as Heq by lia.
  specialize (Htie Heq).
  assert (m = A - 1) as -> by nia.
  congruence.
Qed.

Lemma normalize_price_overflow_matched raw ip fp :
  match_price (strip (default [] raw)) = Some (ip, fp) ->
  normalize_price raw = Raise OverflowError
  <-> (2 ^ 1024 - 2 ^ 970) * 10 ^ Z.of_nat (length (default [] fp))
      <= digits_value (ip ++ default [] fp).
Proof.
  intros Hmatch. rewrite normalize_price_cases, Hmatch.
  assert (float_of_group (ip, fp)
          = float_of_ratio (digits_value (ip ++ default [] fp))
              (10 ^ Z.of_nat (length (default [] fp)))) as ->.
  { destruct fp as [f|]; cbn [float_of_group default]; [reflexivity|].
    rewrite app_nil_r. reflexivity. }
  set (a := digits_value (ip ++ default [] fp)).
  set (b := 10 ^ Z.of_nat (length (default [] fp))).
  assert (0 < b) as Hb by (apply Z.pow_pos_nonneg; lia).
  assert (0 < 2 ^ 1024 - 2 ^ 970) as HM by (vm_compute; reflexivity).
  split.
  - intros Hraise. destruct (Z.eq_dec a 0) as [Ha0|Ha0].
    + rewrite Ha0 in Hraise. discriminate Hraise.
    + destruct (match_price_inv _ _ _ Hmatch) as (_ & Hip & Hfp).
      assert (0 <= a) as Ha.
      { apply digits_value_bound. apply Forall_app. split; [assumption|].
        destruct fp as [f|]; [apply (Hfp f eq_refl) | constructor]. }
      destruct (float_of_ratio a b) as [m e|] eqn:E.
      * cbn [int_of_float] in Hraise. unfold mbind, result_bind in Hraise.
        destruct (float_eq_int _ _); discriminate Hraise.
      * apply float_of_ratio_infinite; [lia | assumption | exact E].
  - intros Hbig. rewrite (float_of_ratio_overflow a b Hb Hbig). reflexivity.
Qed.

(** A price makes [normalize_price] raise [OverflowError] exactly when its
    value is at least [2^1024 - 2^970]: the numeral of its digits, the
    fraction digits included, is at least that many times the power of
    ten of the number of fraction digits. *)
Theorem normalize_price_overflow (raw : option pystr) (ip : pystr)
    (fp : option pystr) :
  let s := strip (default [] raw) in
  price_shape s ip fp ->
  normalize_price raw = Raise OverflowError
  <-> (2 ^ 1024 - 2 ^ 970) * 10 ^ Z.of_nat (length (default [] fp))
      <= digits_value (ip ++ default [] fp).
Proof.
  intros s Hshape. apply normalize_price_overflow_matched.
  apply match_price_shape, Hshape.
Qed.

End Price_overflow.

(** ** Newlines of a description *)

Lemma unescape_newlines_head s :
  forall x, head (unescape_newlines s) = Some x ->
            head s = Some x \/ x = nl.
Proof.
  destruct s as [|c [|d rest]]; cbn [unescape_newlines head]; intros x.
  - discriminate.
  - intros [= <-]. left. reflexivity.
  - destruct (Ascii.eqb c backslash && Ascii.eqb d "n"); cbn [head];
      intros [= <-]; auto.
Qed.

Lemma unescape_newlines_step c d rest :
  unescape_newlines (c :: d :: rest)
  = if Ascii.eqb c backslash && Ascii.eqb d "n"
    then nl :: unescape_newlines rest
    else c :: unescape_newlines (d :: rest).
Proof. reflexivity. Qed.

Lemma unescape_newlines_no_pair n : forall s,
  length s <= n ->
  contains [backslash; "n"%char] (unescape_newlines s) = false.
Proof.
  induction n as [|n IH]; intros s Hlen.
  - destruct s; [reflexivity | cbn in Hlen; lia].
  - destruct s as [|c [|d rest]]; [reflexivity| |].
    + cbn [unescape_newlines contains startswith].
      rewrite andb_false_r. reflexivity.
    + cbn [length] in Hlen. rewrite unescape_newlines_step.
      destruct (Ascii.eqb c backslash && Ascii.eqb d "n") eqn:Epair.
      * cbn [contains]. rewrite (IH rest) by lia.
        change (startswith [backslash; "n"%char] (nl :: unescape_newlines rest))
          with false.
        reflexivity.
      * cbn [contains]. rewrite (IH (d :: rest)) by (cbn [length]; lia).
        rewrite orb_false_r. cbn [startswith].
        destruct (Ascii.eqb_spec backslash c) as [<-|_]; [|reflexivity].
        rewrite Ascii.eqb_refl in Epair. cbn [andb] in Epair.
        destruct (unescape_newlines (d :: rest)) as [|x t] eqn:E; [reflexivity|].
        cbn [startswith]. rewrite andb_true_r.
        destruct (Ascii.eqb_spec "n"%char x) as [<-|_]; [|reflexivity].
        destruct (unescape_newlines_head (d :: rest) "n"%char) as [[= ->]|[=]];
          [rewrite E; reflexivity|].
        rewrite Ascii.eqb_refl in Epair. discriminate Epair.
Qed.

Section Parsed_response.

Variable json_loads : pystr -> option json.

(** Whatever JSON the response is, a description and labels that come
    from it hold no backslash followed by [n], and no whitespace around
    the labels. *)
Theorem generate_parsed_result_shape (w : env) (title raw_text : pystr)
    (tr : list event) (content : list pystr) (data : json)
    (desc lbl : pystr) :
  nonempty (default [] (api_key w)) = true ->
  anthropic_installed w = true ->
  messages_create w tr system_prompt (user_prompt title raw_text)
  = ApiResponse content ->
  json_loads (response_text content) = Some data ->
  (generate_description_and_labels json_loads w title raw_text tr).2
  = Ok (desc, lbl) ->
  contains [backslash; "n"%char] desc = false /\ strip lbl = lbl.
Proof.
  intros Hkey Hlib Hresp Hjson. unfold generate_description_and_labels.
  rewrite Hkey, Hlib. cbn [negb].
  unfold mbind, io_bind, mret, io_ret, request, print, lift. cbv beta iota zeta.
  rewrite Hresp, Hjson.
  destruct (json_get data "description") as [d|]; [|discriminate].
  destruct (as_str (or_str d title)) as [sd|]; [|discriminate].
  destruct (json_get data "labels") as [l|]; [|discriminate].
  destruct (as_str (or_str l [])) as [sl|]; [|discriminate].
  intros [= <- <-]. split.
  - exact (unescape_newlines_no_pair (length sd) sd (le_n _)).
  - apply strip_idem.
Qed.

End Parsed_response.

(** ** Examples *)

Lemma generate_fallback_value_witness :
  (generate_description_and_labels json_rejects env_malformed_response
     (lit "Glow Serum") (lit "For oily skin") []).2
  = Ok (lit "Glow Serum" ++ nl :: nl :: take 1500 (lit "For oily skin"),
        _fallback_labels (lit "Glow Serum") (lit "For oily skin")).
Proof.
  apply (generate_fallback_value json_rejects env_malformed_response).
  - right. right. right. exists [lit "Sorry, I cannot"]. split; reflexivity.
  - discriminate.
Defined.

Lemma generate_non_object_raises_witness :
  (generate_description_and_labels (json_knows (lit "[1]") (JArray [JInt 1]))
     (env_answers (lit "[1]")) (lit "Glow Serum") (lit "For oily skin") []).2
  = Raise AttributeError.
Proof.
  apply (generate_non_object_raises (json_knows (lit "[1]") (JArray [JInt 1]))
           (env_answers (lit "[1]")) (lit "Glow Serum") (lit "For oily skin") []
           [lit "[1]"] (JArray [JInt 1])).
  - reflexivity.
  - reflexivity.
  - reflexivity.
  - vm_compute. reflexivity.
  - intros items. discriminate.
Defined.

Lemma generate_parsed_object_witness :
  (generate_description_and_labels
     (json_knows response_labels_only data_labels_only)
     (env_answers response_labels_only) (lit "Glow Serum")
     (lit "For oily skin") []).2
  = Ok (unescape_newlines (str_or (default [] None) (lit "Glow Serum")),
        strip (default [] (Some (lit " Oily skin ")))).
Proof.
  apply (generate_parsed_object
           (json_knows response_labels_only data_labels_only)
           (env_answers response_labels_only) (lit "Glow Serum")
           (lit "For oily skin") [] [response_labels_only]
           [(lit "labels", JString (lit " Oily skin "))] None (Some (lit " Oily skin "))).
  - reflexivity.
  - reflexivity.
  - reflexivity.
  - vm_compute. reflexivity.
  - vm_compute. reflexivity.
  - vm_compute. reflexivity.
Defined.

Lemma generate_parsed_result_shape_witness :
  contains [backslash; "n"%char] (lit "Glow Serum") = false
  /\ strip (lit "Oily skin") = lit "Oily skin".
Proof.
  apply (generate_parsed_result_shape
           (json_knows response_labels_only data_labels_only)
           (env_answers response_labels_only) (lit "Glow Serum")
           (lit "For oily skin") [] [response_labels_only] data_labels_only).
  - reflexivity.
  - reflexivity.
  - reflexivity.
  - vm_compute. reflexivity.
  - vm_compute. reflexivity.
Defined.

Lemma process_row_without_asin_ignores_reference_witness :
  process_row json_rejects env_no_credential ref_serum 1 1 row_without_url []
  = process_row json_rejects env_no_credential ∅ 1 1 row_without_url [].
Proof.
  apply (process_row_without_asin_ignores_reference json_rejects
           env_no_credential reference_csv_serum ref_serum 1 1 row_without_url []).
  - vm_compute. reflexivity.
  - vm_compute. reflexivity.
Defined.

Lemma main_writes_a_row_per_raw_row_witness :
  exists written,
    (main json_rejects env_no_credential reference_csv_serum
       [row_serum; row_without_url] []).2 = Ok written
    /\ written !! 0 = Some out_columns
    /\ length written = S (length [row_serum; row_without_url])
    /\ forall k row,
         [row_serum; row_without_url] !! k = Some row ->
         exists r,
           written !! S k
           = Some [str_of_int (Z.of_nat (S k)); _get row "title"; description r;
                   labels r; image_links r; _get row "url"; price r].
Proof.
  eexists. split; [vm_compute; reflexivity|].
  apply (main_writes_a_row_per_raw_row json_rejects env_no_credential
           reference_csv_serum [row_serum; row_without_url] []).
  vm_compute. reflexivity.
Defined.

Lemma main_requests_witness :
  exists evs,
    (main json_rejects env_request_fails reference_csv_serum
       [row_serum; row_without_url] []).1 = [] ++ evs
    /\ requests evs
       <= length (filter (fun row =>
                            ref_serum !! _extract_asin (Some (_get row "url")) = None)
                         [row_serum; row_without_url])
    /\ (nonempty (default [] (api_key env_request_fails)) = false ->
        requests evs = 0).
Proof.
  apply (main_requests json_rejects env_request_fails reference_csv_serum
           ref_serum [row_serum; row_without_url] []).
  vm_compute. reflexivity.
Defined.

Lemma normalize_price_whole_exact_witness :
  normalize_price (Some (lit " $ 0042.00 "))
  = Ok (str_of_int (digits_value (lit "0042"))).
Proof.
  apply (normalize_price_whole_exact (Some (lit " $ 0042.00 ")) (lit "0042")
           (Some (lit "00"))).
  - exists (lit "$"), (lit " "), []. split; [reflexivity|].
    split; [right; reflexivity|].
    repeat split; try discriminate; repeat constructor.
  - repeat constructor.
  - vm_compute. discriminate.
Defined.

Lemma normalize_price_keeps_cents_witness :
  normalize_price (Some (lit "$012.50"))
  = Ok (if bool_decide (["5"%char; "0"%char] = lit "00")
        then str_of_int (digits_value (lit "012"))
        else str_of_int (digits_value (lit "012")) ++ "."%char :: lit "50").
Proof.
  apply (normalize_price_keeps_cents (Some (lit "$012.50")) (lit "012")
           "5"%char "0"%char).
  - exists (lit "$"), [], []. split; [reflexivity|].
    split; [right; reflexivity|].
    repeat split; try discriminate; repeat constructor.
  - vm_compute. reflexivity.
Defined.

Lemma normalize_price_overflow_witness :
  normalize_price (Some (lit "$12.50")) = Raise OverflowError
  <-> ((2 ^ 1024 - 2 ^ 970) * 10 ^ Z.of_nat (length (lit "50"))
       <= digits_value (lit "12" ++ lit "50"))%Z.
Proof.
  apply (normalize_price_overflow (Some (lit "$12.50")) (lit "12")
           (Some (lit "50"))).
  exists (lit "$"), [], []. split; [reflexivity|].
  split; [right; reflexivity|].
  repeat split; try discriminate; repeat constructor.
Defined.

Lemma response_text_plain_witness :
  response_text [lit " {} "; lit "more"] = strip (lit " {} ").
Proof.
  apply (response_text_plain (lit " {} ") [lit "more"]).
  repeat (constructor; [discriminate|]). constructor.
Defined.

Lemma response_text_fenced_witness :
  response_text [lit "```" ++ lit "json" ++ (nl :: lit "{}" ++ [nl])
                 ++ lit "```" ++ [nl]]
  = strip (nl :: lit "{}" ++ [nl]).
Proof.
  apply (response_text_fenced (lit "json") (nl :: lit "{}" ++ [nl]) [nl] []).
  - repeat (constructor; [discriminate|]). constructor.
  - repeat constructor.
  - left. reflexivity.
Defined.

Lemma fallback_labels_ignore_case_and_hyphens_witness :
  _fallback_labels (lit "Anti-Aging Serum") (lit "for OILY skin")
  = _fallback_labels (lit "anti aging serum") (lit "For oily skin").
Proof.
  apply fallback_labels_ignore_case_and_hyphens; reflexivity.
Defined.

Lemma load_dotenv_keeps_variables_witness :
  exists environ',
    _load_dotenv (Some (lit "A=1" ++ nl :: lit "B=2" ++ [nl])) None
      {[ lit "A" := lit "0" ]} = inr environ'
    /\ ({[ lit "A" := lit "0" ]} : gmap pystr pystr) ⊆ environ'.
Proof.
  eexists. split; [vm_compute; reflexivity|].
  apply (load_dotenv_keeps_variables
           (Some (lit "A=1" ++ nl :: lit "B=2" ++ [nl])) None).
  vm_compute. reflexivity.
Defined.

Lemma load_line_sets_variable_witness :
  load_line ∅ (lit "ANTHROPIC_API_KEY" ++ lit "=" ++ [dquote] ++ lit "sk-test"
               ++ [dquote] ++ [nl])
  = inr (<[lit "ANTHROPIC_API_KEY" := lit "sk-test"]> ∅).
Proof.
  apply (load_line_sets_variable ∅ (lit "ANTHROPIC_API_KEY") [dquote]
           (lit "sk-test") [nl]).
  - split; [discriminate|]. split; [reflexivity|]. split; [reflexivity|].
    repeat (constructor; [split; discriminate|]). constructor.
  - split; [right; left; reflexivity|]. split.
    + repeat (constructor; [split; discriminate|]). constructor.
    + split; split; discriminate.
  - repeat constructor.
  - apply lookup_empty.
Defined.

Lemma load_dotenv_empty_name_fails_witness :
  exists e,
    _load_dotenv (Some (lit "A=1" ++ nl :: lit "=x" ++ [nl])) None ∅ = inl e.
Proof.
  apply (load_dotenv_empty_name_fails
           (Some (lit "A=1" ++ nl :: lit "=x" ++ [nl])) None
           (lit "A=1" ++ nl :: lit "=x" ++ [nl]) (lit "=x" ++ [nl]) ∅).
  - reflexivity.
  - right. left.
  - reflexivity.
  - apply lookup_empty.
Defined.

Lemma load_dotenv_value_without_newline_witness :
  contains [nl]
    (line_value (split_first "="%char (strip (lit "A=1" ++ [nl]))).2) = false.
Proof.
  apply (load_dotenv_value_without_newline (lit "A=1" ++ nl :: lit "B=2")
           (lit "A=1" ++ [nl])).
  left.
Defined.
